(** * ASTROSURVEILLANCE device control loop: a shallow embedding

  The four cooperating state machines of the edge server (motion
  validation, alarm sequencing, recording lifecycle, storage capacity
  management) are embedded as pure functions over explicit state, with
  the shared [Timer] singleton, the file system and the clock passed
  explicitly.  JavaScript [Map]s keyed by camera id are [gmap string _];
  arrays are lists; [emit] calls and hardware calls are appended to
  traces kept in the state of the component that makes them. *)

From stdpp Require Import gmap strings list fin_maps pretty sorting.
From Stdlib Require Import ZArith QArith Lia.

Open Scope Z_scope.

(** ** JavaScript helpers *)

(** Truthiness of an optional string argument ([null], [undefined] and the
  empty string are falsy). *)
Definition jsTruthy (o : option string) : bool :=
  match o with
  | Some s => negb (String.eqb s "")
  | None => false
  end.

(** [a || b] on optional strings. *)
Definition jsOr (a b : option string) : option string :=
  if jsTruthy a then a else b.

(** ** shared/types.js *)

Module Types.

Inductive RecordingState := IDLE | RECORDING | LOCKED | SAVING | RESET.

Inductive AlarmState := ARMED | DISARMED | TRIGGERED | COOLDOWN.

Inductive MotionEventType := MOTION_START | MOTION_END | FALSE_POSITIVE.

Inductive StorageHealth := HEALTHY | WARNING | CRITICAL | ERROR.

#[global] Instance RecordingState_eq_dec : EqDecision RecordingState.
Proof. solve_decision. Defined.

#[global] Instance AlarmState_eq_dec : EqDecision AlarmState.
Proof. solve_decision. Defined.

#[global] Instance MotionEventType_eq_dec : EqDecision MotionEventType.
Proof. solve_decision. Defined.

#[global] Instance StorageHealth_eq_dec : EqDecision StorageHealth.
Proof. solve_decision. Defined.

(** A JavaScript [Date]: the instant in milliseconds since the epoch
    together with what the local-time getters return for it. *)
Record Date := mkDate {
  getTime : Z;
  getFullYear : Z;
  getMonth : Z;          (* 0-based, as in JavaScript *)
  getDate : Z;
  getHours : Z;
  getMinutes : Z;
  getSeconds : Z;
  getMilliseconds : Z
}.

(** [String(n).padStart(2, '0')] *)
Definition pad (n : Z) : string :=
  let s := pretty n in
  if (String.length s <? 2)%nat then "0" +:+ s else s.

Definition generateVideoFilename (cameraId : string) (timestamp : Date) : string :=
  let date := pretty (getFullYear timestamp) +:+ "-" +:+ pad (getMonth timestamp + 1)
              +:+ "-" +:+ pad (getDate timestamp) in
  let time := pad (getHours timestamp) +:+ "-" +:+ pad (getMinutes timestamp)
              +:+ "-" +:+ pad (getSeconds timestamp) in
  cameraId +:+ "_" +:+ date +:+ "_" +:+ time +:+ ".mp4".

(** The arguments of [new Date(year, monthIndex, day, hours, minutes,
    seconds)], a date given in local time. *)
Record DateParts := mkDateParts {
  dp_year : Z;
  dp_monthIndex : Z;
  dp_day : Z;
  dp_hours : Z;
  dp_minutes : Z;
  dp_seconds : Z
}.

(** What [parseVideoFilename] returns. *)
Record ParsedName := mkParsedName {
  pn_cameraId : string;
  pn_timestamp : DateParts;
  pn_filename : string
}.

(** [\d] *)
Definition isDigit (a : Ascii.ascii) : bool :=
  (48 <=? Ascii.nat_of_ascii a)%nat && (Ascii.nat_of_ascii a <=? 57)%nat.

Definition digitVal (a : Ascii.ascii) : Z := Z.of_nat (Ascii.nat_of_ascii a) - 48.

(** [Number] on a string of digits. *)
Definition numberOf (ds : list Ascii.ascii) : Z :=
  foldl (λ acc a, 10 * acc + digitVal a) 0 ds.

(** The characters that [.] does not match; strings are taken as
    sequences of ASCII characters. *)
Definition isLineTerminator (a : Ascii.ascii) : bool :=
  (Ascii.nat_of_ascii a =? 10)%nat || (Ascii.nat_of_ascii a =? 13)%nat.

(** [parseVideoFilename(filename)]; [None] stands for [null].  The part
    of the pattern after [(.+)] has 24 characters, so a match splits the
    name 24 characters before its end. *)
Definition parseVideoFilename (filename : string) : option ParsedName :=
  let l := String.list_ascii_of_string filename in
  let n := length l in
  let cameraId := take (n - 24) l in
  match drop (n - 24) l with
  | [u1; y1; y2; y3; y4; h1; m1; m2; h2; d1; d2; u2;
     H1; H2; h3; M1; M2; h4; S1; S2; dot; cm; cp; c4] =>
    if (1 <=? length cameraId)%nat
       && negb (existsb isLineTerminator cameraId)
       && forallb isDigit [y1; y2; y3; y4; m1; m2; d1; d2; H1; H2; M1; M2; S1; S2]
       && bool_decide ([u1; h1; h2; u2; h3; h4; dot; cm; cp; c4] =
                       String.list_ascii_of_string "_--_--.mp4")
    then Some (mkParsedName (String.string_of_list_ascii cameraId)
                 (mkDateParts (numberOf [y1; y2; y3; y4]) (numberOf [m1; m2] - 1)
                    (numberOf [d1; d2]) (numberOf [H1; H2]) (numberOf [M1; M2])
                    (numberOf [S1; S2]))
                 filename)
    else None
  | _ => None
  end.


(** The checks on a two-digit field and on a year, as boolean tests
    that run over the whole range. *)
Definition padOk (v : Z) : bool :=
  match String.list_ascii_of_string (pad v) with
  | [a; b] => isDigit a && isDigit b && (numberOf [a; b] =? v)
  | _ => false
  end.

Definition yearOk (y : Z) : bool :=
  match String.list_ascii_of_string (pretty y) with
  | [a; b; c; d] =>
    isDigit a && isDigit b && isDigit c && isDigit d && (numberOf [a; b; c; d] =? y)
  | _ => false
  end.


End Types.
Export Types.

(** ** utils/Timer.js: the [PreciseTimer] singleton

  The timer table is shared by the alarm and the recording controllers.
  A pending timer holds its duration and its callback; the callbacks the
  core registers are closures over a camera id, represented by the
  constructors of [Callback]. *)

Module Timer.

Inductive Callback :=
| CbRecordingEnd (cameraId : string)   (* () => this._onTimerEnd(cameraId) *)
| CbReset (cameraId : string)          (* the closure of _onReset *)
| CbAlarmTimeout (cameraId : string)   (* () => this._onAlarmTimeout(cameraId) *)
| CbCooldown.                          (* the closure of _enterCooldown *)

Record timer := mkTimer { durationMs : Z; callback : Callback }.

#[global] Instance Callback_eq_dec : EqDecision Callback.
Proof. solve_decision. Defined.

#[global] Instance timer_eq_dec : EqDecision timer.
Proof. solve_decision. Defined.

Abbreviation timers := (gmap string timer).

(** [stop(id)]: clears the timeout and forgets the timer. *)
Definition stop (id : string) (tm : timers) : bool * timers :=
  match tm !! id with
  | Some _ => (true, delete id tm)
  | None => (false, tm)
  end.

(** [start(id, durationMs, callback)]: an existing timer under the same
    id is stopped first. *)
Definition start (id : string) (d : Z) (cb : Callback) (tm : timers) : timers :=
  <[id := mkTimer d cb]> (stop id tm).2.

Definition isActive (id : string) (tm : timers) : bool :=
  bool_decide (is_Some (tm !! id)).

Definition stopAll (tm : timers) : timers := ∅.

(** What [setTimeout] runs when the timer [id] expires: the timer is
    removed from the table and its callback is handed to the caller. *)
Definition expire (id : string) (tm : timers) : option (Callback * timers) :=
  match tm !! id with
  | Some t => Some (callback t, delete id tm)
  | None => None
  end.

End Timer.

(** ** modules/AlarmController.js *)

Module AlarmController.

Record Config := mkConfig {
  durationSeconds : Z;
  enabled : bool;
  volumeLevel : Z
}.

(** An entry of [cameraAlarms]. *)
Record CameraAlarm := mkCameraAlarm {
  isActive : bool;
  triggeredAt : Z
}.

(** Calls made on the hardware interface. *)
Inductive HwCall := HwActivate (volume : Z) | HwDeactivate.

(** Events emitted by the controller. *)
Inductive Event :=
| alarmTriggered (cameraId : string)
| alarmStopped (cameraId : option string)
| alarmArmed
| alarmDisarmed.

(** The controller object.  [hardwareInterface] tells whether an interface
    with [activate]/[deactivate] has been set; [hwCalls] and [emitted] are
    the traces of the calls made on it and of the emitted events, oldest
    first. *)
Record t := mk {
  config : Config;
  state : AlarmState;
  cameraAlarms : gmap string CameraAlarm;
  hardwareInterface : bool;
  hwCalls : list HwCall;
  emitted : list Event
}.

#[global] Instance CameraAlarm_eq_dec : EqDecision CameraAlarm.
Proof. solve_decision. Defined.

Definition set_state (st : AlarmState) (a : t) : t :=
  mk (config a) st (cameraAlarms a) (hardwareInterface a) (hwCalls a) (emitted a).

Definition set_cameraAlarms (m : gmap string CameraAlarm) (a : t) : t :=
  mk (config a) (state a) m (hardwareInterface a) (hwCalls a) (emitted a).

Definition emit (e : Event) (a : t) : t :=
  mk (config a) (state a) (cameraAlarms a) (hardwareInterface a) (hwCalls a)
     (emitted a ++ [e]).

(** The constructor: [state = ARMED], no per-camera entry, no hardware. *)
Definition new (c : Config) : t :=
  mk c ARMED ∅ false [] [].


(** [_activateHardwareAlarm]: calls the interface when there is one (a
    failure of the call is caught and logged); otherwise only logs. *)
Definition _activateHardwareAlarm (a : t) : t :=
  if hardwareInterface a
  then mk (config a) (state a) (cameraAlarms a) (hardwareInterface a)
          (hwCalls a ++ [HwActivate (volumeLevel (config a))]) (emitted a)
  else a.

Definition _deactivateHardwareAlarm (a : t) : t :=
  if hardwareInterface a
  then mk (config a) (state a) (cameraAlarms a) (hardwareInterface a)
          (hwCalls a ++ [HwDeactivate]) (emitted a)
  else a.

(** The key of the per-camera auto-stop timer. *)
Definition alarmKey (cameraId : string) : string := "alarm_" +:+ cameraId.

(** [trigger(cameraId)]; [now] is the value of [new Date()]. *)
Definition trigger (cameraId : string) (now : Z) (a : t) (tm : Timer.timers)
  : bool * t * Timer.timers :=
  if decide (state a = DISARMED) then (false, a, tm)
  else if decide (state a = COOLDOWN) then (false, a, tm)
  else
    match cameraAlarms a !! cameraId with
    | Some (mkCameraAlarm true _) => (false, a, tm)
    | _ =>
      let a1 := set_state TRIGGERED a in
      let a2 := set_cameraAlarms (<[cameraId := mkCameraAlarm true now]> (cameraAlarms a1)) a1 in
      let a3 := _activateHardwareAlarm a2 in
      let a4 := emit (alarmTriggered cameraId) a3 in
      let tm' := Timer.start (alarmKey cameraId) (durationSeconds (config a) * 1000)
                             (Timer.CbAlarmTimeout cameraId) tm in
      (true, a4, tm')
    end.

(** [cameraAlarm.isActive = false] on an entry of the map. *)
Definition deactivate (ca : CameraAlarm) : CameraAlarm :=
  mkCameraAlarm false (triggeredAt ca).

(** The loop of [_onAlarmTimeout] that looks for an active entry. *)
Definition anyActive (m : gmap string CameraAlarm) : bool :=
  existsb (λ kv, isActive kv.2) (map_to_list m).

(** [_enterCooldown] *)
Definition _enterCooldown (a : t) (tm : Timer.timers) : t * Timer.timers :=
  (set_state COOLDOWN a, Timer.start "alarm_cooldown" 5000 Timer.CbCooldown tm).

(** [_onAlarmTimeout(cameraId)] *)
Definition _onAlarmTimeout (cameraId : string) (a : t) (tm : Timer.timers)
  : t * Timer.timers :=
  let a1 := set_cameraAlarms (alter deactivate cameraId (cameraAlarms a)) a in
  let '(a2, tm2) :=
    if anyActive (cameraAlarms a1) then (a1, tm)
    else _enterCooldown (_deactivateHardwareAlarm a1) tm in
  (emit (alarmStopped (Some cameraId)) a2, tm2).

(** The callback registered by [_enterCooldown]. *)
Definition onCooldownEnd (a : t) : t := set_state ARMED a.

(** The two branches of [stop]: one camera, or every entry of the map. *)
Definition stopOne (c : string) (a : t) (tm : Timer.timers) : t * Timer.timers :=
  (set_cameraAlarms (alter deactivate c (cameraAlarms a)) a,
   (Timer.stop (alarmKey c) tm).2).

Definition stopEvery (a : t) (tm : Timer.timers) : t * Timer.timers :=
  (set_cameraAlarms (deactivate <$> cameraAlarms a) a,
   foldr (λ id tm', (Timer.stop (alarmKey id) tm').2) tm
         (map fst (map_to_list (cameraAlarms a)))).

(** [stop(cameraId = null)]; the test [if (cameraId)] is on truthiness. *)
Definition stop (cameraId : option string) (a : t) (tm : Timer.timers)
  : t * Timer.timers :=
  let '(a1, tm1) :=
    match cameraId with
    | Some c => if jsTruthy cameraId then stopOne c a tm else stopEvery a tm
    | None => stopEvery a tm
    end in
  let a2 := _deactivateHardwareAlarm a1 in
  let a3 := set_state ARMED a2 in
  (emit (alarmStopped cameraId) a3, tm1).

(** [arm()] *)
Definition arm (a : t) : t := emit alarmArmed (set_state ARMED a).

(** [disarm()] *)
Definition disarm (a : t) (tm : Timer.timers) : t * Timer.timers :=
  let '(a1, tm1) := stop None a tm in
  (emit alarmDisarmed (set_state DISARMED a1), tm1).

(** What the expiry of the timer [id] does to the alarm controller: the
    timer leaves the table and its callback runs.  Callbacks of the
    recording controller do not touch the alarm state. *)
Definition fire (id : string) (a : t) (tm : Timer.timers) : t * Timer.timers :=
  match Timer.expire id tm with
  | Some (Timer.CbAlarmTimeout c, tm') => _onAlarmTimeout c a tm'
  | Some (Timer.CbCooldown, tm') => (onCooldownEnd a, tm')
  | Some (_, tm') => (a, tm')
  | None => (a, tm)
  end.

(** The operations that drive the alarm sequencer. *)
Inductive Op :=
| OpTrigger (cameraId : string) (now : Z)
| OpTimeout (timerId : string)
| OpStop (cameraId : option string)
| OpArm
| OpDisarm.

Definition step (o : Op) (s : t * Timer.timers) : t * Timer.timers :=
  match o with
  | OpTrigger c now => let '(_, a, tm) := trigger c now s.1 s.2 in (a, tm)
  | OpTimeout id => fire id s.1 s.2
  | OpStop c => stop c s.1 s.2
  | OpArm => (arm s.1, s.2)
  | OpDisarm => disarm s.1 s.2
  end.

(** Runs a sequence of operations, first operation first. *)
Definition exec (ops : list Op) (s : t * Timer.timers) : t * Timer.timers :=
  foldl (λ s o, step o s) s ops.

(** At least one per-camera entry has [isActive = true]. *)
Definition someActive (a : t) : Prop :=
  ∃ c ca, cameraAlarms a !! c = Some ca ∧ isActive ca = true.

(** The mode is [TRIGGERED] only while some per-camera entry is active. *)
Definition triggered_has_active (a : t) : Prop :=
  state a = TRIGGERED → someActive a.

(** The guard of [trigger], in the words of the specification. *)
Definition blocked (c : string) (a : t) : Prop :=
  state a = DISARMED ∨ state a = COOLDOWN ∨
  ∃ ca, cameraAlarms a !! c = Some ca ∧ isActive ca = true.

(** [toggle()]: the new mode is returned. *)
Definition toggle (a : t) (tm : Timer.timers) : AlarmState * t * Timer.timers :=
  let '(a', tm') := if decide (state a = DISARMED) then (arm a, tm) else disarm a tm in
  (state a', a', tm').

(** The argument of [updateConfig]; an absent field is [undefined]. *)
Record ConfigUpdate := mkConfigUpdate {
  upd_durationSeconds : option Z;
  upd_enabled : option bool;
  upd_volumeLevel : option Z
}.

Definition set_config (c : Config) (a : t) : t :=
  mk c (state a) (cameraAlarms a) (hardwareInterface a) (hwCalls a) (emitted a).

(** [updateConfig(updates)]; the new configuration is returned. *)
Definition updateConfig (u : ConfigUpdate) (a : t) (tm : Timer.timers)
  : Config * t * Timer.timers :=
  let a1 :=
    match upd_durationSeconds u with
    | Some d => set_config (mkConfig d (enabled (config a)) (volumeLevel (config a))) a
    | None => a
    end in
  let '(a2, tm2) :=
    match upd_enabled u with
    | Some e =>
      let a1' := set_config (mkConfig (durationSeconds (config a1)) e
                               (volumeLevel (config a1))) a1 in
      if negb e then disarm a1' tm else (arm a1', tm)
    | None => (a1, tm)
    end in
  let a3 :=
    match upd_volumeLevel u with
    | Some v => set_config (mkConfig (durationSeconds (config a2)) (enabled (config a2))
                              (Z.min 100 (Z.max 0 v))) a2
    | None => a2
    end in
  (config a3, a3, tm2).

(** The auto-stop timers and the active entries go together: a pending
    timer whose callback is the timeout of a camera sits under the alarm
    key of that camera, whose entry is active; and an active entry has
    the timeout of its camera pending under its key. *)
Definition timersMatch (s : t * Timer.timers) : Prop :=
  (∀ id t c, s.2 !! id = Some t → Timer.callback t = Timer.CbAlarmTimeout c →
     id = alarmKey c ∧ ∃ ca, cameraAlarms s.1 !! c = Some ca ∧ isActive ca = true) ∧
  (∀ c ca, cameraAlarms s.1 !! c = Some ca → isActive ca = true →
     ∃ t, s.2 !! alarmKey c = Some t ∧ Timer.callback t = Timer.CbAlarmTimeout c).




End AlarmController.

(** ** modules/StorageManager.js *)

Module StorageManager.

Record Config := mkConfig {
  basePath : string;
  maxUsagePercent : Q;
  autoCleanup : bool
}.

(** An entry of the recording index.  [timestamp] is the instant
    [new Date(entry.timestamp)] denotes, in milliseconds. *)
Record Recording := mkRecording {
  id : string;
  cameraId : string;
  filename : string;
  timestamp : Z;
  duration : Z;
  size : Z;
  downloaded : bool
}.

(** The directory the manager owns.  A file has a size; [unlinkFails]
    marks a file on which [fs.unlink] fails with an error other than
    [ENOENT].  [indexFile] is the list of recordings in the index file
    (absent before the first write), [writeFails] makes [fs.writeFile]
    on it fail. *)
Record File := mkFile { fsize : Z; unlinkFails : bool }.

Record FS := mkFS {
  files : gmap string File;
  indexFile : option (list Recording);
  writeFails : bool
}.

Record Stats := mkStats {
  totalBytes : Z;
  usedBytes : Z;
  freeBytes : Z;
  usagePercent : Q;
  health : StorageHealth
}.

Inductive Event :=
| storageWarning (usage : Q)
| storageCritical (usage : Q)
| cleanupComplete (deletedCount : nat)
| recordingAdded (entry : Recording)
| recordingDeleted (file : string).

(** The manager.  [removed] is a history variable: the entries spliced
    out of [recordings], oldest removal first. *)
Record t := mk {
  config : Config;
  recordings : list Recording;
  stats : Stats;
  fs : FS;
  emitted : list Event;
  removed : list Recording
}.

(** An awaited call either returns or throws; the state reached is kept
    in both cases. *)
Inductive result (A : Type) :=
| Ok (a : A) (s : t)
| Throw (s : t).
Arguments Ok {A} a s.
Arguments Throw {A} s.

Definition new (c : Config) (disk : FS) : t :=
  mk c [] (mkStats 0 0 0 0 HEALTHY) disk [] [].

Definition getBasePath (s : t) : string := basePath (config s).

Definition set_recordings (l : list Recording) (s : t) : t :=
  mk (config s) l (stats s) (fs s) (emitted s) (removed s).

Definition set_stats (st : Stats) (s : t) : t :=
  mk (config s) (recordings s) st (fs s) (emitted s) (removed s).

Definition set_fs (d : FS) (s : t) : t :=
  mk (config s) (recordings s) (stats s) d (emitted s) (removed s).

Definition emit (e : Event) (s : t) : t :=
  mk (config s) (recordings s) (stats s) (fs s) (emitted s ++ [e]) (removed s).

Definition log_removed (r : Recording) (s : t) : t :=
  mk (config s) (recordings s) (stats s) (fs s) (emitted s) (removed s ++ [r]).

(** [_saveIndex]: rewrites the index file with the whole in-memory list. *)
Definition _saveIndex (s : t) : result unit :=
  if writeFails (fs s) then Throw s
  else Ok tt (set_fs (mkFS (files (fs s)) (Some (recordings s)) (writeFails (fs s))) s).

(** [_calculateHealth] *)
Definition _calculateHealth (usage : Q) : StorageHealth :=
  if Qle_bool 90 usage then CRITICAL
  else if Qle_bool 70 usage then WARNING
  else HEALTHY.

(** [fs.stat(path).size], or nothing when the file is missing. *)
Definition statSize (d : FS) (file : string) : option Z :=
  fsize <$> files d !! file.

(** The loop of [_updateStorageStats] that sums the sizes of the files of
    the indexed recordings; a missing file counts for nothing. *)
Definition sumSizes (d : FS) (l : list Recording) : Z :=
  foldl (λ acc r, acc + default 0 (statSize d (filename r))) 0 l.

(** The assumed capacity, 32 GB.  Sizes are integers and percentages are
    rationals: with this capacity, a power of two, the double arithmetic
    of the source is exact for every used size below 2^53 / 100 bytes. *)
Definition assumedTotalBytes : Z := 32 * 1024 * 1024 * 1024.

Definition computeStats (d : FS) (l : list Recording) : Stats :=
  let used := sumSizes d l in
  let total := assumedTotalBytes in
  let usage := (inject_Z used / inject_Z total * 100)%Q in
  mkStats total used (total - used) usage (_calculateHealth usage).

(** [Array.prototype.findIndex]; [None] stands for [-1]. *)
Fixpoint findIndex {A} (p : A → bool) (l : list A) : option nat :=
  match l with
  | [] => None
  | x :: l' => if p x then Some 0%nat else S <$> findIndex p l'
  end.

(** [[...list].sort((a, b) => new Date(a.timestamp) - new Date(b.timestamp))]:
    the sort is stable, so its result is the one of this insertion sort. *)
Fixpoint insertByTime (r : Recording) (l : list Recording) : list Recording :=
  match l with
  | [] => [r]
  | x :: l' =>
    if timestamp r <=? timestamp x then r :: x :: l' else x :: insertByTime r l'
  end.

Definition sortByTimestamp (l : list Recording) : list Recording :=
  foldr insertByTime [] l.

(** [fs.unlink]: [ENOENT] on a missing file, another error on a file that
    cannot be removed. *)
Inductive UnlinkError := ENOENT | EOTHER.

Definition unlink (file : string) (d : FS) : UnlinkError + FS :=
  match files d !! file with
  | None => inl ENOENT
  | Some f =>
    if unlinkFails f then inl EOTHER
    else inr (mkFS (delete file (files d)) (indexFile d) (writeFails d))
  end.

(** The part of [deleteRecording] that removes the entry from the index. *)
Definition spliceByFilename (file : string) (s : t) : t :=
  match findIndex (λ r, String.eqb (filename r) file) (recordings s) with
  | Some i =>
    match recordings s !! i with
    | Some r => log_removed r (set_recordings (delete i (recordings s)) s)
    | None => s
    end
  | None => s
  end.

(** [deleteRecording(filename, updateIndex = true)]; [update] stands for
    [_updateStorageStats]. *)
Definition deleteRecording_with (update : t → option t)
    (file : string) (updateIndex : bool) (s : t) : option (result unit) :=
  match unlink file (fs s) with
  | inl EOTHER => Some (Throw s)
  | r =>
    let s1 := match r with inr d => set_fs d s | inl _ => s end in
    let s2 := spliceByFilename file s1 in
    if updateIndex then
      match _saveIndex s2 with
      | Throw s3 => Some (Throw s3)
      | Ok _ s3 =>
        match update s3 with
        | Some s4 => Some (Ok tt (emit (recordingDeleted file) s4))
        | None => None
        end
      end
    else Some (Ok tt (emit (recordingDeleted file) s2))
  end.

(** The [while] loop of [_performCleanup] over the sorted copy. *)
Fixpoint cleanupLoop (update : t → option t) (targetUsage : Q)
    (sorted : list Recording) (s : t) (deletedCount : nat) : option (t * nat) :=
  match sorted with
  | [] => Some (s, deletedCount)
  | oldest :: rest =>
    if negb (Qle_bool (usagePercent (stats s)) targetUsage) then
      match deleteRecording_with update (filename oldest) false s with
      | Some (Ok _ s1) =>
        match update s1 with
        | Some s2 => cleanupLoop update targetUsage rest s2 (S deletedCount)
        | None => None
        end
      | Some (Throw s1) => cleanupLoop update targetUsage rest s1 deletedCount
      | None => None
      end
    else Some (s, deletedCount)
  end.

(** [_performCleanup] *)
Definition performCleanup_with (update : t → option t) (s : t) : option t :=
  let sorted := sortByTimestamp (recordings s) in
  let targetUsage := (maxUsagePercent (config s) - 10)%Q in
  match cleanupLoop update targetUsage sorted s 0 with
  | Some (s', deletedCount) => Some (emit (cleanupComplete deletedCount) s')
  | None => None
  end.

(** The body of [_updateStorageStats]; nothing in it throws, so the
    [catch] branch is never taken. *)
Definition updateStorageStats_with (update : t → option t) (s : t) : option t :=
  let st := computeStats (fs s) (recordings s) in
  let s1 := set_stats st s in
  let cleaned :=
    if autoCleanup (config s1) && Qle_bool (maxUsagePercent (config s1)) (usagePercent st)
    then performCleanup_with update s1
    else Some s1 in
  match cleaned with
  | Some s2 =>
    Some (match health (stats s2) with
          | WARNING => emit (storageWarning (usagePercent st)) s2
          | CRITICAL => emit (storageCritical (usagePercent st)) s2
          | _ => s2
          end)
  | None => None
  end.

(** [_updateStorageStats] and [_performCleanup] call each other; [fuel]
    bounds the depth of that recursion. *)
Fixpoint updateStorageStats_fuel (fuel : nat) (s : t) : option t :=
  match fuel with
  | O => None
  | S fuel' => updateStorageStats_with (updateStorageStats_fuel fuel') s
  end.

(** One more than the number of index entries is enough fuel. *)
Definition _updateStorageStats (s : t) : option t :=
  updateStorageStats_fuel (S (length (recordings s))) s.

Definition _performCleanup (s : t) : option t :=
  performCleanup_with _updateStorageStats s.

Definition deleteRecording (file : string) (updateIndex : bool) (s : t)
  : option (result unit) :=
  deleteRecording_with _updateStorageStats file updateIndex s.

(** The argument of [addRecording]. *)
Record RecordingInfo := mkRecordingInfo {
  info_cameraId : string;
  info_filename : string;
  info_timestamp : Z;
  info_duration : Z
}.

(** [addRecording(recording)]; [now] is [Date.now()] and [rand] the
    random suffix of the entry id. *)
Definition addRecording (rec : RecordingInfo) (now : Z) (rand : string) (s : t)
  : option (result Recording) :=
  let entry0 := mkRecording ("rec_" +:+ pretty now +:+ "_" +:+ rand)
                  (info_cameraId rec) (info_filename rec) (info_timestamp rec)
                  (info_duration rec) 0 false in
  let entry :=
    match statSize (fs s) (info_filename rec) with
    | Some sz => mkRecording (id entry0) (cameraId entry0) (filename entry0)
                   (timestamp entry0) (duration entry0) sz (downloaded entry0)
    | None => entry0
    end in
  let s1 := set_recordings (recordings s ++ [entry]) s in
  match _saveIndex s1 with
  | Throw s2 => Some (Throw s2)
  | Ok _ s2 =>
    match _updateStorageStats s2 with
    | Some s3 => Some (Ok entry (emit (recordingAdded entry) s3))
    | None => None
    end
  end.

(** [refresh()]: the state after [_updateStorageStats]. *)
Definition refresh (s : t) : option t := _updateStorageStats s.

(** The list left by [findIndex] on the filename followed by [splice]. *)
Fixpoint removeFirst (file : string) (l : list Recording) : list Recording :=
  match l with
  | [] => []
  | x :: l' => if String.eqb (filename x) file then l' else x :: removeFirst file l'
  end.

(** The entry found by [findIndex] on the filename. *)
Fixpoint firstWith (file : string) (l : list Recording) : option Recording :=
  match l with
  | [] => None
  | x :: l' => if String.eqb (filename x) file then Some x else firstWith file l'
  end.

(** What no operation of the manager other than [_saveIndex] touches, and
    what eviction cannot increase. *)
Definition frame (s s' : t) : Prop :=
  config s' = config s ∧
  indexFile (fs s') = indexFile (fs s) ∧
  writeFails (fs s') = writeFails (fs s) ∧
  (length (recordings s') ≤ length (recordings s))%nat.

(** Every file of the directory can be unlinked. *)
Definition deletable (d : FS) : Prop :=
  ∀ file f, files d !! file = Some f → unlinkFails f = false.

(** The filenames of the index are pairwise distinct. *)
Definition distinctFiles (l : list Recording) : Prop := NoDup (filename <$> l).

(** An eviction from [s] to [s'] that removed the entries [D], in this
    order: [D] is an initial segment of the index sorted by age, what is
    left is the rest of it, and the statistics are those of what is left. *)
Definition evicts (s s' : t) (D : list Recording) : Prop :=
  config s' = config s ∧
  removed s' = removed s ++ D ∧
  sortByTimestamp (recordings s) = D ++ sortByTimestamp (recordings s') ∧
  stats s' = computeStats (fs s') (recordings s') ∧
  deletable (fs s').

(** Ascending order of creation time. *)
Definition byAge (a b : Recording) : Prop := timestamp a ≤ timestamp b.

(** The argument of [getRecordings].  An absent or empty [cameraId],
    [startDate] or [endDate] is [None]; a date is the instant it
    denotes, in milliseconds; [limit] and [offset] are the numbers given,
    [None] when absent. *)
Record Filters := mkFilters {
  f_cameraId : option string;
  f_startDate : option Z;
  f_endDate : option Z;
  f_limit : option Z;
  f_offset : option Z
}.

(** Truthiness of an optional number. *)
Definition jsTruthyNum (o : option Z) : bool :=
  match o with
  | Some n => negb (n =? 0)
  | None => false
  end.

(** [Array.prototype.slice(start, end)], with its relative indices. *)
Definition jsSlice {A} (start end_ : Z) (l : list A) : list A :=
  let len := Z.of_nat (length l) in
  let k := if start <? 0 then Z.max (len + start) 0 else Z.min start len in
  let fin := if end_ <? 0 then Z.max (len + end_) 0 else Z.min end_ len in
  take (Z.to_nat (fin - k)) (drop (Z.to_nat k) l).

(** [result.sort((a, b) => new Date(b.timestamp) - new Date(a.timestamp))]:
    the stable sort, newest first. *)
Fixpoint insertNewest (r : Recording) (l : list Recording) : list Recording :=
  match l with
  | [] => [r]
  | x :: l' =>
    if timestamp x <=? timestamp r then r :: x :: l' else x :: insertNewest r l'
  end.

Definition sortNewestFirst (l : list Recording) : list Recording :=
  foldr insertNewest [] l.

(** The three filters of [getRecordings]. *)
Definition matches (f : Filters) (r : Recording) : bool :=
  (if jsTruthy (f_cameraId f) then bool_decide (Some (cameraId r) = f_cameraId f) else true)
  && (match f_startDate f with Some start => start <=? timestamp r | None => true end)
  && (match f_endDate f with Some e => timestamp r <=? e | None => true end).

(** [getRecordings(filters)] *)
Definition getRecordings (f : Filters) (s : t) : list Recording :=
  let result := sortNewestFirst (filter (λ r, matches f r = true) (recordings s)) in
  if jsTruthyNum (f_limit f) then
    let offset := if jsTruthyNum (f_offset f) then default 0 (f_offset f) else 0 in
    jsSlice offset (offset + default 0 (f_limit f)) result
  else result.

(** [getRecording(identifier)]; [None] stands for [undefined]. *)
Definition getRecording (identifier : string) (s : t) : option Recording :=
  List.find (λ r, String.eqb (id r) identifier || String.eqb (filename r) identifier)
            (recordings s).

(** [fileExists(filename)] *)
Definition fileExists (file : string) (s : t) : bool :=
  bool_decide (is_Some (files (fs s) !! file)).

(** The failures of [initialize] that the directory does not decide.
    [mkdirFails]: [fs.mkdir] on the base path fails.  [readFails]:
    loading the index fails with an error other than [ENOENT]: the file
    cannot be read, or what it holds is not the JSON of an object
    ([JSON.parse] throws, or [index.recordings] is taken of [null]). *)
Record Faults := mkFaults { mkdirFails : bool; readFails : bool }.

(** [_loadIndex]: the index file, when it is there and loads, gives the
    list [index.recordings || []]; when there is none ([ENOENT]) the
    index starts empty and is written at once; any other error is thrown
    on, with the in-memory index as it was. *)
Definition _loadIndex (io : Faults) (s : t) : result unit :=
  if readFails io then Throw s
  else
    match indexFile (fs s) with
    | Some l => Ok tt (set_recordings l s)
    | None => _saveIndex (set_recordings [] s)
    end.

(** [initialize()]: the base directory is created, the index is loaded
    and the statistics are refreshed; an error of [fs.mkdir] or of
    [_loadIndex] is logged and thrown on. *)
Definition initialize (io : Faults) (s : t) : option (result unit) :=
  if mkdirFails io then Some (Throw s)
  else
    match _loadIndex io s with
    | Ok _ s1 =>
      match _updateStorageStats s1 with
      | Some s2 => Some (Ok tt s2)
      | None => None
      end
    | Throw s1 => Some (Throw s1)
    end.

(** What a refresh may do: drop entries of the index and delete files.
    The files left are as they were; a file that is gone was named by an
    entry of the index; a filename that is gone from the index has no
    file left. *)
Definition shrinks (s s' : t) : Prop :=
  recordings s' `sublist_of` recordings s ∧
  files (fs s') ⊆ files (fs s) ∧
  (∀ file, files (fs s') !! file = None → is_Some (files (fs s) !! file) →
           file ∈ filename <$> recordings s) ∧
  (∀ file, file ∈ filename <$> recordings s → file ∉ filename <$> recordings s' →
           files (fs s') !! file = None).

(** Newest first. *)
Definition byRecency (a b : Recording) : Prop := timestamp b ≤ timestamp a.


End StorageManager.

(** ** modules/RecordingController.js *)

Module RecordingController.

(** The recognised options; [0] stands for an absent (falsy) value. *)
Record Config := mkConfig {
  durationSeconds : Z;
  resetDelaySeconds : Z
}.

(** The per-camera record kept in [cameraStates]. *)
Record CameraState := mkCameraState {
  state : RecordingState;
  currentFile : option string;
  startTime : option Date;
  rtspUrl : option string
}.

(** An entry of [activeProcesses]. *)
Inductive Process :=
| Simulated
| Ffmpeg (source : string) (outputPath : string) (seconds : Z).

Inductive Event :=
| recordingStarted (cameraId : string) (file : string)
| recordingComplete (cameraId : string) (file : option string)
| recordingError (cameraId : string)
| recordingReady (cameraId : string).

(** A call of [_saveRecording] suspended at its [await]: the argument of
    [addRecording] was built before the suspension. *)
Record PendingSave := mkPendingSave {
  save_cameraId : string;
  save_info : StorageManager.RecordingInfo
}.

Record t := mk {
  config : Config;
  cameraStates : gmap string CameraState;
  activeProcesses : gmap string Process;
  recordingDurationMs : Z;
  resetDelayMs : Z;
  pendingSaves : list PendingSave;
  emitted : list Event
}.

(** [x || d] on a number. *)
Definition orDefault (x d : Z) : Z := if x =? 0 then d else x.

Definition new (c : Config) : t :=
  mk c ∅ ∅ (orDefault (durationSeconds c) 60 * 1000)
     (orDefault (resetDelaySeconds c) 3 * 1000) [] [].

Definition set_cameraStates (m : gmap string CameraState) (r : t) : t :=
  mk (config r) m (activeProcesses r) (recordingDurationMs r) (resetDelayMs r)
     (pendingSaves r) (emitted r).

Definition set_activeProcesses (m : gmap string Process) (r : t) : t :=
  mk (config r) (cameraStates r) m (recordingDurationMs r) (resetDelayMs r)
     (pendingSaves r) (emitted r).

Definition set_pendingSaves (l : list PendingSave) (r : t) : t :=
  mk (config r) (cameraStates r) (activeProcesses r) (recordingDurationMs r)
     (resetDelayMs r) l (emitted r).

Definition emit (e : Event) (r : t) : t :=
  mk (config r) (cameraStates r) (activeProcesses r) (recordingDurationMs r)
     (resetDelayMs r) (pendingSaves r) (emitted r ++ [e]).

Definition idleState : CameraState := mkCameraState IDLE None None None.

(** [getCameraState(cameraId)]: the entry is created on first reference. *)
Definition getCameraState (cameraId : string) (r : t) : CameraState * t :=
  match cameraStates r !! cameraId with
  | Some cs => (cs, r)
  | None => (idleState, set_cameraStates (<[cameraId := idleState]> (cameraStates r)) r)
  end.

(** Assignment to the fields of the record of [cameraId]. *)
Definition putCameraState (cameraId : string) (cs : CameraState) (r : t) : t :=
  set_cameraStates (<[cameraId := cs]> (cameraStates r)) r.

(** The phase shown by [getState(cameraId)]. *)
Definition phase (cameraId : string) (r : t) : RecordingState :=
  state (getCameraState cameraId r).1.

Definition recordingKey (cameraId : string) : string := "recording_" +:+ cameraId.
Definition resetKey (cameraId : string) : string := "reset_" +:+ cameraId.

(** [path.join(basePath, file)] *)
Definition joinPath (base file : string) : string := base +:+ "/" +:+ file.

(** [_startFFmpegRecording] *)
Definition _startFFmpegRecording (cameraId : string) (url : option string)
    (outputPath : string) (r : t) : t :=
  match url with
  | Some u =>
    if jsTruthy url
    then set_activeProcesses
           (<[cameraId := Ffmpeg u outputPath (durationSeconds (config r))]> (activeProcesses r)) r
    else set_activeProcesses (<[cameraId := Simulated]> (activeProcesses r)) r
  | None => set_activeProcesses (<[cameraId := Simulated]> (activeProcesses r)) r
  end.

(** [startRecording(cameraId, rtspUrl = null)]; [now] is [new Date()] and
    [base] is [storageManager.getBasePath()]. *)
Definition startRecording (cameraId : string) (url : option string) (now : Date)
    (base : string) (r : t) (tm : Timer.timers) : bool * t * Timer.timers :=
  let '(cs, r0) := getCameraState cameraId r in
  if decide (state cs ≠ IDLE) then (false, r0, tm)
  else
    let file := generateVideoFilename cameraId now in
    let cs' := mkCameraState RECORDING (Some file) (Some now) (jsOr url (rtspUrl cs)) in
    let r1 := putCameraState cameraId cs' r0 in
    let r2 := _startFFmpegRecording cameraId (rtspUrl cs') (joinPath base file) r1 in
    let tm' := Timer.start (recordingKey cameraId) (recordingDurationMs r)
                           (Timer.CbRecordingEnd cameraId) tm in
    (true, emit (recordingStarted cameraId file) r2, tm').

(** [_stopFFmpegRecording]: the process, if any, is signalled and its
    entry is deleted. *)
Definition _stopFFmpegRecording (cameraId : string) (r : t) : t :=
  set_activeProcesses (delete cameraId (activeProcesses r)) r.

(** [_onReset] *)
Definition _onReset (cameraId : string) (r : t) (tm : Timer.timers) : t * Timer.timers :=
  let '(_, r0) := getCameraState cameraId r in
  (r0, Timer.start (resetKey cameraId) (resetDelayMs r) (Timer.CbReset cameraId) tm).

(** The callback registered by [_onReset]. *)
Definition onResetEnd (cameraId : string) (r : t) : t :=
  let '(cs, r0) := getCameraState cameraId r in
  emit (recordingReady cameraId)
       (putCameraState cameraId (mkCameraState IDLE None None (rtspUrl cs)) r0).

(** The part of [_saveRecording] after the [try] block. *)
Definition enterReset (cameraId : string) (r : t) (tm : Timer.timers) : t * Timer.timers :=
  let '(cs, r0) := getCameraState cameraId r in
  let r1 := putCameraState cameraId
              (mkCameraState RESET (currentFile cs) (startTime cs) (rtspUrl cs)) r0 in
  _onReset cameraId r1 tm.

(** [_saveRecording] up to its [await]: the call of [addRecording] is
    prepared and the function suspends.  Reading [startTime] of a record
    without one throws inside the [try]; the function then goes on to the
    reset at once. *)
Definition _saveRecording (cameraId : string) (r : t) (tm : Timer.timers)
  : t * Timer.timers :=
  let '(cs, r0) := getCameraState cameraId r in
  match startTime cs with
  | Some d =>
    let info := StorageManager.mkRecordingInfo cameraId (default "" (currentFile cs))
                  (getTime d) (durationSeconds (config r)) in
    (set_pendingSaves (pendingSaves r0 ++ [mkPendingSave cameraId info]) r0, tm)
  | None => enterReset cameraId r0 tm
  end.

(** [_onTimerEnd] *)
Definition _onTimerEnd (cameraId : string) (r : t) (tm : Timer.timers) : t * Timer.timers :=
  let '(cs, r0) := getCameraState cameraId r in
  if decide (state cs ≠ RECORDING) then (r0, tm)
  else
    let r1 := _stopFFmpegRecording cameraId r0 in
    let r2 := putCameraState cameraId
                (mkCameraState SAVING (currentFile cs) (startTime cs) (rtspUrl cs)) r1 in
    _saveRecording cameraId r2 tm.

(** The first suspended save of [cameraId], and the others. *)
Fixpoint takePending (cameraId : string) (l : list PendingSave)
  : option (PendingSave * list PendingSave) :=
  match l with
  | [] => None
  | p :: l' =>
    if String.eqb (save_cameraId p) cameraId then Some (p, l')
    else match takePending cameraId l' with
         | Some (q, l'') => Some (q, p :: l'')
         | None => None
         end
  end.

(** [_saveRecording] from its [await] on: [addRecording] has run on the
    storage manager; when it returned, [recordingComplete] is emitted; in
    both cases the camera enters [RESET]. *)
Definition saveComplete (cameraId : string) (now : Z) (rand : string)
    (r : t) (tm : Timer.timers) (sm : StorageManager.t)
  : option (t * Timer.timers * StorageManager.t) :=
  match takePending cameraId (pendingSaves r) with
  | None => None
  | Some (p, rest) =>
    let r0 := set_pendingSaves rest r in
    match StorageManager.addRecording (save_info p) now rand sm with
    | None => None
    | Some (StorageManager.Ok _ sm') =>
      let '(cs, r1) := getCameraState cameraId r0 in
      let r2 := emit (recordingComplete cameraId (currentFile cs)) r1 in
      let '(r3, tm') := enterReset cameraId r2 tm in
      Some (r3, tm', sm')
    | Some (StorageManager.Throw sm') =>
      let '(r3, tm') := enterReset cameraId r0 tm in
      Some (r3, tm', sm')
    end
  end.

(** [_handleRecordingError] *)
Definition _handleRecordingError (cameraId : string) (r : t) (tm : Timer.timers)
  : t * Timer.timers :=
  let '(cs, r0) := getCameraState cameraId r in
  let tm1 := (Timer.stop (recordingKey cameraId) tm).2 in
  let r1 := set_activeProcesses (delete cameraId (activeProcesses r0)) r0 in
  let r2 := putCameraState cameraId
              (mkCameraState RESET (currentFile cs) (startTime cs) (rtspUrl cs)) r1 in
  let '(r3, tm2) := _onReset cameraId r2 tm1 in
  (emit (recordingError cameraId) r3, tm2).

(** [forceStop] *)
Definition forceStop (cameraId : string) (r : t) (tm : Timer.timers) : t * Timer.timers :=
  let '(cs, r0) := getCameraState cameraId r in
  let tm1 := (Timer.stop (recordingKey cameraId) tm).2 in
  let tm2 := (Timer.stop (resetKey cameraId) tm1).2 in
  let r1 := _stopFFmpegRecording cameraId r0 in
  (putCameraState cameraId (mkCameraState IDLE None None (rtspUrl cs)) r1, tm2).

(** [registerCamera] *)
Definition registerCamera (cameraId : string) (url : option string) (r : t) : t :=
  let '(cs, r0) := getCameraState cameraId r in
  putCameraState cameraId (mkCameraState (state cs) (currentFile cs) (startTime cs) url) r0.

(** The recording controller together with what it drives: the timer
    table and the storage manager. *)
Record World := mkWorld {
  rc : t;
  tm : Timer.timers;
  sm : StorageManager.t
}.

(** What the expiry of the timer [id] does to the recording controller. *)
Definition fire (id : string) (w : World) : World :=
  match Timer.expire id (tm w) with
  | Some (Timer.CbRecordingEnd c, tm') =>
    let '(r, tm'') := _onTimerEnd c (rc w) tm' in mkWorld r tm'' (sm w)
  | Some (Timer.CbReset c, tm') => mkWorld (onResetEnd c (rc w)) tm' (sm w)
  | Some (_, tm') => mkWorld (rc w) tm' (sm w)
  | None => w
  end.

(** The operations of the recording lifecycle: a start request, the
    expiry of a timer (duration timer or reset timer), the completion of
    a suspended save, an error of the capture process, a forced stop. *)
Inductive Op :=
| OpStart (cameraId : string) (url : option string) (now : Date)
| OpTimer (timerId : string)
| OpSaveComplete (cameraId : string) (now : Z) (rand : string)
| OpError (cameraId : string)
| OpForceStop (cameraId : string).

Definition step (o : Op) (w : World) : option World :=
  match o with
  | OpStart c url now =>
    let '(_, r, tm') :=
      startRecording c url now (StorageManager.getBasePath (sm w)) (rc w) (tm w) in
    Some (mkWorld r tm' (sm w))
  | OpTimer id => Some (fire id w)
  | OpSaveComplete c now rand =>
    match saveComplete c now rand (rc w) (tm w) (sm w) with
    | Some (r, tm', sm') => Some (mkWorld r tm' sm')
    | None => None
    end
  | OpError c =>
    let '(r, tm') := _handleRecordingError c (rc w) (tm w) in
    Some (mkWorld r tm' (sm w))
  | OpForceStop c =>
    let '(r, tm') := forceStop c (rc w) (tm w) in
    Some (mkWorld r tm' (sm w))
  end.

(** Runs a sequence of operations, first operation first. *)
Fixpoint exec (ops : list Op) (w : World) : option World :=
  match ops with
  | [] => Some w
  | o :: ops' =>
    match step o w with
    | Some w' => exec ops' w'
    | None => None
    end
  end.

(** The initial world: a fresh controller and no pending timer. *)
Definition init (c : Config) (storage : StorageManager.t) : World :=
  mkWorld (new c) ∅ storage.

(** What holds in every world reached from [init]: a pending timer whose
    callback is the reset closure of a camera sits under the reset key of
    that camera, whose phase is [RESET]; and a camera in [RECORDING] has
    a start time. *)
Definition wf (w : World) : Prop :=
  (∀ id t c, tm w !! id = Some t → Timer.callback t = Timer.CbReset c →
             id = resetKey c ∧ phase c (rc w) = RESET) ∧
  (∀ c cs, cameraStates (rc w) !! c = Some cs → state cs = RECORDING →
           is_Some (startTime cs)).

(** The four transitions of the sequential cycle. *)
Definition sequential (p q : RecordingState) : Prop :=
  (p = IDLE ∧ q = RECORDING) ∨ (p = RECORDING ∧ q = SAVING) ∨
  (p = SAVING ∧ q = RESET) ∨ (p = RESET ∧ q = IDLE).

(** [stopAll()]: [order] is the iteration order of [cameraStates] (the
    order in which the cameras were first referenced); every camera is
    force-stopped, then every timer is cancelled. *)
Definition stopAll (order : list string) (r : t) (tm : Timer.timers) : t * Timer.timers :=
  let s := foldl (λ s c, forceStop c s.1 s.2) (r, tm) order in
  (s.1, Timer.stopAll s.2).

(** Every camera that is not [IDLE] waits for something that is pending:
    in [RECORDING] for its duration timer, in [SAVING] for the completion
    of its suspended save, in [RESET] for its reset timer; no camera is
    [LOCKED]. *)
Definition alive (w : World) : Prop :=
  ∀ c,
    match phase c (rc w) with
    | IDLE => True
    | RECORDING =>
      ∃ t, tm w !! recordingKey c = Some t ∧ Timer.callback t = Timer.CbRecordingEnd c
    | SAVING => is_Some (takePending c (pendingSaves (rc w)))
    | RESET =>
      ∃ t, tm w !! resetKey c = Some t ∧ Timer.callback t = Timer.CbReset c
    | LOCKED => False
    end.


End RecordingController.

(** ** modules/MotionDetector.js *)

Module MotionDetector.

Inductive Sensitivity := low | medium | high.

Record Config := mkConfig {
  threshold : Q;
  minDurationMs : Z;
  minPixelChangePercent : Q;
  ignoreShadows : bool;
  ignoreLightingChanges : bool;
  sensitivityLevel : Sensitivity
}.

(** [sensitivityMap].  Levels, thresholds and percentages are rationals;
    for medium sensitivity the product with the multiplier 1.0 is exact in
    the source as well. *)
Definition sensitivityMap (l : Sensitivity) : Q :=
  match l with
  | low => 1.5
  | medium => 1.0
  | high => 0.6
  end%Q.

(** An entry of [cameras]. *)
Record Camera := mkCamera {
  cam_rtspUrl : option string;
  cam_enabled : bool
}.

(** An entry of [motionState]; [motionStartTime] is [null] until the
    first episode opens. *)
Record MotionState := mkMotionState {
  isMotionActive : bool;
  motionStartTime : option Z;
  lastMotionLevel : Q;
  consecutiveFrames : nat
}.

(** The analysis of one frame, after the defaults of [processFrame]. *)
Record FrameData := mkFrameData {
  pixelChangePercent : Q;
  motionLevel : Q;
  hasShadow : bool;
  hasLightingChange : bool
}.

(** The payload of a ['motion'] event. *)
Record MotionEvent := mkMotionEvent {
  type : MotionEventType;
  timestamp : Z;
  duration : option Z;
  level : option Q
}.

Record t := mk {
  config : Config;
  cameras : gmap string Camera;
  motionState : gmap string MotionState
}.

Definition new (c : Config) : t := mk c ∅ ∅.

Definition set_motionState (m : gmap string MotionState) (d : t) : t :=
  mk (config d) (cameras d) m.

(** [attachCamera] *)
Definition attachCamera (cameraId : string) (url : option string) (d : t) : t :=
  match cameras d !! cameraId with
  | Some _ => d
  | None =>
    mk (config d) (<[cameraId := mkCamera url true]> (cameras d))
       (<[cameraId := mkMotionState false None 0 0]> (motionState d))
  end.

(** [detachCamera] *)
Definition detachCamera (cameraId : string) (d : t) : t :=
  mk (config d) (delete cameraId (cameras d)) (delete cameraId (motionState d)).

(** [_validateMotion] *)
Definition _validateMotion (c : Config) (f : FrameData) : bool :=
  let sensitivity := sensitivityMap (sensitivityLevel c) in
  let adjustedThreshold := (threshold c * sensitivity)%Q in
  if negb (Qle_bool adjustedThreshold (motionLevel f)) then false
  else if negb (Qle_bool (minPixelChangePercent c) (pixelChangePercent f)) then false
  else if ignoreShadows c && hasShadow f then false
  else if ignoreLightingChanges c && hasLightingChange f then false
  else true.

(** [now - state.motionStartTime]; [null] counts as [0]. *)
Definition elapsed (now : Z) (start : option Z) : Z := now - default 0 start.

(** [_processMotion] on the state record of one camera: the new record
    and the events emitted; [now] is [Date.now()]. *)
Definition processMotionState (c : Config) (lvl : Q) (now : Z) (st : MotionState)
  : MotionState * list MotionEvent :=
  let frames := S (consecutiveFrames st) in
  let start := if isMotionActive st then motionStartTime st else Some now in
  let duration := elapsed now start in
  if (minDurationMs c <=? duration) && (3 <=? frames)%nat
  then (mkMotionState true (Some now) lvl 0,
        [mkMotionEvent MOTION_START now (Some duration) (Some lvl)])
  else (mkMotionState true start lvl frames, []).

(** [_processNoMotion] on the state record of one camera. *)
Definition processNoMotionState (now : Z) (st : MotionState)
  : MotionState * list MotionEvent :=
  if isMotionActive st
  then (mkMotionState false (motionStartTime st) (lastMotionLevel st) 0,
        [mkMotionEvent MOTION_END now None None])
  else (st, []).

(** [_processMotion(cameraId, data)]; [None] when the camera has no state
    record (the property access on [undefined] throws). *)
Definition _processMotion (cameraId : string) (lvl : Q) (now : Z) (d : t)
  : option (t * list MotionEvent) :=
  match motionState d !! cameraId with
  | Some st =>
    let '(st', evs) := processMotionState (config d) lvl now st in
    Some (set_motionState (<[cameraId := st']> (motionState d)) d, evs)
  | None => None
  end.

(** [_processNoMotion(cameraId)] *)
Definition _processNoMotion (cameraId : string) (now : Z) (d : t)
  : option (t * list MotionEvent) :=
  match motionState d !! cameraId with
  | Some st =>
    let '(st', evs) := processNoMotionState now st in
    Some (set_motionState (<[cameraId := st']> (motionState d)) d, evs)
  | None => None
  end.

(** [processFrame(cameraId, frameData)]: frames of unknown or disabled
    cameras are dropped. *)
Definition processFrame (cameraId : string) (f : FrameData) (now : Z) (d : t)
  : option (t * list MotionEvent) :=
  match cameras d !! cameraId with
  | None => Some (d, [])
  | Some cam =>
    if negb (cam_enabled cam) then Some (d, [])
    else if _validateMotion (config d) f
         then _processMotion cameraId (motionLevel f) now d
         else _processNoMotion cameraId now d
  end.

(** Feeds timed frames to one camera, first frame first, and collects the
    events emitted. *)
Fixpoint feed (cameraId : string) (frames : list (Z * FrameData)) (d : t)
  : option (t * list MotionEvent) :=
  match frames with
  | [] => Some (d, [])
  | (now, f) :: rest =>
    match processFrame cameraId f now d with
    | Some (d', evs) =>
      match feed cameraId rest d' with
      | Some (d'', evs') => Some (d'', evs ++ evs')
      | None => None
      end
    | None => None
    end
  end.

(** What one frame does to the state record of an attached, enabled
    camera. *)
Definition frameStep (c : Config) (now : Z) (f : FrameData) (st : MotionState)
  : MotionState * list MotionEvent :=
  if _validateMotion c f then processMotionState c (motionLevel f) now st
  else processNoMotionState now st.

(** [feed] on the state record of the camera. *)
Fixpoint feedState (c : Config) (frames : list (Z * FrameData)) (st : MotionState)
  : MotionState * list MotionEvent :=
  match frames with
  | [] => (st, [])
  | (now, f) :: rest =>
    let '(st1, evs) := frameStep c now f st in
    let '(st2, evs') := feedState c rest st1 in
    (st2, evs ++ evs')
  end.



(** The confirmed motion events among the emitted ones. *)
Definition confirmed (evs : list MotionEvent) : list MotionEvent :=
  filter (λ e, type e = MOTION_START) evs.

(** The candidate frames of a sequence. *)
Definition candidates (c : Config) (frames : list (Z * FrameData)) : list (Z * FrameData) :=
  filter (λ tf, _validateMotion c tf.2 = true) frames.

(** The multipliers in the words of the specification: low 1.5, medium
    1.0, high 0.6. *)
Definition sensitivityMultiplier (l : Sensitivity) : Q :=
  match l with
  | low => 1.5
  | medium => 1.0
  | high => 0.6
  end%Q.

(** The validation policy in the words of the specification: a frame
    counts as a candidate motion frame when all four rules pass.
    1. the motion level is at least the threshold times the multiplier of
       the sensitivity level;
    2. the pixel change is at least [minPixelChangePercent];
    3. there is no shadow, if shadow rejection is enabled;
    4. there is no lighting change, if lighting rejection is enabled. *)
Definition isCandidate (c : Config) (f : FrameData) : Prop :=
  (threshold c * sensitivityMultiplier (sensitivityLevel c) <= motionLevel f)%Q ∧
  (minPixelChangePercent c <= pixelChangePercent f)%Q ∧
  (ignoreShadows c = true → hasShadow f = false) ∧
  (ignoreLightingChanges c = true → hasLightingChange f = false).

#[global] Instance isCandidate_dec c f : Decision (isCandidate c f).
Proof. unfold isCandidate, Qle. apply _. Defined.


(** [onCameraMotionEvent(cameraId, eventData)]: the event of a known,
    enabled camera goes to [_processMotion] without validation; [lvl] is
    [eventData.motionLevel]. *)
Definition onCameraMotionEvent (cameraId : string) (lvl : Q) (now : Z) (d : t)
  : option (t * list MotionEvent) :=
  match cameras d !! cameraId with
  | None => Some (d, [])
  | Some cam =>
    if negb (cam_enabled cam) then Some (d, [])
    else _processMotion cameraId lvl now d
  end.

(** [simulateMotion(cameraId, level = 50)] *)
Definition simulateMotion (cameraId : string) (lvl : Q) (now : Z) (d : t)
  : option (t * list MotionEvent) :=
  processFrame cameraId (mkFrameData 10 lvl false false) now d.

(** [setEnabled(cameraId, enabled)] *)
Definition setEnabled (cameraId : string) (enabled : bool) (d : t) : t :=
  match cameras d !! cameraId with
  | Some cam =>
    mk (config d) (<[cameraId := mkCamera (cam_rtspUrl cam) enabled]> (cameras d))
       (motionState d)
  | None => d
  end.

(** [setSensitivity(level)] for one of the three levels of
    [sensitivityMap]. *)
Definition setSensitivity (l : Sensitivity) (d : t) : t :=
  mk (mkConfig (threshold (config d)) (minDurationMs (config d))
        (minPixelChangePercent (config d)) (ignoreShadows (config d))
        (ignoreLightingChanges (config d)) l)
     (cameras d) (motionState d).

(** What [getStatus(cameraId)] returns. *)
Record Status := mkStatus {
  st_enabled : bool;
  st_isMotionActive : bool;
  st_lastMotionLevel : Q;
  st_sensitivity : Sensitivity
}.

(** [getStatus(cameraId)]: [Some None] is [null]; the outer [None] is
    the exception of the property access on a missing state record. *)
Definition getStatus (cameraId : string) (d : t) : option (option Status) :=
  match cameras d !! cameraId with
  | None => Some None
  | Some cam =>
    match motionState d !! cameraId with
    | Some st =>
      Some (Some (mkStatus (cam_enabled cam) (isMotionActive st) (lastMotionLevel st)
                    (sensitivityLevel (config d))))
    | None => None
    end
  end.

(** The calls made on the detector. *)
Inductive Op :=
| OpAttach (cameraId : string) (url : option string)
| OpDetach (cameraId : string)
| OpSetEnabled (cameraId : string) (enabled : bool)
| OpSetSensitivity (l : Sensitivity)
| OpFrame (cameraId : string) (f : FrameData) (now : Z)
| OpCameraEvent (cameraId : string) (lvl : Q) (now : Z)
| OpSimulate (cameraId : string) (lvl : Q) (now : Z).

(** One call: the detector after it and the events emitted, or [None]
    when the call throws. *)
Definition step (o : Op) (d : t) : option (t * list MotionEvent) :=
  match o with
  | OpAttach c url => Some (attachCamera c url d, [])
  | OpDetach c => Some (detachCamera c d, [])
  | OpSetEnabled c b => Some (setEnabled c b d, [])
  | OpSetSensitivity l => Some (setSensitivity l d, [])
  | OpFrame c f now => processFrame c f now d
  | OpCameraEvent c lvl now => onCameraMotionEvent c lvl now d
  | OpSimulate c lvl now => simulateMotion c lvl now d
  end.

Fixpoint exec (ops : list Op) (d : t) : option (t * list (list MotionEvent)) :=
  match ops with
  | [] => Some (d, [])
  | o :: ops' =>
    match step o d with
    | Some (d', evs) =>
      match exec ops' d' with
      | Some (d'', evss) => Some (d'', evs :: evss)
      | None => None
      end
    | None => None
    end
  end.

(** The cameras and the state records go together: every camera has a
    state record and conversely; a record without an open episode has a
    frame counter of zero, and one with an open episode has a start
    time. *)
Definition consistent (d : t) : Prop :=
  (∀ c, is_Some (cameras d !! c) ↔ is_Some (motionState d !! c)) ∧
  (∀ c st, motionState d !! c = Some st →
     (isMotionActive st = false → consecutiveFrames st = 0%nat) ∧
     (isMotionActive st = true → is_Some (motionStartTime st))).

(** The [MOTION_END] events among the emitted ones. *)
Definition ended (evs : list MotionEvent) : list MotionEvent :=
  filter (λ e, type e = MOTION_END) evs.

(** Each confirmed event comes at least [gap] after the one before, the
    first one at least [gap] after [from]. *)
Fixpoint spaced (gap from : Z) (evs : list MotionEvent) : Prop :=
  match evs with
  | [] => True
  | e :: evs' => from + gap ≤ timestamp e ∧ spaced gap (timestamp e) evs'
  end.


End MotionDetector.

(** ** src/index.js: the wiring of the modules *)

Module Server.

Record t := mk {
  motionDetector : MotionDetector.t;
  alarmController : AlarmController.t;
  recordingController : RecordingController.t;
  storageManager : StorageManager.t;
  timers : Timer.timers;
  broadcasts : list (string * MotionDetector.MotionEvent)
}.

(** The calls made by the listener, as a trace of the state; it is the
    history of what the listener invoked, with the value each call
    returned. *)
Inductive Call :=
| CallTrigger (cameraId : string) (returned : bool)
| CallStartRecording (cameraId : string) (returned : bool).

(** The listener registered with [motionDetector.on('motion', ...)];
    [now] is the clock read by the two calls. *)
Definition onMotion (cameraId : string) (event : MotionDetector.MotionEvent)
    (now : Date) (s : t) : t * list Call :=
  let b := broadcasts s ++ [(cameraId, event)] in
  let '(triggered, a, tm1) :=
    AlarmController.trigger cameraId (getTime now) (alarmController s) (timers s) in
  let '(started, r, tm2) :=
    RecordingController.startRecording cameraId None now
      (StorageManager.getBasePath (storageManager s)) (recordingController s) tm1 in
  (mk (motionDetector s) a r (storageManager s) tm2 b,
   [CallTrigger cameraId triggered; CallStartRecording cameraId started]).

(** [emit('motion', cameraId, event)] runs the listener synchronously for
    each event. *)
Fixpoint dispatch (cameraId : string) (evs : list MotionDetector.MotionEvent)
    (now : Date) (s : t) : t * list Call :=
  match evs with
  | [] => (s, [])
  | e :: evs' =>
    let '(s1, c1) := onMotion cameraId e now s in
    let '(s2, c2) := dispatch cameraId evs' now s1 in
    (s2, c1 ++ c2)
  end.

(** A frame handed to the motion detector of the running server. *)
Definition processFrame (cameraId : string) (f : MotionDetector.FrameData)
    (now : Date) (s : t) : option (t * list MotionDetector.MotionEvent * list Call) :=
  match MotionDetector.processFrame cameraId f (getTime now) (motionDetector s) with
  | Some (d, evs) =>
    let s0 := mk d (alarmController s) (recordingController s) (storageManager s)
                 (timers s) (broadcasts s) in
    let '(s1, calls) := dispatch cameraId evs now s0 in
    Some (s1, evs, calls)
  | None => None
  end.

End Server.

(** ** modules/SecurityManager.js *)

Module SecurityManager.

Record Config := mkConfig {
  adminPin : string;
  pairingTokenExpiry : Z;       (* seconds *)
  readOnlyByDefault : bool;
  maxLoginAttempts : Z;
  lockoutDuration : Z           (* milliseconds *)
}.

(** An entry of [pairedDevices]; instants are in milliseconds. *)
Record Pairing := mkPairing {
  p_deviceId : string;
  p_expiresAt : Z;
  p_createdAt : Z;
  p_validated : bool;
  p_validatedAt : option Z
}.

(** An entry of [sessions]. *)
Record Session := mkSession {
  s_pairingToken : option string;
  s_isAdmin : bool;
  s_permissions : list string;
  s_createdAt : Z;
  s_expiresAt : Z;
  s_lastActivity : Z
}.

(** An entry of [loginAttempts]. *)
Record Attempts := mkAttempts {
  count : Z;
  lastAttempt : Z
}.

Record t := mk {
  config : Config;
  sessions : gmap string Session;
  pairedDevices : gmap string Pairing;
  loginAttempts : gmap string Attempts
}.

(** The options given to the constructor; an absent PIN is the empty
    string and an absent expiry is [0]. *)
Definition new (pin : string) (expiry : Z) (readOnly : bool) : t :=
  mk (mkConfig (if String.eqb pin "" then "1234" else pin)
               (if expiry =? 0 then 3600 else expiry)
               readOnly 5 300000)
     ∅ ∅ ∅.

Definition set_sessions (m : gmap string Session) (s : t) : t :=
  mk (config s) m (pairedDevices s) (loginAttempts s).

Definition set_pairedDevices (m : gmap string Pairing) (s : t) : t :=
  mk (config s) (sessions s) m (loginAttempts s).

Definition set_loginAttempts (m : gmap string Attempts) (s : t) : t :=
  mk (config s) (sessions s) (pairedDevices s) m.

(** [generatePairingToken(deviceId)]; [token] is the random token and
    [now] the current instant.  The token and its expiry are returned. *)
Definition generatePairingToken (deviceId token : string) (now : Z) (s : t)
  : (string * Z) * t :=
  let expiresAt := now + pairingTokenExpiry (config s) * 1000 in
  ((token, expiresAt),
   set_pairedDevices
     (<[token := mkPairing deviceId expiresAt now false None]> (pairedDevices s)) s).

(** [validatePairingToken(token)] *)
Definition validatePairingToken (token : string) (now : Z) (s : t) : bool * t :=
  match pairedDevices s !! token with
  | None => (false, s)
  | Some p =>
    if p_expiresAt p <? now
    then (false, set_pairedDevices (delete token (pairedDevices s)) s)
    else (true,
          set_pairedDevices
            (<[token := mkPairing (p_deviceId p) (p_expiresAt p) (p_createdAt p)
                          true (Some now)]> (pairedDevices s)) s)
  end.

(** [isDevicePaired(token)], as a truth value. *)
Definition isDevicePaired (token : string) (now : Z) (s : t) : bool :=
  match pairedDevices s !! token with
  | None => false
  | Some p => p_validated p && (now <? p_expiresAt p)
  end.

Definition day : Z := 24 * 60 * 60 * 1000.

Definition permissionsOf (isAdmin : bool) : list string :=
  if isAdmin then ["read"; "write"; "delete"; "admin"] else ["read"].

(** [createSession(pairingToken, isAdmin = false)]; [sessionId] is the
    random identifier. *)
Definition createSession (pairingToken : option string) (isAdmin : bool)
    (sessionId : string) (now : Z) (s : t) : Session * t :=
  let session := mkSession pairingToken isAdmin (permissionsOf isAdmin) now (now + day) now in
  (session, set_sessions (<[sessionId := session]> (sessions s)) s).

(** [validateSession(sessionId)]; [None] stands for [null]. *)
Definition validateSession (sessionId : string) (now : Z) (s : t) : option Session * t :=
  match sessions s !! sessionId with
  | None => (None, s)
  | Some x =>
    if s_expiresAt x <? now
    then (None, set_sessions (delete sessionId (sessions s)) s)
    else
      let x' := mkSession (s_pairingToken x) (s_isAdmin x) (s_permissions x)
                  (s_createdAt x) (s_expiresAt x) now in
      (Some x', set_sessions (<[sessionId := x']> (sessions s)) s)
  end.

(** [authenticateAdmin(pin, clientIp)] *)
Definition authenticateAdmin (pin clientIp : string) (now : Z) (s : t) : bool * t :=
  let go (s1 : t) : bool * t :=
    if String.eqb pin (adminPin (config s1))
    then (true, set_loginAttempts (delete clientIp (loginAttempts s1)) s1)
    else
      let c := match loginAttempts s1 !! clientIp with
               | Some a => count a
               | None => 0
               end in
      (false,
       set_loginAttempts (<[clientIp := mkAttempts (c + 1) now]> (loginAttempts s1)) s1) in
  match loginAttempts s !! clientIp with
  | Some a =>
    if maxLoginAttempts (config s) <=? count a then
      if now <? lastAttempt a + lockoutDuration (config s)
      then (false, s)
      else go (set_loginAttempts (delete clientIp (loginAttempts s)) s)
    else go s
  | None => go s
  end.

(** [hasPermission(sessionId, permission)] *)
Definition hasPermission (sessionId permission : string) (now : Z) (s : t) : bool * t :=
  match validateSession sessionId now s with
  | (None, s') => (false, s')
  | (Some x, s') => (bool_decide (permission ∈ s_permissions x), s')
  end.

(** [revokeSession(sessionId)] *)
Definition revokeSession (sessionId : string) (s : t) : t :=
  set_sessions (delete sessionId (sessions s)) s.

(** [revokeAllSessions()] *)
Definition revokeAllSessions (s : t) : t := set_sessions ∅ s.

(** [updateAdminPin(currentPin, newPin)] *)
Definition updateAdminPin (currentPin newPin : string) (s : t) : bool * t :=
  if negb (String.eqb currentPin (adminPin (config s))) then (false, s)
  else if (String.length newPin <? 4)%nat || (8 <? String.length newPin)%nat
  then (false, s)
  else
    (true,
     revokeAllSessions
       (mk (mkConfig newPin (pairingTokenExpiry (config s)) (readOnlyByDefault (config s))
              (maxLoginAttempts (config s)) (lockoutDuration (config s)))
           (sessions s) (pairedDevices s) (loginAttempts s))).

(** [revokeDevice(token)] *)
Definition revokeDevice (token : string) (s : t) : t :=
  mk (config s)
     (filter (λ kv, s_pairingToken kv.2 ≠ Some token) (sessions s))
     (delete token (pairedDevices s))
     (loginAttempts s).

(** A run of login attempts from one address: the PIN tried and the
    instant of each; the answers are collected, first attempt first. *)
Fixpoint attempts (clientIp : string) (tries : list (string * Z)) (s : t)
  : list bool * t :=
  match tries with
  | [] => ([], s)
  | (pin, now) :: rest =>
    let '(b, s1) := authenticateAdmin pin clientIp now s in
    let '(bs, s2) := attempts clientIp rest s1 in
    (b :: bs, s2)
  end.

(** No address has more failures on record than the limit, and every
    record has at least one. *)
Definition bounded (s : t) : Prop :=
  ∀ ip a, loginAttempts s !! ip = Some a → 1 ≤ count a ≤ maxLoginAttempts (config s).

(** The lockout test of [authenticateAdmin]. *)
Definition lockedOut (clientIp : string) (now : Z) (s : t) : bool :=
  match loginAttempts s !! clientIp with
  | Some a =>
    (maxLoginAttempts (config s) <=? count a) &&
    (now <? lastAttempt a + lockoutDuration (config s))
  | None => false
  end.

(** The number of attempts of a run whose PIN was compared with the
    admin PIN, that is, which were not refused by the lockout. *)
Fixpoint compared (clientIp : string) (tries : list (string * Z)) (s : t) : nat :=
  match tries with
  | [] => 0
  | (pin, now) :: rest =>
    ((if lockedOut clientIp now s then 0 else 1) +
     compared clientIp rest (authenticateAdmin pin clientIp now s).2)%nat
  end.


End SecurityManager.


(** * Properties *)

(** ** The timer table *)

Module TimerFacts.
Import Timer.

Lemma stop_lookup_eq id tm : (stop id tm).2 !! id = None.
Proof.
  unfold stop. destruct (tm !! id) eqn:E; simpl; [apply lookup_delete_eq | done].
Qed.

Lemma stop_lookup_ne id id' tm : id ≠ id' → (stop id tm).2 !! id' = tm !! id'.
Proof.
  intros Hne. unfold stop. destruct (tm !! id) eqn:E; simpl; [|done].
  by apply lookup_delete_ne.
Qed.

Lemma stop_eq_delete id tm : (stop id tm).2 = delete id tm.
Proof.
  unfold stop. destruct (tm !! id) eqn:E; simpl; [done|].
  symmetry. by apply delete_id.
Qed.

Lemma start_lookup_eq id d cb tm : start id d cb tm !! id = Some (mkTimer d cb).
Proof. unfold start. apply lookup_insert_eq. Qed.

Lemma start_lookup_ne id id' d cb tm :
  id ≠ id' → start id d cb tm !! id' = tm !! id'.
Proof.
  intros Hne. unfold start. rewrite lookup_insert_ne by done.
  by apply stop_lookup_ne.
Qed.

Lemma start_lookup_Some k d cb tm id t :
  start k d cb tm !! id = Some t →
  (id = k ∧ t = mkTimer d cb) ∨ (id ≠ k ∧ tm !! id = Some t).
Proof.
  destruct (decide (k = id)) as [->|Hne].
  - rewrite start_lookup_eq. intros [= <-]. by left.
  - rewrite start_lookup_ne by done. intros H. right. by split.
Qed.

Lemma stop_lookup_Some k tm id t :
  (stop k tm).2 !! id = Some t → id ≠ k ∧ tm !! id = Some t.
Proof.
  destruct (decide (k = id)) as [->|Hne].
  - by rewrite stop_lookup_eq.
  - rewrite stop_lookup_ne by done. intros H. by split.
Qed.

Lemma expire_lookup id tm cb tm' :
  expire id tm = Some (cb, tm') →
  ∃ t, tm !! id = Some t ∧ callback t = cb ∧ tm' = delete id tm.
Proof.
  unfold expire. destruct (tm !! id) as [t|] eqn:E; [|done].
  intros [= <- <-]. by exists t.
Qed.

End TimerFacts.

(** ** The alarm sequencer *)

Module AlarmFacts.
Import AlarmController.

Lemma anyActive_spec (m : gmap string CameraAlarm) :
  anyActive m = true ↔ ∃ c ca, m !! c = Some ca ∧ isActive ca = true.
Proof.
  unfold anyActive. rewrite existsb_exists. split.
  - intros [[c ca] [Hin Hact]]. exists c, ca. split; [|done].
    apply elem_of_map_to_list. by apply list_elem_of_In.
  - intros (c & ca & Hl & Hact). exists (c, ca). split; [|done].
    apply list_elem_of_In. by apply elem_of_map_to_list.
Qed.

Lemma trigger_rejects c now a tm :
  blocked c a → trigger c now a tm = (false, a, tm).
Proof.
  intros [H | [H | (ca & Hl & Hact)]]; unfold trigger.
  - by rewrite decide_True.
  - destruct (decide (state a = DISARMED)); [done|]. by rewrite decide_True.
  - destruct (decide (state a = DISARMED)); [done|].
    destruct (decide (state a = COOLDOWN)); [done|].
    rewrite Hl. destruct ca as [[] ?]; simpl in *; done.
Qed.

Lemma trigger_accepts c now a tm :
  ¬ blocked c a →
  trigger c now a tm =
    (true,
     emit (alarmTriggered c)
       (_activateHardwareAlarm
          (set_cameraAlarms (<[c := mkCameraAlarm true now]> (cameraAlarms a))
             (set_state TRIGGERED a))),
     Timer.start (alarmKey c) (durationSeconds (config a) * 1000)
                 (Timer.CbAlarmTimeout c) tm).
Proof.
  intros Hnb. unfold trigger.
  destruct (decide (state a = DISARMED)) as [H|_]; [destruct Hnb; by left|].
  destruct (decide (state a = COOLDOWN)) as [H|_];
    [destruct Hnb; right; by left|].
  destruct (cameraAlarms a !! c) as [[[] ts]|] eqn:E; try done.
  destruct Hnb. right; right. by exists (mkCameraAlarm true ts).
Qed.

(** C8: [trigger(cameraId)] is a no-op returning [false] when the mode is
    [DISARMED] or [COOLDOWN] or the camera's entry is already active (the
    controller, with its per-camera entries, hardware calls and events,
    and the timer table are returned unchanged); otherwise it returns
    [true], the mode becomes [TRIGGERED], the camera's entry is active
    with the current timestamp, the entries of the other cameras are
    kept, the hardware is activated and the per-camera timer is pending
    with the configured duration. *)
Theorem C8_trigger_guard (c : string) (now : Z) (a : t) (tm : Timer.timers) :
  (blocked c a → trigger c now a tm = (false, a, tm)) ∧
  (¬ blocked c a →
     ∃ a' tm', trigger c now a tm = (true, a', tm') ∧
       state a' = TRIGGERED ∧
       cameraAlarms a' !! c = Some (mkCameraAlarm true now) ∧
       (∀ c', c' ≠ c → cameraAlarms a' !! c' = cameraAlarms a !! c') ∧
       hwCalls a' = hwCalls a ++
         (if hardwareInterface a then [HwActivate (volumeLevel (config a))] else []) ∧
       emitted a' = emitted a ++ [alarmTriggered c] ∧
       tm' !! alarmKey c =
         Some (Timer.mkTimer (durationSeconds (config a) * 1000) (Timer.CbAlarmTimeout c)) ∧
       (∀ k, k ≠ alarmKey c → tm' !! k = tm !! k)).
Proof.
  split; [apply trigger_rejects|].
  intros Hnb. eexists _, _. split; [by apply trigger_accepts|].
  assert (Hhw : hwCalls (_activateHardwareAlarm
            (set_cameraAlarms (<[c := mkCameraAlarm true now]> (cameraAlarms a))
               (set_state TRIGGERED a))) = hwCalls a ++
            (if hardwareInterface a then [HwActivate (volumeLevel (config a))] else [])).
  { unfold _activateHardwareAlarm. simpl.
    destruct (hardwareInterface a); simpl; [done | by rewrite app_nil_r]. }
  unfold _activateHardwareAlarm in *. simpl in *.
  destruct (hardwareInterface a); simpl in *.
  all: split_and!; try done.
  all: try apply lookup_insert_eq.
  all: try (intros c' Hc'; by apply lookup_insert_ne).
  all: try apply TimerFacts.start_lookup_eq.
  all: intros k Hk; by apply TimerFacts.start_lookup_ne.
Qed.

(** A disarmed controller rejects, a fresh armed one accepts. *)
Lemma C8_trigger_guard_witness :
  trigger "CAM1" 5 (set_state DISARMED (new (mkConfig 10 true 100))) ∅
    = (false, set_state DISARMED (new (mkConfig 10 true 100)), ∅) ∧
  ∃ a' tm', trigger "CAM1" 5 (new (mkConfig 10 true 100)) ∅ = (true, a', tm') ∧
    state a' = TRIGGERED.
Proof.
  split.
  - apply (proj1 (C8_trigger_guard "CAM1" 5 (set_state DISARMED (new (mkConfig 10 true 100))) ∅)).
    left. reflexivity.
  - destruct (proj2 (C8_trigger_guard "CAM1" 5 (new (mkConfig 10 true 100)) ∅))
      as (a' & tm' & Heq & Hst & _).
    + intros [H | [H | (ca & Hl & _)]]; [discriminate H | discriminate H |].
      simpl in Hl. rewrite lookup_empty in Hl. discriminate Hl.
    + exists a', tm'. split; assumption.
Defined.

Lemma trigger_keeps c now a tm :
  triggered_has_active a → triggered_has_active (trigger c now a tm).1.2.
Proof.
  intros Hinv. unfold trigger.
  destruct (decide (state a = DISARMED)); [done|].
  destruct (decide (state a = COOLDOWN)); [done|].
  assert (Hgo : triggered_has_active
            (emit (alarmTriggered c)
               (_activateHardwareAlarm
                  (set_cameraAlarms (<[c := mkCameraAlarm true now]> (cameraAlarms a))
                     (set_state TRIGGERED a))))).
  { intros _. exists c, (mkCameraAlarm true now). split; [|done].
    unfold _activateHardwareAlarm. simpl.
    destruct (hardwareInterface a); simpl; apply lookup_insert_eq. }
  destruct (cameraAlarms a !! c) as [[[] ts]|]; simpl; done.
Qed.

Lemma onAlarmTimeout_keeps c a tm :
  triggered_has_active (_onAlarmTimeout c a tm).1.
Proof.
  unfold _onAlarmTimeout. simpl.
  destruct (anyActive (alter deactivate c (cameraAlarms a))) eqn:Hany; simpl.
  - intros _. by apply anyActive_spec in Hany.
  - unfold _deactivateHardwareAlarm. simpl.
    destruct (hardwareInterface a); simpl; intros H; discriminate H.
Qed.

Lemma stop_state c a tm : state (stop c a tm).1 = ARMED.
Proof.
  unfold stop, stopOne, stopEvery.
  destruct c as [c|]; [destruct (jsTruthy (Some c))|]; simpl;
    unfold _deactivateHardwareAlarm; simpl;
    destruct (hardwareInterface a); reflexivity.
Qed.

Lemma disarm_state a tm : state (disarm a tm).1 = DISARMED.
Proof.
  unfold disarm. destruct (stop None a tm) as [a1 tm1] eqn:E. reflexivity.
Qed.

Lemma fire_keeps id a tm :
  triggered_has_active a → triggered_has_active (fire id a tm).1.
Proof.
  intros Hinv. unfold fire.
  destruct (Timer.expire id tm) as [[[] tm']|]; simpl; try done.
  apply onAlarmTimeout_keeps.
Qed.

Lemma step_keeps o s :
  triggered_has_active s.1 → triggered_has_active (step o s).1.
Proof.
  intros Hinv. destruct o as [c now|id|c| |]; unfold step.
  - pose proof (trigger_keeps c now s.1 s.2 Hinv) as H.
    by destruct (trigger c now s.1 s.2) as [[b a'] tm'].
  - by apply fire_keeps.
  - intros H. by rewrite stop_state in H.
  - intros H. discriminate H.
  - intros H. by rewrite disarm_state in H.
Qed.

Lemma exec_keeps ops s :
  triggered_has_active s.1 → triggered_has_active (exec ops s).1.
Proof.
  revert s. induction ops as [|o ops IH]; intros s Hinv; [done|].
  simpl. apply IH. by apply step_keeps.
Qed.

(** C3, as stated, fails: after [trigger("A")], [trigger("B")] and
    [stop("A")] the mode is [ARMED] while the entry of B is still active. *)
Lemma C3_stop_one_leaves_active :
  let a := (exec [OpTrigger "A" 0; OpTrigger "B" 1; OpStop (Some "A")]
                 (new (mkConfig 10 true 100), ∅)).1 in
  state a = ARMED ∧
  cameraAlarms a !! "B" = Some (mkCameraAlarm true 1) ∧
  ¬ (state a = TRIGGERED ↔ someActive a).
Proof.
  simpl. split; [reflexivity|]. split; [reflexivity|].
  intros [_ H].
  assert (Hact : someActive
            (exec [OpTrigger "A" 0; OpTrigger "B" 1; OpStop (Some "A")]
                  (new (mkConfig 10 true 100), ∅)).1).
  { exists "B", (mkCameraAlarm true 1). split; reflexivity. }
  specialize (H Hact). vm_compute in H. discriminate H.
Qed.

(** C3, amended: in every state reachable from the initial armed state by
    trigger, timer expiry, stop, arm and disarm operations, the mode is
    [TRIGGERED] only if at least one per-camera entry is active. *)
Theorem C3_triggered_implies_active (cfg : Config) (ops : list Op) :
  let a := (exec ops (new cfg, ∅)).1 in
  state a = TRIGGERED → someActive a.
Proof.
  simpl. apply (exec_keeps ops (new cfg, ∅)). intros H. discriminate H.
Qed.

Lemma C3_triggered_implies_active_witness :
  someActive (exec [OpTrigger "A" 0] (new (mkConfig 10 true 100), ∅)).1.
Proof.
  apply (C3_triggered_implies_active (mkConfig 10 true 100) [OpTrigger "A" 0]).
  reflexivity.
Defined.


End AlarmFacts.

(** ** The recording lifecycle controller *)

Module RecordingFacts.
Import RecordingController.

Lemma getCameraState_present c r cs :
  cameraStates r !! c = Some cs → getCameraState c r = (cs, r).
Proof. intros H. unfold getCameraState. by rewrite H. Qed.

Lemma getCameraState_lookup c r :
  cameraStates (getCameraState c r).2 !! c = Some (getCameraState c r).1.
Proof.
  unfold getCameraState. destruct (cameraStates r !! c) eqn:E; simpl; [done|].
  apply lookup_insert_eq.
Qed.

Lemma getCameraState_idem c r :
  getCameraState c (getCameraState c r).2 = getCameraState c r.
Proof.
  rewrite (getCameraState_present c _ _ (getCameraState_lookup c r)).
  by destruct (getCameraState c r).
Qed.

Lemma phase_lookup c r :
  phase c r = match cameraStates r !! c with Some cs => state cs | None => IDLE end.
Proof.
  unfold phase, getCameraState. by destruct (cameraStates r !! c).
Qed.

Lemma phase_getCameraState c c' r : phase c' (getCameraState c r).2 = phase c' r.
Proof.
  rewrite !phase_lookup. unfold getCameraState.
  destruct (cameraStates r !! c) eqn:E; simpl; [done|].
  destruct (decide (c = c')) as [<-|Hne].
  - by rewrite lookup_insert_eq, E.
  - by rewrite lookup_insert_ne.
Qed.

Lemma phase_not_idle_present c r :
  phase c r ≠ IDLE → ∃ cs, cameraStates r !! c = Some cs ∧ state cs = phase c r.
Proof.
  rewrite phase_lookup.
  destruct (cameraStates r !! c) as [cs|] eqn:E; simpl; [|done].
  intros _. by exists cs.
Qed.

Lemma phase_put c c' cs r :
  phase c' (putCameraState c cs r) = if decide (c' = c) then state cs else phase c' r.
Proof.
  rewrite !phase_lookup. unfold putCameraState. simpl.
  destruct (decide (c' = c)) as [->|Hne].
  - by rewrite lookup_insert_eq.
  - by rewrite lookup_insert_ne.
Qed.

Lemma phase_emit c e r : phase c (emit e r) = phase c r.
Proof. by rewrite !phase_lookup. Qed.

Lemma phase_set_activeProcesses c m r : phase c (set_activeProcesses m r) = phase c r.
Proof. by rewrite !phase_lookup. Qed.

Lemma phase_set_pendingSaves c l r : phase c (set_pendingSaves l r) = phase c r.
Proof. by rewrite !phase_lookup. Qed.

Lemma phase_startFFmpeg c c' url out r :
  phase c' (_startFFmpegRecording c url out r) = phase c' r.
Proof.
  rewrite !phase_lookup. unfold _startFFmpegRecording.
  destruct url; [destruct (jsTruthy _)|]; done.
Qed.

(** The two keys of a camera differ, and neither is a key of the other
    purpose for any camera. *)
Lemma recordingKey_ne_resetKey c c' : recordingKey c ≠ resetKey c'.
Proof. unfold recordingKey, resetKey. simpl. intros H. discriminate H. Qed.

Lemma resetKey_inj c c' : resetKey c = resetKey c' → c = c'.
Proof. unfold resetKey. simpl. intros H. by injection H. Qed.

(** *** [startRecording] *)

Lemma startRecording_blocked c url now base r tm :
  phase c r ≠ IDLE → startRecording c url now base r tm = (false, r, tm).
Proof.
  intros Hph. destruct (phase_not_idle_present c r Hph) as (cs & Hl & Hst).
  unfold startRecording. rewrite (getCameraState_present _ _ _ Hl).
  rewrite decide_True; [done | congruence].
Qed.

Lemma startRecording_idle c url now base r tm :
  phase c r = IDLE →
  ∃ r' tm', startRecording c url now base r tm = (true, r', tm') ∧
    phase c r' = RECORDING ∧
    (∀ c', c' ≠ c → phase c' r' = phase c' r) ∧
    cameraStates r' !! c =
      Some (mkCameraState RECORDING (Some (generateVideoFilename c now)) (Some now)
              (jsOr url (rtspUrl (getCameraState c r).1))) ∧
    tm' = Timer.start (recordingKey c) (recordingDurationMs r) (Timer.CbRecordingEnd c) tm ∧
    emitted r' = emitted r ++ [recordingStarted c (generateVideoFilename c now)].
Proof.
  intros Hph. unfold startRecording.
  pose proof (λ c', phase_getCameraState c c' r) as Hphs.
  pose proof (getCameraState_lookup c r) as Hl.
  unfold phase in Hph.
  destruct (getCameraState c r) as [cs r0] eqn:E. simpl in *.
  rewrite decide_False by (intros H; by apply H).
  eexists _, _. split; [reflexivity|].
  split_and!.
  - rewrite phase_emit, phase_startFFmpeg, phase_put. by rewrite decide_True.
  - intros c' Hne. rewrite phase_emit, phase_startFFmpeg, phase_put.
    rewrite decide_False by done. apply Hphs.
  - unfold _startFFmpegRecording. simpl.
    destruct (jsOr url (rtspUrl cs)) as [u|]; [destruct (jsTruthy (Some u))|];
      simpl; apply lookup_insert_eq.
  - done.
  - unfold _startFFmpegRecording. simpl.
    assert (Hem : emitted r0 = emitted r).
    { unfold getCameraState in E. destruct (cameraStates r !! c); by inversion E. }
    destruct (jsOr url (rtspUrl cs)) as [u|]; [destruct (jsTruthy (Some u))|];
      simpl; by rewrite Hem.
Qed.

(** C1: [startRecording(cameraId)] returns [true] and moves the camera to
    [RECORDING] when its phase is [IDLE]; it returns [false] and leaves
    the controller (phases, files, start times, processes) and the timer
    table unchanged when the phase is not [IDLE]; so of two calls in
    immediate succession from [IDLE] the first returns [true] and the
    second [false]. *)
Theorem C1_start_guard (c : string) (url url2 : option string) (now now2 : Date)
    (base : string) (r : t) (tm : Timer.timers) :
  (phase c r = IDLE →
     ∃ r' tm', startRecording c url now base r tm = (true, r', tm') ∧
       phase c r' = RECORDING ∧
       startRecording c url2 now2 base r' tm' = (false, r', tm')) ∧
  (phase c r ≠ IDLE → startRecording c url now base r tm = (false, r, tm)).
Proof.
  split; [|apply startRecording_blocked].
  intros Hph.
  destruct (startRecording_idle c url now base r tm Hph) as (r' & tm' & Heq & Hrec & _).
  exists r', tm'. split_and!; [done..|].
  apply startRecording_blocked. by rewrite Hrec.
Qed.

Lemma C1_start_guard_witness :
  (∃ r' tm',
     startRecording "CAM1" None (mkDate 0 2026 0 4 14 32 10 0) "/rec"
       (new (mkConfig 60 3)) ∅ = (true, r', tm') ∧
     phase "CAM1" r' = RECORDING ∧
     startRecording "CAM1" None (mkDate 1 2026 0 4 14 32 10 1) "/rec" r' tm'
       = (false, r', tm')) ∧
  startRecording "CAM1" None (mkDate 1 2026 0 4 14 32 10 1) "/rec"
    (putCameraState "CAM1" (mkCameraState SAVING None None None) (new (mkConfig 60 3))) ∅
  = (false, putCameraState "CAM1" (mkCameraState SAVING None None None) (new (mkConfig 60 3)), ∅).
Proof.
  split.
  - apply (proj1 (C1_start_guard "CAM1" None None (mkDate 0 2026 0 4 14 32 10 0)
                    (mkDate 1 2026 0 4 14 32 10 1) "/rec" (new (mkConfig 60 3)) ∅)).
    reflexivity.
  - apply (proj2 (C1_start_guard "CAM1" None None (mkDate 1 2026 0 4 14 32 10 1)
                    (mkDate 1 2026 0 4 14 32 10 1) "/rec"
                    (putCameraState "CAM1" (mkCameraState SAVING None None None)
                       (new (mkConfig 60 3))) ∅)).
    vm_compute. intros H. discriminate H.
Defined.

(** *** Capture-process errors *)

Lemma handleRecordingError_present c r tm cs :
  cameraStates r !! c = Some cs →
  _handleRecordingError c r tm =
    (emit (recordingError c)
       (putCameraState c (mkCameraState RESET (currentFile cs) (startTime cs) (rtspUrl cs))
          (set_activeProcesses (delete c (activeProcesses r)) r)),
     Timer.start (resetKey c) (resetDelayMs r) (Timer.CbReset c)
       (Timer.stop (recordingKey c) tm).2).
Proof.
  intros Hl. unfold _handleRecordingError, _onReset.
  rewrite (getCameraState_present _ _ _ Hl).
  erewrite getCameraState_present; [done|].
  unfold putCameraState. simpl. apply lookup_insert_eq.
Qed.

Lemma onResetEnd_present c r cs :
  cameraStates r !! c = Some cs →
  onResetEnd c r =
    emit (recordingReady c) (putCameraState c (mkCameraState IDLE None None (rtspUrl cs)) r).
Proof.
  intros Hl. unfold onResetEnd. by rewrite (getCameraState_present _ _ _ Hl).
Qed.

(** C7: when the capture process of a camera in phase [RECORDING] reports
    an error, the duration timer of the camera is cancelled, its process
    entry is cleared, [recordingError] is emitted, the phase is [RESET]
    with the reset timer pending for the reset delay, and the storage
    manager and the suspended saves are untouched; when the reset timer
    then expires the phase is [IDLE], [recordingReady] is emitted and the
    recording index is still the one before the error. *)
Theorem C7_capture_error_resets (c : string) (w : World) :
  phase c (rc w) = RECORDING →
  ∃ w1, step (OpError c) w = Some w1 ∧
    tm w1 !! recordingKey c = None ∧
    activeProcesses (rc w1) !! c = None ∧
    emitted (rc w1) = emitted (rc w) ++ [recordingError c] ∧
    phase c (rc w1) = RESET ∧
    tm w1 !! resetKey c = Some (Timer.mkTimer (resetDelayMs (rc w)) (Timer.CbReset c)) ∧
    sm w1 = sm w ∧
    pendingSaves (rc w1) = pendingSaves (rc w) ∧
    ∃ w2, step (OpTimer (resetKey c)) w1 = Some w2 ∧
      phase c (rc w2) = IDLE ∧
      emitted (rc w2) = emitted (rc w) ++ [recordingError c; recordingReady c] ∧
      sm w2 = sm w ∧
      pendingSaves (rc w2) = pendingSaves (rc w).
Proof.
  intros Hph.
  destruct (phase_not_idle_present c (rc w)) as (cs & Hl & _); [by rewrite Hph|].
  unfold step. rewrite (handleRecordingError_present _ _ _ _ Hl).
  eexists. split; [reflexivity|]. simpl.
  assert (Hreset : Timer.start (resetKey c) (resetDelayMs (rc w)) (Timer.CbReset c)
                     (Timer.stop (recordingKey c) (tm w)).2 !! resetKey c
                   = Some (Timer.mkTimer (resetDelayMs (rc w)) (Timer.CbReset c)))
    by apply TimerFacts.start_lookup_eq.
  split_and!; try done.
  - rewrite TimerFacts.start_lookup_ne by (intros H; by apply (recordingKey_ne_resetKey c c)).
    apply TimerFacts.stop_lookup_eq.
  - apply lookup_delete_eq.
  - rewrite phase_emit, phase_put. by rewrite decide_True.
  - eexists. split; [reflexivity|].
    unfold fire, Timer.expire. simpl. rewrite Hreset. simpl.
    erewrite onResetEnd_present by (simpl; apply lookup_insert_eq). simpl.
    split_and!; try done.
    + rewrite phase_emit, phase_put. by rewrite decide_True.
    + by rewrite <- app_assoc.
Qed.

Lemma C7_capture_error_resets_witness :
  let w := mkWorld (putCameraState "CAM1"
                      (mkCameraState RECORDING (Some "f.mp4")
                         (Some (mkDate 0 2026 0 4 14 32 10 0)) None)
                      (new (mkConfig 60 3)))
                   ∅ (StorageManager.new (StorageManager.mkConfig "/rec" 90 true)
                        (StorageManager.mkFS ∅ None false)) in
  ∃ w1, step (OpError "CAM1") w = Some w1 ∧ phase "CAM1" (rc w1) = RESET ∧
    ∃ w2, step (OpTimer (resetKey "CAM1")) w1 = Some w2 ∧
      phase "CAM1" (rc w2) = IDLE ∧ sm w2 = sm w.
Proof.
  intros w.
  destruct (C7_capture_error_resets "CAM1" w) as
    (w1 & H1 & _ & _ & _ & Hp1 & _ & _ & _ & w2 & H2 & Hp2 & _ & Hsm & _).
  - reflexivity.
  - exists w1. split; [exact H1|]. split; [exact Hp1|].
    exists w2. split; [exact H2|]. split; [exact Hp2 | exact Hsm].
Defined.

(** *** Filenames *)

(** The filename depends on the camera id and on the local date and time
    down to the second only. *)
Lemma generateVideoFilename_second_resolution c d1 d2 :
  getFullYear d1 = getFullYear d2 → getMonth d1 = getMonth d2 →
  getDate d1 = getDate d2 → getHours d1 = getHours d2 →
  getMinutes d1 = getMinutes d2 → getSeconds d1 = getSeconds d2 →
  generateVideoFilename c d1 = generateVideoFilename c d2.
Proof.
  intros Hy Hm Hd Hh Hmi Hs. unfold generateVideoFilename.
  by rewrite Hy, Hm, Hd, Hh, Hmi, Hs.
Qed.

(** C9 fails on the code: a camera started, force-stopped and started
    again half a second later, within the same calendar second, gets the
    same output file for both cycles. *)
Theorem C9_same_second_same_file :
  let t1 := mkDate 1767537130100 2026 0 4 14 32 10 100 in
  let t2 := mkDate 1767537130600 2026 0 4 14 32 10 600 in
  ∃ r1 tm1 r2 tm2 r3 tm3,
    startRecording "CAM01" None t1 "/rec" (new (mkConfig 60 3)) ∅ = (true, r1, tm1) ∧
    forceStop "CAM01" r1 tm1 = (r2, tm2) ∧
    startRecording "CAM01" None t2 "/rec" r2 tm2 = (true, r3, tm3) ∧
    getTime t1 ≠ getTime t2 ∧
    currentFile <$> cameraStates r1 !! "CAM01" = Some (Some "CAM01_2026-01-04_14-32-10.mp4") ∧
    currentFile <$> cameraStates r3 !! "CAM01" = Some (Some "CAM01_2026-01-04_14-32-10.mp4").
Proof.
  simpl. eexists _, _, _, _, _, _.
  split; [vm_compute; reflexivity|].
  split; [vm_compute; reflexivity|].
  split; [vm_compute; reflexivity|].
  split; [intros H; discriminate H|].
  split; vm_compute; reflexivity.
Qed.


(** *** The phase changes of each operation *)

Lemma set_cameraStates_id r : set_cameraStates (cameraStates r) r = r.
Proof. by destruct r. Qed.

Lemma getCameraState_eq c r :
  getCameraState c r =
    (default idleState (cameraStates r !! c),
     set_cameraStates (<[c := default idleState (cameraStates r !! c)]> (cameraStates r)) r).
Proof.
  unfold getCameraState. destruct (cameraStates r !! c) as [cs|] eqn:E; simpl; [|done].
  by rewrite (insert_id _ _ _ E), set_cameraStates_id.
Qed.

Lemma state_default c r : state (default idleState (cameraStates r !! c)) = phase c r.
Proof. rewrite phase_lookup. by destruct (cameraStates r !! c). Qed.

(** Each operation on camera [c0] rewrites the record of [c0] and keeps
    the records of the other cameras. *)
Lemma startRecording_states c0 url now base r tm b r' tm' :
  startRecording c0 url now base r tm = (b, r', tm') →
  (phase c0 r ≠ IDLE ∧ r' = r ∧ tm' = tm) ∨
  (phase c0 r = IDLE ∧
   (∃ cs', cameraStates r' = <[c0 := cs']> (cameraStates r) ∧
           state cs' = RECORDING ∧ is_Some (startTime cs')) ∧
   tm' = Timer.start (recordingKey c0) (recordingDurationMs r) (Timer.CbRecordingEnd c0) tm).
Proof.
  intros H. destruct (decide (phase c0 r = IDLE)) as [Hidle|Hn].
  - right. split; [done|].
    unfold startRecording in H. rewrite getCameraState_eq in H.
    rewrite decide_False in H by (rewrite state_default; intros Hx; by apply Hx).
    injection H as _ <- <-. split; [|done].
    exists (mkCameraState RECORDING (Some (generateVideoFilename c0 now)) (Some now)
              (jsOr url (rtspUrl (default idleState (cameraStates r !! c0))))).
    split_and!; [|reflexivity|by eexists].
    unfold _startFFmpegRecording. simpl.
    destruct (jsOr url _) as [u|]; [destruct (jsTruthy (Some u))|]; simpl;
      by rewrite insert_insert_eq.
  - left. rewrite (startRecording_blocked _ _ _ _ _ _ Hn) in H.
    by injection H as _ <- <-.
Qed.

Lemma enterReset_states c0 r tm :
  ∃ cs', cameraStates (enterReset c0 r tm).1 = <[c0 := cs']> (cameraStates r) ∧
         state cs' = RESET ∧
         (enterReset c0 r tm).2 =
           Timer.start (resetKey c0) (resetDelayMs r) (Timer.CbReset c0) tm.
Proof.
  unfold enterReset, _onReset. rewrite !getCameraState_eq. simpl.
  eexists. split.
  - rewrite lookup_insert_eq. simpl. by rewrite !insert_insert_eq.
  - split; reflexivity.
Qed.

Lemma onTimerEnd_states c0 r tm :
  (phase c0 r ≠ RECORDING ∧
   cameraStates (_onTimerEnd c0 r tm).1 =
     <[c0 := default idleState (cameraStates r !! c0)]> (cameraStates r) ∧
   (_onTimerEnd c0 r tm).2 = tm) ∨
  (phase c0 r = RECORDING ∧
   ((is_Some (startTime (default idleState (cameraStates r !! c0))) ∧
     (∃ cs', cameraStates (_onTimerEnd c0 r tm).1 = <[c0 := cs']> (cameraStates r) ∧
             state cs' = SAVING) ∧
     (_onTimerEnd c0 r tm).2 = tm) ∨
    (startTime (default idleState (cameraStates r !! c0)) = None ∧
     (∃ cs', cameraStates (_onTimerEnd c0 r tm).1 = <[c0 := cs']> (cameraStates r) ∧
             state cs' = RESET) ∧
     (_onTimerEnd c0 r tm).2 =
       Timer.start (resetKey c0) (resetDelayMs r) (Timer.CbReset c0) tm))).
Proof.
  unfold _onTimerEnd. rewrite getCameraState_eq. rewrite state_default.
  destruct (decide (phase c0 r ≠ RECORDING)) as [Hn|Hrec]; simpl.
  - left. by split_and!.
  - right. split; [by destruct (decide (phase c0 r = RECORDING))|].
    unfold _saveRecording. rewrite getCameraState_eq. simpl.
    rewrite lookup_insert_eq. simpl.
    destruct (startTime (default idleState (cameraStates r !! c0))) as [d|] eqn:Hst; simpl.
    + left. split; [by eexists|]. split; [|done].
      eexists. split; [simpl; by rewrite !insert_insert_eq | reflexivity].
    + right. split; [done|].
      match goal with |- context [enterReset c0 ?r1 tm] =>
        destruct (enterReset_states c0 r1 tm) as (cs' & Hcs & Hst' & Htm) end.
      split; [|exact Htm].
      exists cs'. split; [|done]. rewrite Hcs. simpl. by rewrite !insert_insert_eq.
Qed.

Lemma onResetEnd_states c0 r :
  ∃ cs', cameraStates (onResetEnd c0 r) = <[c0 := cs']> (cameraStates r) ∧ state cs' = IDLE.
Proof.
  unfold onResetEnd. rewrite getCameraState_eq. simpl.
  eexists. split; [simpl; by rewrite insert_insert_eq | reflexivity].
Qed.

Lemma handleRecordingError_states c0 r tm :
  ∃ cs', cameraStates (_handleRecordingError c0 r tm).1 = <[c0 := cs']> (cameraStates r) ∧
         state cs' = RESET ∧
         (_handleRecordingError c0 r tm).2 =
           Timer.start (resetKey c0) (resetDelayMs r) (Timer.CbReset c0)
             (Timer.stop (recordingKey c0) tm).2.
Proof.
  unfold _handleRecordingError, _onReset. rewrite !getCameraState_eq. simpl.
  rewrite lookup_insert_eq. simpl.
  eexists. split; [simpl; by rewrite !insert_insert_eq | split; reflexivity].
Qed.

Lemma forceStop_states c0 r tm :
  ∃ cs', cameraStates (forceStop c0 r tm).1 = <[c0 := cs']> (cameraStates r) ∧
         state cs' = IDLE ∧
         (forceStop c0 r tm).2 =
           (Timer.stop (resetKey c0) (Timer.stop (recordingKey c0) tm).2).2.
Proof.
  unfold forceStop. rewrite getCameraState_eq. simpl.
  eexists. split; [simpl; by rewrite insert_insert_eq | split; reflexivity].
Qed.

Lemma saveComplete_states c0 now rand r tm sm r' tm' sm' :
  saveComplete c0 now rand r tm sm = Some (r', tm', sm') →
  ∃ cs', cameraStates r' = <[c0 := cs']> (cameraStates r) ∧ state cs' = RESET ∧
         tm' = Timer.start (resetKey c0) (resetDelayMs r) (Timer.CbReset c0) tm.
Proof.
  unfold saveComplete.
  destruct (takePending c0 (pendingSaves r)) as [[p rest]|]; [|done].
  destruct (StorageManager.addRecording _ _ _ _) as [[e s1|s1]|]; [| |done].
  - rewrite getCameraState_eq. simpl.
    match goal with |- context [enterReset c0 ?r1 tm] =>
      destruct (enterReset_states c0 r1 tm) as (cs' & Hcs & Hst & Htm);
      destruct (enterReset c0 r1 tm) as [r3 tm3] end.
    simpl in *. intros [= <- <- <-]. exists cs'. split_and!; [|done..].
    rewrite Hcs. by rewrite insert_insert_eq.
  - match goal with |- context [enterReset c0 ?r1 tm] =>
      destruct (enterReset_states c0 r1 tm) as (cs' & Hcs & Hst & Htm);
      destruct (enterReset c0 r1 tm) as [r3 tm3] end.
    simpl in *. intros [= <- <- <-]. by exists cs'.
Qed.


Lemma phase_of_insert c c0 cs' r r' :
  cameraStates r' = <[c0 := cs']> (cameraStates r) →
  phase c r' = if decide (c = c0) then state cs' else phase c r.
Proof.
  intros H. rewrite !phase_lookup, H.
  destruct (decide (c = c0)) as [->|Hne].
  - by rewrite lookup_insert_eq.
  - by rewrite lookup_insert_ne.
Qed.

(** *** The invariant of reachable worlds *)

Lemma wf_init cfg storage : wf (init cfg storage).
Proof.
  split; simpl.
  - intros id t c H. by rewrite lookup_empty in H.
  - intros c cs H. by rewrite lookup_empty in H.
Qed.

Lemma wf_update w r' tm' sm' c0 cs' :
  wf w →
  cameraStates r' = <[c0 := cs']> (cameraStates (rc w)) →
  (state cs' = RECORDING → is_Some (startTime cs')) →
  (∀ id t c, tm' !! id = Some t → Timer.callback t = Timer.CbReset c →
     (c = c0 → state cs' = RESET ∧ id = resetKey c0) ∧
     (c ≠ c0 → tm w !! id = Some t)) →
  wf (mkWorld r' tm' sm').
Proof.
  intros [Hw1 Hw2] Hcs Hstart Htm. split; simpl.
  - intros id t c Hl Hcb. destruct (Htm id t c Hl Hcb) as [Heq Hne].
    rewrite (phase_of_insert c c0 cs' (rc w) r' Hcs).
    destruct (decide (c = c0)) as [->|Hc].
    + destruct (Heq eq_refl) as [-> ->]. done.
    + apply (Hw1 id t c); [by apply Hne | done].
  - intros c cs Hl Hst. rewrite Hcs in Hl.
    destruct (decide (c = c0)) as [->|Hc].
    + rewrite lookup_insert_eq in Hl. injection Hl as <-. by apply Hstart.
    + rewrite lookup_insert_ne in Hl by done. by apply (Hw2 c cs).
Qed.

Lemma wf_current_start w c0 :
  wf w →
  state (default idleState (cameraStates (rc w) !! c0)) = RECORDING →
  is_Some (startTime (default idleState (cameraStates (rc w) !! c0))).
Proof.
  intros [_ Hw2] Hst.
  destruct (cameraStates (rc w) !! c0) as [cs|] eqn:E; simpl in *; [|done].
  by apply (Hw2 c0 cs).
Qed.

Lemma step_wf o w w' : wf w → step o w = Some w' → wf w'.
Proof.
  intros Hwf Hstep. pose proof Hwf as [Hw1 Hw2].
  destruct o as [c0 url now|id0|c0 now rand|c0|c0]; simpl in Hstep.
  - (* startRecording *)
    destruct (startRecording c0 url now _ (rc w) (tm w)) as [[b r'] tm'] eqn:E.
    injection Hstep as <-.
    destruct (startRecording_states _ _ _ _ _ _ _ _ _ E)
      as [(_ & -> & ->) | (Hidle & (cs' & Hcs & Hst & Hsome) & ->)];
      [by destruct w|].
    apply (wf_update w r' _ (sm w) c0 cs' Hwf Hcs); [done|].
    intros id t c Hl Hcb.
    apply TimerFacts.start_lookup_Some in Hl as [[-> ->] | [Hne Hl]]; [done|].
    destruct (Hw1 id t c Hl Hcb) as [-> Hph].
    split; [|done]. intros ->. congruence.
  - (* expiry of a timer *)
    injection Hstep as <-. unfold fire.
    destruct (Timer.expire id0 (tm w)) as [[cb tm0]|] eqn:E; [|done].
    apply TimerFacts.expire_lookup in E as (t0 & Hl0 & Hcb0 & ->).
    destruct cb as [c0|c0|c0|].
    + (* _onTimerEnd *)
      destruct (_onTimerEnd c0 (rc w) (delete id0 (tm w))) as [r' tm'] eqn:E.
      pose proof (onTimerEnd_states c0 (rc w) (delete id0 (tm w))) as Hst.
      rewrite E in Hst. simpl in Hst.
      destruct Hst as [(Hn & Hcs & ->) | (Hrec & [(Hsome & (cs' & Hcs & Hst) & ->) |
                                                  (Hnone & _)])].
      * apply (wf_update w r' _ (sm w) c0 _ Hwf Hcs); [by apply wf_current_start|].
        intros id t c Hl Hcb.
        apply lookup_delete_Some in Hl as [Hne Hl].
        destruct (Hw1 id t c Hl Hcb) as [-> Hph].
        split; [|done]. intros ->. by rewrite state_default.
      * apply (wf_update w r' _ (sm w) c0 cs' Hwf Hcs); [congruence|].
        intros id t c Hl Hcb.
        apply lookup_delete_Some in Hl as [Hne Hl].
        destruct (Hw1 id t c Hl Hcb) as [-> Hph].
        split; [|done]. intros ->. congruence.
      * rewrite <- state_default in Hrec.
        destruct (wf_current_start w c0 Hwf Hrec) as [d Hd]. congruence.
    + (* the reset closure *)
      destruct (onResetEnd_states c0 (rc w)) as (cs' & Hcs & Hst).
      apply (wf_update w _ _ (sm w) c0 cs' Hwf Hcs); [congruence|].
      intros id t c Hl Hcb.
      apply lookup_delete_Some in Hl as [Hne Hl].
      destruct (Hw1 id t c Hl Hcb) as [-> Hph].
      split; [|done]. intros ->.
      destruct (Hw1 id0 t0 c0 Hl0 Hcb0) as [-> _]. done.
    + split; simpl; [|done]. intros id t c Hl Hcb.
      apply lookup_delete_Some in Hl as [Hne Hl]. by apply (Hw1 id t c).
    + split; simpl; [|done]. intros id t c Hl Hcb.
      apply lookup_delete_Some in Hl as [Hne Hl]. by apply (Hw1 id t c).
  - (* completion of a save *)
    destruct (saveComplete c0 now rand (rc w) (tm w) (sm w)) as [[[r' tm'] sm']|] eqn:E;
      [|done].
    injection Hstep as <-.
    destruct (saveComplete_states _ _ _ _ _ _ _ _ _ E) as (cs' & Hcs & Hst & ->).
    apply (wf_update w r' _ sm' c0 cs' Hwf Hcs); [congruence|].
    intros id t c Hl Hcb.
    apply TimerFacts.start_lookup_Some in Hl as [[-> ->] | [Hne Hl]].
    + simpl in Hcb. injection Hcb as <-. done.
    + destruct (Hw1 id t c Hl Hcb) as [-> Hph]. split; [|done]. by intros ->.
  - (* capture error *)
    destruct (_handleRecordingError c0 (rc w) (tm w)) as [r' tm'] eqn:E.
    injection Hstep as <-.
    destruct (handleRecordingError_states c0 (rc w) (tm w)) as (cs' & Hcs & Hst & Htm).
    rewrite E in Hcs, Htm. simpl in Hcs, Htm. subst tm'.
    apply (wf_update w r' _ (sm w) c0 cs' Hwf Hcs); [congruence|].
    intros id t c Hl Hcb.
    apply TimerFacts.start_lookup_Some in Hl as [[-> ->] | [Hne Hl]].
    + simpl in Hcb. injection Hcb as <-. done.
    + apply TimerFacts.stop_lookup_Some in Hl as [_ Hl].
      destruct (Hw1 id t c Hl Hcb) as [-> Hph]. split; [|done]. by intros ->.
  - (* forceStop *)
    destruct (forceStop c0 (rc w) (tm w)) as [r' tm'] eqn:E.
    injection Hstep as <-.
    destruct (forceStop_states c0 (rc w) (tm w)) as (cs' & Hcs & Hst & Htm).
    rewrite E in Hcs, Htm. simpl in Hcs, Htm. subst tm'.
    apply (wf_update w r' _ (sm w) c0 cs' Hwf Hcs); [congruence|].
    intros id t c Hl Hcb.
    apply TimerFacts.stop_lookup_Some in Hl as [Hne1 Hl].
    apply TimerFacts.stop_lookup_Some in Hl as [_ Hl].
    destruct (Hw1 id t c Hl Hcb) as [-> Hph]. split; [|done]. by intros ->.
Qed.

Lemma exec_wf ops w w' : wf w → exec ops w = Some w' → wf w'.
Proof.
  revert w. induction ops as [|o ops IH]; intros w Hwf H; simpl in H.
  - by injection H as <-.
  - destruct (step o w) as [w1|] eqn:E; [|done].
    apply (IH w1); [by apply (step_wf o w)|done].
Qed.


(** *** C2 *)

Lemma step_phase_change o w w' c :
  wf w → step o w = Some w' →
  phase c (rc w') ≠ phase c (rc w) →
  sequential (phase c (rc w)) (phase c (rc w')) ∨
  (phase c (rc w') = RESET ∧
   (o = OpError c ∨ ∃ now rand, o = OpSaveComplete c now rand)) ∨
  (phase c (rc w') = IDLE ∧ o = OpForceStop c).
Proof.
  intros Hwf Hstep Hch. pose proof Hwf as [Hw1 Hw2].
  destruct o as [c0 url now|id0|c0 now rand|c0|c0]; simpl in Hstep.
  - destruct (startRecording c0 url now _ (rc w) (tm w)) as [[b r'] tm'] eqn:E.
    injection Hstep as <-. simpl in *.
    destruct (startRecording_states _ _ _ _ _ _ _ _ _ E)
      as [(_ & -> & ->) | (Hidle & (cs' & Hcs & Hst & Hsome) & ->)]; [done|].
    rewrite (phase_of_insert c c0 cs' _ _ Hcs) in Hch |- *.
    destruct (decide (c = c0)) as [->|Hne]; [|done].
    left. left. by rewrite Hidle, Hst.
  - injection Hstep as <-. unfold fire in *.
    destruct (Timer.expire id0 (tm w)) as [[cb tm0]|] eqn:E; [|done].
    apply TimerFacts.expire_lookup in E as (t0 & Hl0 & Hcb0 & ->).
    destruct cb as [c0|c0|c0|]; [| |done|done].
    + destruct (_onTimerEnd c0 (rc w) (delete id0 (tm w))) as [r' tm'] eqn:E.
      pose proof (onTimerEnd_states c0 (rc w) (delete id0 (tm w))) as Hst.
      rewrite E in Hst. simpl in *.
      destruct Hst as [(Hn & Hcs & ->) | (Hrec & [(Hsome & (cs' & Hcs & Hst) & ->) |
                                                  (Hnone & _)])].
      * rewrite (phase_of_insert c c0 _ _ _ Hcs) in Hch.
        destruct (decide (c = c0)) as [->|Hne]; [|done].
        by rewrite state_default in Hch.
      * rewrite (phase_of_insert c c0 _ _ _ Hcs) in Hch |- *.
        destruct (decide (c = c0)) as [->|Hne]; [|done].
        left. right. left. by rewrite Hrec, Hst.
      * rewrite <- state_default in Hrec.
        destruct (wf_current_start w c0 Hwf Hrec) as [d Hd]. congruence.
    + destruct (onResetEnd_states c0 (rc w)) as (cs' & Hcs & Hst). simpl in *.
      rewrite (phase_of_insert c c0 _ _ _ Hcs) in Hch |- *.
      destruct (decide (c = c0)) as [->|Hne]; [|done].
      destruct (Hw1 id0 t0 c0 Hl0 Hcb0) as [_ Hph].
      left. right. right. right. by rewrite Hph, Hst.
  - destruct (saveComplete c0 now rand (rc w) (tm w) (sm w)) as [[[r' tm'] sm']|] eqn:E;
      [|done].
    injection Hstep as <-. simpl in *.
    destruct (saveComplete_states _ _ _ _ _ _ _ _ _ E) as (cs' & Hcs & Hst & ->).
    rewrite (phase_of_insert c c0 _ _ _ Hcs) in Hch |- *.
    destruct (decide (c = c0)) as [->|Hne]; [|done].
    right. left. split; [done|]. right. by exists now, rand.
  - destruct (_handleRecordingError c0 (rc w) (tm w)) as [r' tm'] eqn:E.
    injection Hstep as <-. simpl in *.
    destruct (handleRecordingError_states c0 (rc w) (tm w)) as (cs' & Hcs & Hst & Htm).
    rewrite E in Hcs. simpl in Hcs.
    rewrite (phase_of_insert c c0 _ _ _ Hcs) in Hch |- *.
    destruct (decide (c = c0)) as [->|Hne]; [|done].
    right. left. split; [done|]. by left.
  - destruct (forceStop c0 (rc w) (tm w)) as [r' tm'] eqn:E.
    injection Hstep as <-. simpl in *.
    destruct (forceStop_states c0 (rc w) (tm w)) as (cs' & Hcs & Hst & Htm).
    rewrite E in Hcs. simpl in Hcs.
    rewrite (phase_of_insert c c0 _ _ _ Hcs) in Hch |- *.
    destruct (decide (c = c0)) as [->|Hne]; [|done].
    right. right. by split.
Qed.

(** C2, as stated, fails: [forceStop] takes a recording camera from
    [RECORDING] straight to [IDLE], which is none of the four sequential
    transitions. *)
Lemma C2_forceStop_skips_phases :
  let w0 := init (mkConfig 60 3)
              (StorageManager.new (StorageManager.mkConfig "/rec" 90 true)
                 (StorageManager.mkFS ∅ None false)) in
  ∃ w w',
    exec [OpStart "CAM1" None (mkDate 0 2026 0 4 14 32 10 0)] w0 = Some w ∧
    step (OpForceStop "CAM1") w = Some w' ∧
    phase "CAM1" (rc w) = RECORDING ∧
    phase "CAM1" (rc w') = IDLE ∧
    ¬ sequential (phase "CAM1" (rc w)) (phase "CAM1" (rc w')).
Proof.
  simpl. eexists _, _.
  split; [reflexivity|]. split; [reflexivity|].
  split; [reflexivity|]. split; [reflexivity|].
  intros [Hs|[Hs|[Hs|Hs]]]; vm_compute in Hs; destruct Hs as [H1 H2]; discriminate.
Qed.

(** C2, amended: in a world reached from the initial one, every change of
    a camera's phase by an operation is one of the four sequential
    transitions (these are all the changes made by startRecording, by the
    duration timer and by the reset timer), or a move to [RESET] made by
    error handling or by the completion of a save for that camera, or a
    move to [IDLE] made by [forceStop] for that camera. *)
Theorem C2_phase_changes (cfg : Config) (storage : StorageManager.t)
    (ops : list Op) (o : Op) (w w' : World) (c : string) :
  exec ops (init cfg storage) = Some w →
  step o w = Some w' →
  phase c (rc w') ≠ phase c (rc w) →
  sequential (phase c (rc w)) (phase c (rc w')) ∨
  (phase c (rc w') = RESET ∧
   (o = OpError c ∨ ∃ now rand, o = OpSaveComplete c now rand)) ∨
  (phase c (rc w') = IDLE ∧ o = OpForceStop c).
Proof.
  intros Hreach Hstep Hch.
  apply (step_phase_change o w w' c); [|done..].
  by apply (exec_wf ops (init cfg storage) w (wf_init cfg storage)).
Qed.

Lemma C2_phase_changes_witness :
  let storage := StorageManager.new (StorageManager.mkConfig "/rec" 90 true)
                   (StorageManager.mkFS ∅ None false) in
  let t0 := mkDate 0 2026 0 4 14 32 10 0 in
  ∃ w w',
    exec [OpStart "CAM1" None t0] (init (mkConfig 60 3) storage) = Some w ∧
    step (OpTimer (recordingKey "CAM1")) w = Some w' ∧
    (sequential (phase "CAM1" (rc w)) (phase "CAM1" (rc w')) ∨
     (phase "CAM1" (rc w') = RESET ∧
      (OpTimer (recordingKey "CAM1") = OpError "CAM1" ∨
       ∃ now rand, OpTimer (recordingKey "CAM1") = OpSaveComplete "CAM1" now rand)) ∨
     (phase "CAM1" (rc w') = IDLE ∧ OpTimer (recordingKey "CAM1") = OpForceStop "CAM1")).
Proof.
  intros storage t0. eexists _, _.
  split; [reflexivity|]. split; [reflexivity|].
  apply (C2_phase_changes (mkConfig 60 3) storage [OpStart "CAM1" None t0]
           (OpTimer (recordingKey "CAM1")) _ _ "CAM1" eq_refl eq_refl).
  vm_compute. intros H. discriminate H.
Defined.


End RecordingFacts.

(** ** The motion validator *)

Module MotionFacts.
Import MotionDetector.

Lemma set_motionState_id d : set_motionState (motionState d) d = d.
Proof. by destruct d. Qed.

(** On an attached and enabled camera, [feed] runs [feedState] on the
    state record of the camera; in particular it returns. *)
Lemma feed_feedState c frames d cam st :
  cameras d !! c = Some cam → cam_enabled cam = true →
  motionState d !! c = Some st →
  feed c frames d =
    Some (set_motionState (<[c := (feedState (config d) frames st).1]> (motionState d)) d,
          (feedState (config d) frames st).2).
Proof.
  revert d st. induction frames as [|[now f] rest IH]; intros d st Hcam Hen Hst; simpl.
  - by rewrite (insert_id _ _ _ Hst), set_motionState_id.
  - unfold processFrame, _processMotion, _processNoMotion, frameStep.
    rewrite Hcam, Hen, Hst. simpl.
    destruct (_validateMotion (config d) f).
    + destruct (processMotionState (config d) (motionLevel f) now st) as [st1 e1].
      rewrite (IH _ st1); [|done|done|apply lookup_insert_eq]. simpl.
      destruct (feedState (config d) rest st1) as [st2 e2]. simpl.
      by rewrite insert_insert_eq.
    + destruct (processNoMotionState now st) as [st1 e1].
      rewrite (IH _ st1); [|done|done|apply lookup_insert_eq]. simpl.
      destruct (feedState (config d) rest st1) as [st2 e2]. simpl.
      by rewrite insert_insert_eq.
Qed.


Lemma feedState_cons c now f rest st :
  (feedState c ((now, f) :: rest) st).2 =
    (frameStep c now f st).2 ++ (feedState c rest (frameStep c now f st).1).2.
Proof.
  simpl. destruct (frameStep c now f st) as [st1 e1]. simpl.
  destruct (feedState c rest st1) as [st2 e2]. reflexivity.
Qed.

Lemma confirmed_app evs evs' : confirmed (evs ++ evs') = confirmed evs ++ confirmed evs'.
Proof. unfold confirmed. apply filter_app. Qed.















End MotionFacts.

(** ** The wiring of the motion listener *)

Module ServerFacts.
Import Server.

Lemma onMotion_calls c ev now s :
  ∃ b1 b2 tm1,
    AlarmController.trigger c (getTime now) (alarmController s) (timers s)
      = (b1, alarmController (onMotion c ev now s).1, tm1) ∧
    RecordingController.startRecording c None now
        (StorageManager.getBasePath (storageManager s)) (recordingController s) tm1
      = (b2, recordingController (onMotion c ev now s).1, timers (onMotion c ev now s).1) ∧
    (onMotion c ev now s).2 = [CallTrigger c b1; CallStartRecording c b2].
Proof.
  unfold onMotion.
  destruct (AlarmController.trigger _ _ _ _) as [[b1 a] tm1] eqn:E1.
  destruct (RecordingController.startRecording _ _ _ _ _ _) as [[b2 r] tm2] eqn:E2.
  exists b1, b2, tm1. simpl. by rewrite E2.
Qed.

Lemma dispatch_calls c evs now s :
  ∃ rets : list (bool * bool),
    length rets = length evs ∧
    (dispatch c evs now s).2 =
      flat_map (λ bb, [CallTrigger c bb.1; CallStartRecording c bb.2]) rets.
Proof.
  revert s. induction evs as [|e evs IH]; intros s; simpl.
  - by exists [].
  - destruct (onMotion_calls c e now s) as (b1 & b2 & tm1 & _ & _ & Hc).
    destruct (onMotion c e now s) as [s1 c1]. simpl in Hc. subst c1.
    destruct (IH s1) as (rets & Hlen & Hcalls).
    destruct (dispatch c evs now s1) as [s2 c2]. simpl in *.
    exists ((b1, b2) :: rets). simpl. by rewrite Hlen, Hcalls.
Qed.

(** An event of any type, received while the alarm accepts a trigger for
    the camera and the camera is idle, sounds the alarm and starts a
    recording. *)
Lemma onMotion_effect c ev now s :
  ¬ AlarmController.blocked c (alarmController s) →
  RecordingController.phase c (recordingController s) = IDLE →
  AlarmController.state (alarmController (onMotion c ev now s).1) = TRIGGERED ∧
  RecordingController.phase c (recordingController (onMotion c ev now s).1) = RECORDING.
Proof.
  intros Hnb Hidle. unfold onMotion.
  rewrite (AlarmFacts.trigger_accepts c (getTime now) _ (timers s) Hnb).
  match goal with |- context [RecordingController.startRecording c None now ?base ?r ?tm1] =>
    destruct (RecordingFacts.startRecording_idle c None now base r tm1 Hidle)
      as (r' & tm' & -> & Hrec & _) end.
  simpl. split; [|done].
  unfold AlarmController._activateHardwareAlarm. simpl.
  by destruct (AlarmController.hardwareInterface (alarmController s)).
Qed.

(** C10: the listener does not look at the type of the event: for every
    ['motion'] event, of type [MOTION_END] as well as [MOTION_START], it
    calls [alarmController.trigger(cameraId)] and then
    [recordingController.startRecording(cameraId)] for the camera of the
    event, so that an event of either type sounds the alarm and starts a
    recording when both guards let it; and a frame handed to the motion
    detector makes the listener run once, with these two calls, for each
    event the frame emits. *)
Theorem C10_listener_calls_both (c : string) :
  (∀ ev now s, ∃ b1 b2 tm1,
     AlarmController.trigger c (getTime now) (alarmController s) (timers s)
       = (b1, alarmController (onMotion c ev now s).1, tm1) ∧
     RecordingController.startRecording c None now
         (StorageManager.getBasePath (storageManager s)) (recordingController s) tm1
       = (b2, recordingController (onMotion c ev now s).1, timers (onMotion c ev now s).1) ∧
     (onMotion c ev now s).2 = [CallTrigger c b1; CallStartRecording c b2]) ∧
  (∀ ev now s,
     ¬ AlarmController.blocked c (alarmController s) →
     RecordingController.phase c (recordingController s) = IDLE →
     AlarmController.state (alarmController (onMotion c ev now s).1) = TRIGGERED ∧
     RecordingController.phase c (recordingController (onMotion c ev now s).1) = RECORDING) ∧
  (∀ f now s s' evs calls,
     processFrame c f now s = Some (s', evs, calls) →
     MotionDetector.processFrame c f (getTime now) (motionDetector s)
       = Some (motionDetector s', evs) ∧
     ∃ rets : list (bool * bool),
       length rets = length evs ∧
       calls = flat_map (λ bb, [CallTrigger c bb.1; CallStartRecording c bb.2]) rets).
Proof.
  split; [intros ev now s; apply onMotion_calls|].
  split; [intros ev now s; apply onMotion_effect|].
  intros f now s s' evs calls. unfold processFrame.
  destruct (MotionDetector.processFrame c f (getTime now) (motionDetector s))
    as [[d evs0]|] eqn:E; [|done].
  match goal with |- context [dispatch c evs0 now ?s0] =>
    pose proof (dispatch_calls c evs0 now s0) as (rets & Hlen & Hcalls);
    assert (Hmd : motionDetector (dispatch c evs0 now s0).1 = d);
    [| destruct (dispatch c evs0 now s0) as [s1 calls1] ]
  end.
  { clear. generalize (alarmController s) (recordingController s) (timers s) (broadcasts s).
    induction evs0 as [|e evs0 IH]; intros a r tm b; simpl; [done|].
    unfold onMotion at 1. simpl.
    destruct (AlarmController.trigger _ _ _ _) as [[b1 a1] tm1].
    destruct (RecordingController.startRecording _ _ _ _ _ _) as [[b2 r1] tm2].
    specialize (IH a1 r1 tm2 (b ++ [(c, e)])).
    destruct (dispatch c evs0 now _) as [s2 c2]. exact IH. }
  simpl in *. intros [= <- <- <-]. split; [by rewrite Hmd|].
  by exists rets.
Qed.

(** An armed server whose camera has an open motion episode receives a
    frame without motion: the motion-ended event sounds the alarm and
    starts a recording. *)
Lemma C10_listener_calls_both_witness :
  let d := MotionDetector.mk (MotionDetector.mkConfig 15 300 5 true true MotionDetector.medium)
             {["CAM1" := MotionDetector.mkCamera None true]}
             {["CAM1" := MotionDetector.mkMotionState true (Some 0) 50 1]} in
  let sm := StorageManager.new (StorageManager.mkConfig "/rec" 90 true)
              (StorageManager.mkFS ∅ None false) in
  let s := mk d (AlarmController.new (AlarmController.mkConfig 10 true 100))
              (RecordingController.new (RecordingController.mkConfig 60 3)) sm ∅ [] in
  let still := MotionDetector.mkFrameData 0 0 false false in
  ∃ s' ev calls,
    processFrame "CAM1" still (mkDate 100 2026 0 4 14 32 10 100) s = Some (s', [ev], calls) ∧
    MotionDetector.type ev = MOTION_END ∧
    calls = [CallTrigger "CAM1" true; CallStartRecording "CAM1" true] ∧
    AlarmController.state (alarmController s') = TRIGGERED ∧
    RecordingController.phase "CAM1" (recordingController s') = RECORDING ∧
    ∃ rets : list (bool * bool),
      length rets = 1%nat ∧
      calls = flat_map (λ bb, [CallTrigger "CAM1" bb.1; CallStartRecording "CAM1" bb.2]) rets.
Proof.
  intros d sm s still.
  destruct (processFrame "CAM1" still (mkDate 100 2026 0 4 14 32 10 100) s)
    as [[[s' evs] calls]|] eqn:E; [|vm_compute in E; discriminate E].
  destruct (proj2 (proj2 (C10_listener_calls_both "CAM1")) _ _ _ _ _ _ E)
    as [_ (rets & Hlen & Hcalls)].
  vm_compute in E. injection E as <- <- <-.
  eexists _, _, _. split; [reflexivity|]. split; [reflexivity|].
  split; [reflexivity|]. split; [reflexivity|]. split; [reflexivity|].
  exists rets. split; [exact Hlen | exact Hcalls].
Defined.

End ServerFacts.

(** ** The capacity manager *)

Module StorageFacts.
Import StorageManager.

(** *** The index without one entry *)

Lemma findIndex_removeFirst file (l : list Recording) :
  match findIndex (λ r, String.eqb (filename r) file) l with
  | Some i => l !! i = firstWith file l ∧ is_Some (firstWith file l) ∧
              delete i l = removeFirst file l
  | None => firstWith file l = None ∧ removeFirst file l = l
  end.
Proof.
  induction l as [|x l IH]; simpl; [done|].
  destruct (String.eqb (filename x) file) eqn:E; simpl; [by eauto|].
  destruct (findIndex _ l) as [i|]; simpl.
  - destruct IH as (H1 & H2 & H3). split_and!; [done..|]. by rewrite <- H3.
  - destruct IH as [H1 H2]. by rewrite H1, H2.
Qed.

Lemma spliceByFilename_recordings file s :
  recordings (spliceByFilename file s) = removeFirst file (recordings s).
Proof.
  unfold spliceByFilename.
  pose proof (findIndex_removeFirst file (recordings s)) as H.
  destruct (findIndex _ (recordings s)) as [i|].
  - destruct H as (H1 & [r Hr] & H3). rewrite H1, Hr. simpl. done.
  - by destruct H as [_ ->].
Qed.

Lemma spliceByFilename_removed file s :
  removed (spliceByFilename file s) =
    removed s ++ option_list (firstWith file (recordings s)).
Proof.
  unfold spliceByFilename.
  pose proof (findIndex_removeFirst file (recordings s)) as H.
  destruct (findIndex _ (recordings s)) as [i|].
  - destruct H as (H1 & [r Hr] & H3). rewrite H1, Hr. simpl. done.
  - destruct H as [-> _]. simpl. by rewrite app_nil_r.
Qed.

Lemma spliceByFilename_other file s :
  config (spliceByFilename file s) = config s ∧
  fs (spliceByFilename file s) = fs s ∧
  stats (spliceByFilename file s) = stats s ∧
  emitted (spliceByFilename file s) = emitted s.
Proof.
  unfold spliceByFilename.
  destruct (findIndex _ (recordings s)) as [i|]; [|done].
  by destruct (recordings s !! i).
Qed.

Lemma removeFirst_length file l :
  (length (removeFirst file l) ≤ length l)%nat.
Proof.
  induction l as [|x l IH]; simpl; [done|].
  destruct (String.eqb (filename x) file); simpl; lia.
Qed.

Lemma removeFirst_length_in file l x :
  x ∈ l → filename x = file → (length (removeFirst file l) < length l)%nat.
Proof.
  intros Hin Hf. induction l as [|y l IH]; [by apply elem_of_nil in Hin|]. simpl.
  destruct (String.eqb (filename y) file) eqn:E; simpl; [lia|].
  apply elem_of_cons in Hin as [->|Hin].
  - apply String.eqb_neq in E. done.
  - specialize (IH Hin). lia.
Qed.

(** *** [deleteRecording] without index update *)

Lemma unlink_frame file d d' :
  unlink file d = inr d' →
  indexFile d' = indexFile d ∧ writeFails d' = writeFails d ∧
  files d' = delete file (files d).
Proof.
  unfold unlink. destruct (files d !! file) as [f|]; [|done].
  destruct (unlinkFails f); [done|]. by intros [= <-].
Qed.

Lemma deleteRecording_false upd file s :
  (∃ s1, deleteRecording_with upd file false s = Some (Ok tt (emit (recordingDeleted file) s1)) ∧
         recordings s1 = removeFirst file (recordings s) ∧
         removed s1 = removed s ++ option_list (firstWith file (recordings s)) ∧
         config s1 = config s ∧ stats s1 = stats s ∧
         indexFile (fs s1) = indexFile (fs s) ∧ writeFails (fs s1) = writeFails (fs s) ∧
         files (fs s1) = delete file (files (fs s))) ∨
  (deleteRecording_with upd file false s = Some (Throw s) ∧
   ∃ f, files (fs s) !! file = Some f ∧ unlinkFails f = true).
Proof.
  unfold deleteRecording_with.
  destruct (unlink file (fs s)) as [[]|d] eqn:E.
  - left. eexists. split; [reflexivity|].
    rewrite spliceByFilename_recordings, spliceByFilename_removed.
    destruct (spliceByFilename_other file s) as (-> & -> & -> & _).
    split_and!; try done.
    unfold unlink in E. destruct (files (fs s) !! file) as [f|] eqn:El.
    + by destruct (unlinkFails f).
    + symmetry. by apply delete_id.
  - right. split; [done|]. unfold unlink in E.
    destruct (files (fs s) !! file) as [f|]; [|done].
    exists f. split; [done|]. by destruct (unlinkFails f).
  - left. eexists. split; [reflexivity|].
    rewrite spliceByFilename_recordings, spliceByFilename_removed.
    destruct (spliceByFilename_other file (set_fs d s)) as (-> & -> & -> & _).
    destruct (unlink_frame _ _ _ E) as (? & ? & ?). by split_and!.
Qed.

(** *** Sorting by age *)

Lemma insertByTime_perm r l : insertByTime r l ≡ₚ r :: l.
Proof.
  induction l as [|x l IH]; simpl; [done|].
  destruct (timestamp r <=? timestamp x); [done|].
  rewrite IH. apply Permutation_swap.
Qed.

Lemma sortByTimestamp_perm l : sortByTimestamp l ≡ₚ l.
Proof.
  induction l as [|x l IH]; simpl; [done|].
  rewrite insertByTime_perm. by rewrite IH.
Qed.

Lemma sortByTimestamp_length l : length (sortByTimestamp l) = length l.
Proof. by rewrite sortByTimestamp_perm. Qed.

(** *** Termination of the mutual recursion, and what it leaves alone *)

Lemma frame_refl s : frame s s.
Proof. by split_and!. Qed.

Lemma frame_trans s1 s2 s3 : frame s1 s2 → frame s2 s3 → frame s1 s3.
Proof.
  intros (H1 & H2 & H3 & H4) (K1 & K2 & K3 & K4).
  split_and!; [congruence..|lia].
Qed.

Lemma frame_emit e s : frame s (emit e s).
Proof. by split_and!. Qed.

Lemma frame_set_stats st s : frame s (set_stats st s).
Proof. by split_and!. Qed.

(** The loop of [_performCleanup] returns when the nested
    [_updateStorageStats] returns on every index shorter than [m]: either
    the index is already shorter than [m], or it has at most [m] entries
    and every entry still to visit has its filename in the index, so that
    the first successful delete shortens it. *)
Section LoopTermination.

Variable upd : t → option t.
Variable m : nat.
Variable target : Q.
Hypothesis upd_total :
  ∀ s, (length (recordings s) < m)%nat → ∃ s', upd s = Some s' ∧ frame s s'.

Lemma cleanupLoop_total L s cnt :
  ((length (recordings s) < m)%nat ∨
   ((length (recordings s) ≤ m)%nat ∧
    Forall (λ e, ∃ x, x ∈ recordings s ∧ filename x = filename e) L)) →
  ∃ s' cnt', cleanupLoop upd target L s cnt = Some (s', cnt') ∧ frame s s'.
Proof.
  pose proof upd_total as Hupd.
  revert s cnt. induction L as [|oldest rest IH]; intros s cnt Hlen; simpl.
  { exists s, cnt. split; [done | apply frame_refl]. }
  destruct (negb (Qle_bool (usagePercent (stats s)) target)).
  2: { exists s, cnt. split; [done | apply frame_refl]. }
  destruct (deleteRecording_false upd (filename oldest) s)
    as [(s1 & -> & Hrec & _ & Hcfg & _ & Hidx & Hwf & _) | (-> & _)].
  - assert (Hshort : (length (recordings (emit (recordingDeleted (filename oldest)) s1)) < m)%nat).
    { simpl. rewrite Hrec. destruct Hlen as [Hlen | [Hlen Hall]].
      - pose proof (removeFirst_length (filename oldest) (recordings s)). lia.
      - apply Forall_cons in Hall as [(x & Hin & Hf) _].
        pose proof (removeFirst_length_in _ _ x Hin Hf). lia. }
    destruct (Hupd _ Hshort) as (s2 & -> & Hfr2).
    destruct (IH s2 (S cnt)) as (s' & cnt' & -> & Hfr').
    { left. destruct Hfr2 as (_ & _ & _ & Hl). lia. }
    exists s', cnt'. split; [done|].
    apply (frame_trans s s2 s'); [|done].
    apply (frame_trans s (emit (recordingDeleted (filename oldest)) s1) s2); [|done].
    split_and!; simpl; [done..|]. rewrite Hrec. apply removeFirst_length.
  - apply IH. destruct Hlen as [Hlen | [Hlen Hall]]; [by left|].
    right. split; [done|]. by apply Forall_cons in Hall as [_ Hall].
Qed.

End LoopTermination.

Lemma updateStorageStats_fuel_total n :
  ∀ s, (length (recordings s) < n)%nat →
       ∃ s', updateStorageStats_fuel n s = Some s' ∧ frame s s'.
Proof.
  induction n as [|n IH]; intros s Hlen; [lia|]. simpl.
  unfold updateStorageStats_with.
  set (st := computeStats (fs s) (recordings s)).
  set (s1 := set_stats st s).
  assert (Hclean : ∃ s2,
            (if autoCleanup (config s1) && Qle_bool (maxUsagePercent (config s1)) (usagePercent st)
             then performCleanup_with (updateStorageStats_fuel n) s1 else Some s1) = Some s2 ∧
            frame s s2).
  { destruct (autoCleanup (config s1) && _).
    - unfold performCleanup_with.
      destruct (cleanupLoop_total (updateStorageStats_fuel n) n
                  (maxUsagePercent (config s1) - 10)%Q IH
                  (sortByTimestamp (recordings s1)) s1 0%nat) as (s' & cnt' & -> & Hfr).
      { right. split; [simpl; lia|]. apply Forall_forall. intros e He.
        exists e. split; [|done]. by rewrite sortByTimestamp_perm in He. }
      eexists. split; [reflexivity|].
      apply (frame_trans s s1); [apply frame_set_stats|].
      apply (frame_trans s1 s'); [done | apply frame_emit].
    - exists s1. split; [done | apply frame_set_stats]. }
  destruct Hclean as (s2 & -> & Hfr).
  eexists. split; [reflexivity|].
  destruct (health (stats s2)); try done;
    (apply (frame_trans s s2); [done | apply frame_emit]).
Qed.

(** [_updateStorageStats] returns. *)
Lemma updateStorageStats_total s :
  ∃ s', _updateStorageStats s = Some s' ∧ frame s s'.
Proof. apply updateStorageStats_fuel_total. lia. Qed.


(** *** C6 *)

Lemma saveIndex_ok s :
  writeFails (fs s) = false →
  ∃ s', _saveIndex s = Ok tt s' ∧ indexFile (fs s') = Some (recordings s) ∧
        recordings s' = recordings s ∧ writeFails (fs s') = false.
Proof. intros H. unfold _saveIndex. rewrite H. by eexists. Qed.

Lemma addRecording_persists rec now rand s :
  writeFails (fs s) = false →
  ∃ e s', addRecording rec now rand s = Some (Ok e s') ∧
    indexFile (fs s') = Some (recordings s ++ [e]) ∧
    cameraId e = info_cameraId rec ∧ filename e = info_filename rec.
Proof.
  intros Hw. unfold addRecording.
  match goal with |- context [_saveIndex ?s1] =>
    destruct (saveIndex_ok s1 Hw) as (s2 & -> & Hidx & Hrec & _) end.
  destruct (updateStorageStats_total s2) as (s3 & -> & _ & Hidx3 & _).
  eexists _, _. split; [reflexivity|]. simpl. rewrite Hidx3, Hidx. simpl.
  split; [done|]. by destruct (statSize (fs s) (info_filename rec)).
Qed.

Lemma addRecording_write_fails rec now rand s :
  writeFails (fs s) = true → ∃ s', addRecording rec now rand s = Some (Throw s').
Proof.
  intros Hw. unfold addRecording, _saveIndex. simpl. rewrite Hw. by eexists.
Qed.

Lemma deleteRecording_true_persists file s s' :
  deleteRecording file true s = Some (Ok tt s') →
  indexFile (fs s') = Some (removeFirst file (recordings s)).
Proof.
  unfold deleteRecording, deleteRecording_with.
  assert (Hgo : ∀ s1, recordings s1 = recordings s →
            match _saveIndex (spliceByFilename file s1) with
            | Ok _ s3 =>
              match _updateStorageStats s3 with
              | Some s4 => Some (Ok tt (emit (recordingDeleted file) s4))
              | None => None
              end
            | Throw s3 => Some (Throw s3)
            end = Some (Ok tt s') →
            indexFile (fs s') = Some (removeFirst file (recordings s))).
  { intros s1 Hrec. unfold _saveIndex.
    destruct (writeFails (fs (spliceByFilename file s1))); [done|].
    match goal with |- context [_updateStorageStats ?s3] =>
      destruct (updateStorageStats_total s3) as (s4 & -> & _ & Hidx & _) end.
    intros [= <-]. simpl in *. rewrite Hidx.
    by rewrite spliceByFilename_recordings, Hrec. }
  destruct (unlink file (fs s)) as [[]|d]; [by apply Hgo|done|by apply Hgo].
Qed.

Lemma deleteRecording_returns file b s : is_Some (deleteRecording file b s).
Proof.
  unfold deleteRecording, deleteRecording_with.
  assert (Hgo : ∀ s2, is_Some
            (if b then
               match _saveIndex s2 with
               | Ok _ s3 =>
                 match _updateStorageStats s3 with
                 | Some s4 => Some (Ok tt (emit (recordingDeleted file) s4))
                 | None => None
                 end
               | Throw s3 => Some (Throw s3)
               end
             else Some (Ok tt (emit (recordingDeleted file) s2)))).
  { intros s2. destruct b; [|by eexists].
    destruct (_saveIndex s2) as [[] s3|s3]; [|by eexists].
    destruct (updateStorageStats_total s3) as (s4 & -> & _). by eexists. }
  destruct (unlink file (fs s)) as [[]|d]; [apply Hgo | by eexists | apply Hgo].
Qed.

Lemma deleteRecording_false_no_write file s s' :
  deleteRecording file false s = Some (Ok tt s') →
  indexFile (fs s') = indexFile (fs s) ∧
  recordings s' = removeFirst file (recordings s).
Proof.
  unfold deleteRecording.
  destruct (deleteRecording_false _updateStorageStats file s)
    as [(s1 & -> & Hrec & _ & _ & _ & Hidx & _) | (-> & _)]; [|done].
  intros [= <-]. by simpl.
Qed.

(** C6 fails on the code: the removals made by eviction are not written
    to the index file.  With three recordings of 10 GB each on the
    assumed 32 GB card and a ceiling of 90 %, a refresh evicts the oldest
    entry and returns with the index file still listing it, so the file
    no longer holds the in-memory index.  [_performCleanup] calls
    [deleteRecording] with [updateIndex = false], refreshes the
    statistics itself and never calls [_saveIndex], whereas
    [addRecording] and [deleteRecording] with its default write the
    index after their change (lemmas [addRecording_persists] and
    [deleteRecording_true_persists]). *)
Lemma C6_eviction_not_persisted :
  let GB := 1024 * 1024 * 1024 in
  let e1 := mkRecording "rec_1" "CAM1" "a.mp4" 100 60 0 false in
  let e2 := mkRecording "rec_2" "CAM1" "b.mp4" 50 60 0 false in
  let e3 := mkRecording "rec_3" "CAM1" "c.mp4" 200 60 0 false in
  let disk := mkFS (<["a.mp4" := mkFile (10 * GB) false]>
                      (<["b.mp4" := mkFile (10 * GB) false]>
                         (<["c.mp4" := mkFile (10 * GB) false]> ∅)))
                   (Some [e1; e2; e3]) false in
  let s := mk (mkConfig "/rec" 90 true) [e1; e2; e3] (mkStats 0 0 0 0 HEALTHY) disk [] [] in
  indexFile (fs s) = Some (recordings s) ∧
  ∃ s', refresh s = Some s' ∧
    recordings s' = [e1; e3] ∧
    removed s' = [e2] ∧
    indexFile (fs s') = Some [e1; e2; e3] ∧
    indexFile (fs s') ≠ Some (recordings s').
Proof.
  simpl. split; [reflexivity|].
  eexists. split; [vm_compute; reflexivity|].
  split; [reflexivity|]. split; [reflexivity|]. split; [reflexivity|].
  intros H. discriminate H.
Qed.


(** *** Eviction removes the oldest entries first *)

Lemma byAge_total a b : ¬ byAge a b → byAge b a.
Proof. unfold byAge. lia. Qed.

Lemma insertByTime_sorted r l :
  StronglySorted byAge l → StronglySorted byAge (insertByTime r l).
Proof.
  induction 1 as [|x l Hs IH Hall]; simpl.
  - by repeat constructor.
  - destruct (Z.leb_spec (timestamp r) (timestamp x)) as [Hle|Hgt].
    + constructor; [by constructor|].
      constructor; [done|]. eapply Forall_impl; [exact Hall|].
      unfold byAge. intros y Hy. simpl in *. lia.
    + constructor; [done|]. rewrite insertByTime_perm.
      constructor; [unfold byAge; lia | done].
Qed.

Lemma sortByTimestamp_sorted l : StronglySorted byAge (sortByTimestamp l).
Proof.
  induction l as [|x l IH]; simpl; [constructor | by apply insertByTime_sorted].
Qed.

Lemma insertByTime_head r l : Forall (byAge r) l → insertByTime r l = r :: l.
Proof.
  destruct l as [|x l]; simpl; [done|]. intros H. apply Forall_cons in H as [H _].
  unfold byAge in H. by destruct (Z.leb_spec (timestamp r) (timestamp x)); [|lia].
Qed.

Lemma removeFirst_notin file l :
  file ∉ filename <$> l → removeFirst file l = l.
Proof.
  induction l as [|x l IH]; simpl; [done|]. intros Hn.
  apply not_elem_of_cons in Hn as [Hne Hn].
  destruct (String.eqb_spec (filename x) file) as [Heq|_]; [done|].
  by rewrite IH.
Qed.

Lemma firstWith_notin file l :
  file ∉ filename <$> l → firstWith file l = None.
Proof.
  induction l as [|x l IH]; simpl; [done|]. intros Hn.
  apply not_elem_of_cons in Hn as [Hne Hn].
  destruct (String.eqb_spec (filename x) file) as [Heq|_]; [done|].
  by apply IH.
Qed.

Lemma firstWith_in x l :
  distinctFiles l → x ∈ l → firstWith (filename x) l = Some x.
Proof.
  unfold distinctFiles. induction l as [|y l IH]; simpl; intros Hnd Hin.
  { by apply elem_of_nil in Hin. }
  apply NoDup_cons in Hnd as [Hy Hnd].
  destruct (String.eqb_spec (filename y) (filename x)) as [Heq|Hne].
  - apply elem_of_cons in Hin as [->|Hin]; [done|].
    destruct Hy. rewrite Heq. apply list_elem_of_fmap. by exists x.
  - apply elem_of_cons in Hin as [->|Hin]; [done|]. by apply IH.
Qed.

Lemma removeFirst_insert_eq file r l :
  filename r = file → file ∉ filename <$> l →
  removeFirst file (insertByTime r l) = l.
Proof.
  intros Hr. induction l as [|x l IH]; simpl; intros Hn.
  - by rewrite Hr, String.eqb_refl.
  - apply not_elem_of_cons in Hn as [Hne Hn].
    destruct (timestamp r <=? timestamp x); simpl.
    + by rewrite Hr, String.eqb_refl.
    + destruct (String.eqb_spec (filename x) file) as [Heq|_]; [done|].
      by rewrite IH.
Qed.

Lemma removeFirst_insert_ne file r l :
  StronglySorted byAge l → filename r ≠ file →
  removeFirst file (insertByTime r l) = insertByTime r (removeFirst file l).
Proof.
  intros Hs Hr. induction Hs as [|x l Hs IH Hall]; simpl.
  - by destruct (String.eqb_spec (filename r) file).
  - destruct (Z.leb_spec (timestamp r) (timestamp x)) as [Hle|Hgt]; simpl.
    + destruct (String.eqb_spec (filename r) file) as [|_]; [done|].
      destruct (String.eqb_spec (filename x) file) as [Heq|Hne]; simpl.
      * symmetry. apply insertByTime_head.
        eapply Forall_impl; [exact Hall|]. unfold byAge. intros y Hy. simpl in *. lia.
      * by destruct (Z.leb_spec (timestamp r) (timestamp x)); [|lia].
    + destruct (String.eqb_spec (filename x) file) as [Heq|Hne]; simpl; [done|].
      destruct (Z.leb_spec (timestamp r) (timestamp x)); [lia|]. by rewrite IH.
Qed.

Lemma sortByTimestamp_removeFirst file l :
  distinctFiles l →
  sortByTimestamp (removeFirst file l) = removeFirst file (sortByTimestamp l).
Proof.
  unfold distinctFiles. induction l as [|x l IH]; simpl; intros Hnd; [done|].
  apply NoDup_cons in Hnd as [Hx Hnd].
  destruct (String.eqb_spec (filename x) file) as [Heq|Hne].
  - rewrite removeFirst_insert_eq; [done|done|].
    rewrite sortByTimestamp_perm. by rewrite <- Heq.
  - simpl. rewrite IH by done.
    by rewrite removeFirst_insert_ne; [|apply sortByTimestamp_sorted|].
Qed.

Lemma removeFirst_sublist file l : removeFirst file l `sublist_of` l.
Proof.
  induction l as [|x l IH]; simpl; [done|].
  destruct (String.eqb (filename x) file); [by apply sublist_cons | by apply sublist_skip].
Qed.

Lemma distinctFiles_removeFirst file l :
  distinctFiles l → distinctFiles (removeFirst file l).
Proof.
  unfold distinctFiles. intros H. eapply sublist_NoDup; [exact H|].
  apply fmap_sublist, removeFirst_sublist.
Qed.

Lemma distinctFiles_sort l : distinctFiles (sortByTimestamp l) ↔ distinctFiles l.
Proof. unfold distinctFiles. by rewrite sortByTimestamp_perm. Qed.

Lemma deletable_delete file d d' :
  files d' = delete file (files d) → deletable d → deletable d'.
Proof.
  intros Hf Hd k f Hl. rewrite Hf in Hl.
  apply lookup_delete_Some in Hl as [_ Hl]. by apply (Hd k f).
Qed.

Lemma evicts_nil s :
  stats s = computeStats (fs s) (recordings s) → deletable (fs s) → evicts s s [].
Proof. intros Hst Hd. split_and!; try done. by rewrite app_nil_r. Qed.


Lemma evicts_emit e s s' D : evicts s s' D → evicts s (emit e s') D.
Proof. intros (? & ? & ? & ? & ?). by split_and!. Qed.

Lemma evicts_set_stats st s s' D : evicts (set_stats st s) s' D → evicts s s' D.
Proof. intros (? & ? & ? & ? & ?). by split_and!. Qed.

(** The loop of [_performCleanup], when the nested [_updateStorageStats]
    evicts oldest first: the sorted copy [L] may be stale, since a nested
    cleanup may have removed entries of it, but the sorted index is always
    a final segment of what is left of [L]. *)
Section LoopEviction.

Variable upd : t → option t.
Variable target : Q.
Hypothesis upd_evicts :
  ∀ s s', upd s = Some s' → deletable (fs s) → distinctFiles (recordings s) →
          ∃ D, evicts s s' D.

Lemma cleanupLoop_evicts L s cnt s' cnt' :
  cleanupLoop upd target L s cnt = Some (s', cnt') →
  deletable (fs s) → distinctFiles L →
  (∃ pre, L = pre ++ sortByTimestamp (recordings s)) →
  stats s = computeStats (fs s) (recordings s) →
  ∃ D, evicts s s' D ∧
       ((usagePercent (stats s') <= target)%Q ∨ recordings s' = []).
Proof.
  pose proof upd_evicts as Hupd.
  revert s cnt s' cnt'. induction L as [|oldest rest IH];
    intros s cnt s' cnt' Hloop Hdel HndL [pre Hpre] Hfresh; simpl in Hloop.
  { injection Hloop as <- <-. exists []. split; [by apply evicts_nil|]. right.
    symmetry in Hpre. apply app_eq_nil in Hpre as [_ Hnil].
    apply (f_equal length) in Hnil. rewrite sortByTimestamp_length in Hnil.
    by destruct (recordings s). }
  destruct (Qle_bool (usagePercent (stats s)) target) eqn:Hq; simpl in Hloop.
  { injection Hloop as <- <-. exists []. split; [by apply evicts_nil|]. left.
    by apply Qle_bool_iff. }
  assert (HndR : distinctFiles (recordings s)).
  { apply distinctFiles_sort. unfold distinctFiles in *. rewrite Hpre in HndL.
    rewrite fmap_app in HndL. by apply NoDup_app in HndL as (_ & _ & ?). }
  destruct (deleteRecording_false upd (filename oldest) s)
    as [(s1 & Hdr & Hrec & Hrem & Hcfg & _ & _ & _ & Hfiles) | (_ & f & Hf & Hfail)].
  2: { rewrite (Hdel _ _ Hf) in Hfail. discriminate Hfail. }
  rewrite Hdr in Hloop.
  set (sd := emit (recordingDeleted (filename oldest)) s1) in *.
  destruct (upd sd) as [s2|] eqn:Eupd; [|discriminate Hloop].
  assert (Hdel1 : deletable (fs sd)) by (by apply (deletable_delete (filename oldest) (fs s))).
  assert (Hnd1 : distinctFiles (recordings sd)).
  { simpl. rewrite Hrec. by apply distinctFiles_removeFirst. }
  destruct (Hupd sd s2 Eupd Hdel1 Hnd1) as (D2 & Hc2 & Hr2 & Hs2 & Hst2 & Hd2).
  simpl in Hc2, Hr2, Hs2.
  assert (HndRest : distinctFiles rest).
  { unfold distinctFiles in *. simpl in HndL. by apply NoDup_cons in HndL as [_ ?]. }
  destruct pre as [|p pre]; simpl in Hpre.
  - (* the entry is the oldest of the index *)
    assert (Hin : oldest ∈ recordings s).
    { rewrite <- sortByTimestamp_perm, <- Hpre. apply list_elem_of_here. }
    rewrite Hrec, sortByTimestamp_removeFirst, <- Hpre in Hs2 by done.
    simpl in Hs2. rewrite String.eqb_refl in Hs2.
    rewrite Hrem, (firstWith_in oldest _ HndR Hin) in Hr2. simpl in Hr2.
    destruct (IH s2 (S cnt) s' cnt' Hloop Hd2 HndRest) as (D' & Hev' & Hend);
      [by exists D2 | done |].
    destruct Hev' as (Hc' & Hr' & Hs' & Hst' & Hd').
    exists (oldest :: D2 ++ D'). split; [|done]. split_and!; [congruence| | |done..].
    + rewrite Hr', Hr2. by rewrite <- !app_assoc.
    + rewrite <- Hpre, Hs2, Hs'. simpl. by rewrite <- app_assoc.
  - (* the entry left the index before *)
    injection Hpre as <- ->.
    assert (Hnot : filename oldest ∉ filename <$> recordings s).
    { unfold distinctFiles in HndL. simpl in HndL. apply NoDup_cons in HndL as [Hn _].
      intros Hin. apply Hn. rewrite fmap_app. apply elem_of_app. right.
      by rewrite sortByTimestamp_perm. }
    rewrite Hrec, (removeFirst_notin _ _ Hnot) in Hs2.
    rewrite Hrem, (firstWith_notin _ _ Hnot) in Hr2. simpl in Hr2.
    rewrite app_nil_r in Hr2.
    destruct (IH s2 (S cnt) s' cnt' Hloop Hd2 HndRest) as (D' & Hev' & Hend);
      [exists (pre ++ D2); by rewrite Hs2, <- app_assoc | done |].
    destruct Hev' as (Hc' & Hr' & Hs' & Hst' & Hd').
    exists (D2 ++ D'). split; [|done]. split_and!; [congruence| | |done..].
    + rewrite Hr', Hr2. by rewrite <- !app_assoc.
    + rewrite Hs2, Hs'. by rewrite <- app_assoc.
Qed.

End LoopEviction.

Lemma updateStorageStats_fuel_evicts n :
  ∀ s s',
    updateStorageStats_fuel n s = Some s' →
    deletable (fs s) → distinctFiles (recordings s) →
    ∃ D, evicts s s' D ∧
      (autoCleanup (config s) = true →
       (maxUsagePercent (config s) <= usagePercent (computeStats (fs s) (recordings s)))%Q →
       (usagePercent (stats s') <= maxUsagePercent (config s) - 10)%Q ∨ recordings s' = []).
Proof.
  induction n as [|n IH]; intros s s' Hrun Hdel Hnd; [discriminate Hrun|].
  assert (Hupd : ∀ a b, updateStorageStats_fuel n a = Some b →
            deletable (fs a) → distinctFiles (recordings a) → ∃ D, evicts a b D).
  { intros a b Hab Hd Hn. destruct (IH a b Hab Hd Hn) as (D & H & _). by exists D. }
  clear IH. simpl in Hrun. unfold updateStorageStats_with in Hrun.
  set (st := computeStats (fs s) (recordings s)) in *.
  set (s1 := set_stats st s) in *.
  destruct (autoCleanup (config s1) && Qle_bool (maxUsagePercent (config s1)) (usagePercent st))
    eqn:Hgo.
  - unfold performCleanup_with in Hrun.
    destruct (cleanupLoop _ _ _ s1 0%nat) as [[s2 cnt]|] eqn:Eloop; [|discriminate Hrun].
    destruct (cleanupLoop_evicts (updateStorageStats_fuel n)
                (maxUsagePercent (config s1) - 10)%Q Hupd
                _ s1 0%nat s2 cnt Eloop) as (D & Hev & Hend);
      [done | by apply distinctFiles_sort | by exists [] | done |].
    exists D. injection Hrun as <-.
    apply (evicts_set_stats st) in Hev. apply (evicts_emit (cleanupComplete cnt)) in Hev.
    simpl. split.
    + destruct (health (stats s2)); try done; by apply evicts_emit.
    + intros _ _. by destruct (health (stats s2)).
  - injection Hrun as <-. exists []. split.
    + apply (evicts_set_stats st). simpl.
      destruct (_calculateHealth _); try apply evicts_emit; by apply evicts_nil.
    + intros Hauto Hle. apply Qle_bool_iff in Hle.
      subst s1 st. cbn [config set_stats] in Hgo.
      rewrite Hauto, Hle in Hgo. discriminate Hgo.
Qed.


(** *** C5 *)

Lemma sorted_prefix_older (D rest : list Recording) i d r :
  StronglySorted byAge (D ++ rest) →
  D !! i = Some d → r ∈ drop (S i) D ++ rest → timestamp d ≤ timestamp r.
Proof.
  intros Hs Hd Hr.
  rewrite <- (take_drop_middle D i d Hd) in Hs.
  rewrite <- app_assoc in Hs. apply StronglySorted_app_1_r in Hs.
  simpl in Hs. apply StronglySorted_inv in Hs as [_ Hall].
  rewrite Forall_forall in Hall. by apply Hall.
Qed.

(** C5, as stated, fails: when the file of the only recording cannot be
    unlinked, eviction logs the failure, goes on and ends with usage above
    the target and the entry still in the index. *)
Lemma C5_undeletable_file_stops_eviction :
  let e1 := mkRecording "rec_1" "CAM1" "a.mp4" 100 60 0 false in
  let disk := mkFS {["a.mp4" := mkFile (31 * 1024 * 1024 * 1024) true]} (Some [e1]) false in
  let s := mk (mkConfig "/rec" 90 true) [e1] (mkStats 0 0 0 0 HEALTHY) disk [] [] in
  autoCleanup (config s) = true ∧
  (maxUsagePercent (config s) <= usagePercent (computeStats (fs s) (recordings s)))%Q ∧
  ∃ s', refresh s = Some s' ∧
    recordings s' = [e1] ∧
    ¬ (usagePercent (stats s') <= maxUsagePercent (config s) - 10)%Q.
Proof.
  simpl. split; [reflexivity|].
  split; [vm_compute; intros Hx; discriminate Hx|].
  eexists. split; [vm_compute; reflexivity|].
  split; [reflexivity|].
  intros H. vm_compute in H. by apply H.
Qed.

(** With two index entries under one filename the entry removed is the
    first one in index order, which need not be the oldest. *)
Lemma eviction_same_filename_removes_newer :
  let eNew := mkRecording "rec_2" "CAM1" "a.mp4" 200 60 0 false in
  let eOld := mkRecording "rec_1" "CAM1" "a.mp4" 100 60 0 false in
  let disk := mkFS {["a.mp4" := mkFile (31 * 1024 * 1024 * 1024) false]}
                   (Some [eNew; eOld]) false in
  let s := mk (mkConfig "/rec" 90 true) [eNew; eOld] (mkStats 0 0 0 0 HEALTHY) disk [] [] in
  ∃ s', refresh s = Some s' ∧ removed s' = [eNew] ∧ recordings s' = [eOld].
Proof. simpl. eexists. split; [vm_compute; reflexivity|]. by split. Qed.

(** Without auto-cleanup a refresh removes nothing, whatever the usage. *)
Lemma refresh_without_autoCleanup s :
  autoCleanup (config s) = false →
  ∃ s', refresh s = Some s' ∧ recordings s' = recordings s ∧ removed s' = removed s.
Proof.
  intros Hoff. unfold refresh, _updateStorageStats. simpl.
  unfold updateStorageStats_with. simpl. rewrite Hoff. simpl.
  eexists. split; [reflexivity|]. by destruct (_calculateHealth _).
Qed.

(** C5, amended: with auto-cleanup enabled, files that can all be
    unlinked and pairwise distinct filenames in the index, a refresh that
    finds usage at or above the ceiling returns; the entries it removed,
    in the order of removal, are an initial segment of the index sorted by
    creation time and what is left is the rest of it, so that no entry is
    removed while a strictly older one remains; and it ends with freshly
    computed usage at most the ceiling minus 10 or with an empty index. *)
Theorem C5_eviction_oldest_first (s : t) :
  autoCleanup (config s) = true →
  deletable (fs s) →
  distinctFiles (recordings s) →
  (maxUsagePercent (config s) <= usagePercent (computeStats (fs s) (recordings s)))%Q →
  ∃ s' D, refresh s = Some s' ∧
    removed s' = removed s ++ D ∧
    sortByTimestamp (recordings s) = D ++ sortByTimestamp (recordings s') ∧
    (∀ i d r, D !! i = Some d → r ∈ drop (S i) D ++ recordings s' →
              timestamp d ≤ timestamp r) ∧
    stats s' = computeStats (fs s') (recordings s') ∧
    ((usagePercent (stats s') <= maxUsagePercent (config s) - 10)%Q ∨
     recordings s' = []).
Proof.
  intros Hauto Hdel Hnd Hfull.
  destruct (updateStorageStats_total s) as (s' & Hrun & _).
  destruct (updateStorageStats_fuel_evicts _ s s' Hrun Hdel Hnd)
    as (D & (Hc & Hr & Hs & Hst & Hd) & Hend).
  exists s', D. split_and!; [done..| |done|by apply Hend].
  intros i d r Hi Hin.
  apply (sorted_prefix_older D (sortByTimestamp (recordings s')) i d r); [|done|].
  - rewrite <- Hs. apply sortByTimestamp_sorted.
  - apply elem_of_app in Hin as [Hin|Hin]; apply elem_of_app; [by left|right].
    by rewrite sortByTimestamp_perm.
Qed.

Lemma C5_eviction_oldest_first_witness :
  let GB := 1024 * 1024 * 1024 in
  let e1 := mkRecording "rec_1" "CAM1" "a.mp4" 100 60 0 false in
  let e2 := mkRecording "rec_2" "CAM1" "b.mp4" 50 60 0 false in
  let e3 := mkRecording "rec_3" "CAM1" "c.mp4" 200 60 0 false in
  let disk := mkFS (<["a.mp4" := mkFile (10 * GB) false]>
                      (<["b.mp4" := mkFile (10 * GB) false]>
                         (<["c.mp4" := mkFile (10 * GB) false]> ∅)))
                   (Some [e1; e2; e3]) false in
  let s := mk (mkConfig "/rec" 90 true) [e1; e2; e3] (mkStats 0 0 0 0 HEALTHY) disk [] [] in
  ∃ s' D, refresh s = Some s' ∧
    removed s' = removed s ++ D ∧
    sortByTimestamp (recordings s) = D ++ sortByTimestamp (recordings s') ∧
    (∀ i d r, D !! i = Some d → r ∈ drop (S i) D ++ recordings s' →
              timestamp d ≤ timestamp r) ∧
    stats s' = computeStats (fs s') (recordings s') ∧
    ((usagePercent (stats s') <= maxUsagePercent (config s) - 10)%Q ∨
     recordings s' = []).
Proof.
  intros GB e1 e2 e3 disk s.
  apply (C5_eviction_oldest_first s).
  - reflexivity.
  - intros file f Hl. simpl in Hl.
    repeat (apply lookup_insert_Some in Hl as [[_ <-]|[_ Hl]]; [reflexivity|]).
    rewrite lookup_empty in Hl. discriminate Hl.
  - unfold distinctFiles. simpl.
    apply (bool_decide_unpack _). vm_compute. exact I.
  - vm_compute. intros Hx. discriminate Hx.
Defined.


End StorageFacts.

(** ** The alarm controller: modes, timers and configuration *)

Module AlarmTimerFacts.
Import AlarmController.

Lemma alarmKey_inj c c' : alarmKey c = alarmKey c' → c = c'.
Proof. unfold alarmKey. intros H. by simplify_eq/=. Qed.

Lemma alarmKey_cooldown c : alarmKey c = "alarm_cooldown" → c = "cooldown".
Proof. intros H. by apply (alarmKey_inj c "cooldown"). Qed.



Lemma stopKeys_lookup_Some (ks : list string) (tm : Timer.timers) id t :
  foldr (λ k tm', (Timer.stop (alarmKey k) tm').2) tm ks !! id = Some t →
  tm !! id = Some t ∧ ∀ k, k ∈ ks → id ≠ alarmKey k.
Proof.
  induction ks as [|k0 ks IH]; simpl.
  - intros H. split; [done|]. by intros k ?%elem_of_nil.
  - intros [Hne H]%TimerFacts.stop_lookup_Some. destruct (IH H) as [Ht Hks].
    split; [done|]. intros k [->|Hk]%elem_of_cons; [done|by apply Hks].
Qed.

Lemma keys_elem (m : gmap string CameraAlarm) c :
  c ∈ map fst (map_to_list m) ↔ is_Some (m !! c).
Proof.
  rewrite list_elem_of_fmap. split.
  - intros ([k v] & -> & Hin). apply elem_of_map_to_list in Hin. by exists v.
  - intros [v Hv]. exists (c, v). split; [done|]. by apply elem_of_map_to_list.
Qed.

Lemma deactivateHw_cameraAlarms a : cameraAlarms (_deactivateHardwareAlarm a) = cameraAlarms a.
Proof. unfold _deactivateHardwareAlarm. by destruct (hardwareInterface a). Qed.

Lemma deactivateHw_state a : state (_deactivateHardwareAlarm a) = state a.
Proof. unfold _deactivateHardwareAlarm. by destruct (hardwareInterface a). Qed.

Lemma deactivateHw_config a : config (_deactivateHardwareAlarm a) = config a.
Proof. unfold _deactivateHardwareAlarm. by destruct (hardwareInterface a). Qed.

Lemma deactivateHw_emitted a : emitted (_deactivateHardwareAlarm a) = emitted a.
Proof. unfold _deactivateHardwareAlarm. by destruct (hardwareInterface a). Qed.

Lemma deactivateHw_hw a :
  hardwareInterface (_deactivateHardwareAlarm a) = hardwareInterface a.
Proof. unfold _deactivateHardwareAlarm. by destruct (hardwareInterface a) eqn:E. Qed.

Lemma deactivateHw_calls a :
  hwCalls (_deactivateHardwareAlarm a) =
  hwCalls a ++ (if hardwareInterface a then [HwDeactivate] else []).
Proof.
  unfold _deactivateHardwareAlarm.
  destruct (hardwareInterface a); simpl; [done|by rewrite app_nil_r].
Qed.

(** What [stop()] with no camera leaves behind. *)
Lemma stop_all_spec (a : t) (tm : Timer.timers) :
  let '(a', tm') := stop None a tm in
  state a' = ARMED ∧ config a' = config a ∧
  cameraAlarms a' = deactivate <$> cameraAlarms a ∧
  hardwareInterface a' = hardwareInterface a ∧
  hwCalls a' = hwCalls a ++ (if hardwareInterface a then [HwDeactivate] else []) ∧
  emitted a' = emitted a ++ [alarmStopped None] ∧
  tm' = foldr (λ k tm', (Timer.stop (alarmKey k) tm').2) tm
          (map fst (map_to_list (cameraAlarms a))).
Proof.
  unfold stop, stopEvery. cbn [emit set_state state config cameraAlarms hardwareInterface hwCalls emitted].
  rewrite deactivateHw_config, deactivateHw_cameraAlarms, deactivateHw_hw,
    deactivateHw_calls, deactivateHw_emitted. done.
Qed.


Lemma disarm_spec (a : t) (tm : Timer.timers) :
  disarm a tm =
  (emit alarmDisarmed (set_state DISARMED (stop None a tm).1), (stop None a tm).2).
Proof. unfold disarm. by destruct (stop None a tm). Qed.

(** ** The auto-stop timers *)

Lemma blocked_dec c a : blocked c a ∨ ¬ blocked c a.
Proof.
  unfold blocked.
  destruct (decide (state a = DISARMED)); [by left; left|].
  destruct (decide (state a = COOLDOWN)); [by left; right; left|].
  destruct (cameraAlarms a !! c) as [[[] ts]|] eqn:E.
  - left. right. right. by eexists.
  - right. intros [?|[?|(ca & [= <-] & ?)]]; done.
  - right. intros [?|[?|(ca & ? & ?)]]; done.
Qed.

Lemma timersMatch_trigger c now s :
  timersMatch s →
  timersMatch ((trigger c now s.1 s.2).1.2, (trigger c now s.1 s.2).2).
Proof.
  destruct s as [a tm]. intros [H1 H2]. cbn [fst snd] in *.
  destruct (blocked_dec c a) as [Hb|Hnb].
  { rewrite AlarmFacts.trigger_rejects by done. by split. }
  rewrite AlarmFacts.trigger_accepts by done. cbn [fst snd].
  assert (Hal : ∀ x, cameraAlarms (emit x (_activateHardwareAlarm
      (set_cameraAlarms (<[c := mkCameraAlarm true now]> (cameraAlarms a))
         (set_state TRIGGERED a)))) = <[c := mkCameraAlarm true now]> (cameraAlarms a)).
  { intros x. unfold _activateHardwareAlarm. simpl. by destruct (hardwareInterface a). }
  split; cbn [fst snd]; rewrite Hal.
  - intros id t c' Hid Hcb.
    apply TimerFacts.start_lookup_Some in Hid as [[-> ->]|[Hne Hid]].
    + simpl in Hcb. injection Hcb as <-. split; [done|].
      exists (mkCameraAlarm true now). by rewrite lookup_insert_eq.
    + destruct (H1 id t c' Hid Hcb) as (-> & ca & Hl & Hact). split; [done|].
      exists ca. rewrite lookup_insert_ne; [done|]. by intros ->.
  - intros c' ca Hl Hact. destruct (decide (c = c')) as [<-|Hne].
    + eexists. split; [apply TimerFacts.start_lookup_eq|done].
    + rewrite lookup_insert_ne in Hl by done.
      destruct (H2 c' ca Hl Hact) as (t & Ht & Hcb). exists t. split; [|done].
      rewrite TimerFacts.start_lookup_ne; [done|]. by intros ?%alarmKey_inj.
Qed.

Lemma onAlarmTimeout_cameraAlarms c a tm :
  cameraAlarms (_onAlarmTimeout c a tm).1 = alter deactivate c (cameraAlarms a).
Proof.
  unfold _onAlarmTimeout. cbn [set_cameraAlarms cameraAlarms].
  destruct (anyActive _); cbn; [done|]. apply deactivateHw_cameraAlarms.
Qed.

Lemma onAlarmTimeout_timers c a tm :
  (_onAlarmTimeout c a tm).2 =
  if anyActive (alter deactivate c (cameraAlarms a)) then tm
  else Timer.start "alarm_cooldown" 5000 Timer.CbCooldown tm.
Proof.
  unfold _onAlarmTimeout. cbn [set_cameraAlarms cameraAlarms]. by destruct (anyActive _).
Qed.

Lemma alter_deactivate_active (m : gmap string CameraAlarm) c c' ca :
  alter deactivate c m !! c' = Some ca → isActive ca = true →
  c' ≠ c ∧ m !! c' = Some ca.
Proof.
  destruct (decide (c = c')) as [<-|Hne].
  - rewrite lookup_alter_eq. destruct (m !! c); [|done]. intros [= <-]. done.
  - rewrite lookup_alter_ne by done. intros H _. split; [by intros ->|done].
Qed.

Lemma timersMatch_fire id s :
  timersMatch s → timersMatch (fire id s.1 s.2).
Proof.
  destruct s as [a tm]. intros [H1 H2]. cbn [fst snd] in *. unfold fire.
  destruct (Timer.expire id tm) as [[cb tm']|] eqn:E; [|by split].
  apply TimerFacts.expire_lookup in E as (t0 & Ht0 & Hcb0 & ->).
  assert (Hkeep : ∀ c ca, cameraAlarms a !! c = Some ca → isActive ca = true →
            (∀ c0, cb = Timer.CbAlarmTimeout c0 → c ≠ c0) →
            ∃ t, delete id tm !! alarmKey c = Some t ∧
                 Timer.callback t = Timer.CbAlarmTimeout c).
  { intros c ca Hl Hact Hc. destruct (H2 c ca Hl Hact) as (t & Ht & Hcb).
    exists t. split; [|done]. rewrite lookup_delete_ne; [done|].
    intros ->. rewrite Ht0 in Ht. injection Ht as ->. rewrite Hcb in Hcb0.
    by apply (Hc c). }
  assert (Hdel : ∀ id' t c, delete id tm !! id' = Some t →
            Timer.callback t = Timer.CbAlarmTimeout c →
            id' ≠ id ∧ id' = alarmKey c ∧
            ∃ ca, cameraAlarms a !! c = Some ca ∧ isActive ca = true).
  { intros id' t c Hl Hcb. apply lookup_delete_Some in Hl as [Hne Hl].
    destruct (H1 id' t c Hl Hcb) as [-> Hx]. done. }
  destruct cb as [c0|c0|c0|].
  1,2,4: split; cbn [fst snd onCooldownEnd set_state cameraAlarms];
    [ intros id' t c Hl Hcb; by destruct (Hdel id' t c Hl Hcb) as (_ & ? & ?)
    | intros c ca Hl Hact; by apply (Hkeep c ca) ].
  (* the timeout of camera [c0] *)
  destruct (H1 id t0 c0 Ht0 Hcb0) as (-> & _).
  split; cbn [fst snd]; rewrite onAlarmTimeout_cameraAlarms, onAlarmTimeout_timers.
  - intros id' t c Hl Hcb.
    assert (delete (alarmKey c0) tm !! id' = Some t) as Hl'.
    { destruct (anyActive _); [done|].
      apply TimerFacts.start_lookup_Some in Hl as [[-> ->]|[_ Hl]]; [done|done]. }
    destruct (Hdel id' t c Hl' Hcb) as (Hne & -> & ca & Hca & Hact).
    split; [done|]. exists ca. split; [|done].
    rewrite lookup_alter_ne; [done|]. by intros ->.
  - intros c ca Hl Hact.
    destruct (anyActive (alter deactivate c0 (cameraAlarms a))) eqn:Hany.
    + apply alter_deactivate_active in Hl as [Hne Hl]; [|done].
      apply (Hkeep c ca Hl Hact). by intros c1 [= <-].
    + assert (anyActive (alter deactivate c0 (cameraAlarms a)) = true); [|congruence].
      apply AlarmFacts.anyActive_spec. by exists c, ca.
Qed.

Lemma timersMatch_stop c s :
  timersMatch s → timersMatch (stop c s.1 s.2).
Proof.
  destruct s as [a tm]. intros [H1 H2]. cbn [fst snd] in *.
  assert (Hone : ∀ c0, timersMatch (stopOne c0 a tm)).
  { intros c0. split; cbn [stopOne fst snd set_cameraAlarms cameraAlarms].
    - intros id t c1 [Hne Hl]%TimerFacts.stop_lookup_Some Hcb.
      destruct (H1 id t c1 Hl Hcb) as (-> & ca & Hca & Hact). split; [done|].
      exists ca. split; [|done]. rewrite lookup_alter_ne; [done|]. by intros ->.
    - intros c1 ca Hl Hact. apply alter_deactivate_active in Hl as [Hne Hl]; [|done].
      destruct (H2 c1 ca Hl Hact) as (t & Ht & Hcb). exists t. split; [|done].
      rewrite TimerFacts.stop_lookup_ne; [done|]. by intros ?%alarmKey_inj. }
  assert (Hall : timersMatch (stopEvery a tm)).
  { split; cbn [stopEvery fst snd set_cameraAlarms cameraAlarms].
    - intros id t c1 [Hl Hks]%stopKeys_lookup_Some Hcb.
      destruct (H1 id t c1 Hl Hcb) as (-> & ca & Hca & Hact).
      destruct (Hks c1); [|done]. apply keys_elem. by exists ca.
    - intros c1 ca. rewrite lookup_fmap.
      destruct (cameraAlarms a !! c1); [|done]. by intros [= <-]. }
  assert (Hwrap : ∀ s1 x, timersMatch s1 →
            timersMatch (emit x (set_state ARMED (_deactivateHardwareAlarm s1.1)), s1.2)).
  { intros [a1 tm1] x [G1 G2].
    split; cbn [fst snd emit set_state cameraAlarms] in *;
      rewrite deactivateHw_cameraAlarms; done. }
  unfold stop.
  destruct c as [c0|]; [destruct (jsTruthy (Some c0))|].
  - apply (Hwrap (stopOne c0 a tm)), Hone.
  - apply (Hwrap (stopEvery a tm)), Hall.
  - apply (Hwrap (stopEvery a tm)), Hall.
Qed.

Lemma timersMatch_step o s : timersMatch s → timersMatch (step o s).
Proof.
  intros H. destruct o as [c now|id|c| |]; unfold step.
  - pose proof (timersMatch_trigger c now s H) as G.
    by destruct (trigger c now s.1 s.2) as [[b a'] tm'].
  - by apply timersMatch_fire.
  - by apply timersMatch_stop.
  - destruct H as [H1 H2]. by split.
  - rewrite disarm_spec. pose proof (timersMatch_stop None s H) as [G1 G2].
    by split.
Qed.

(** X2: the auto-stop timers and the active entries go together in every
    state the operations of the controller reach from a state where they
    do: a pending timeout of a camera sits under the key of that camera,
    whose entry is active, and every active entry has its timeout
    pending, so that no alarm sounds without a timer that will stop it. *)
Theorem exec_timersMatch (ops : list Op) (s : t * Timer.timers) :
  timersMatch s → timersMatch (exec ops s).
Proof.
  revert s. induction ops as [|o ops IH]; intros s H; [done|].
  simpl. apply IH. by apply timersMatch_step.
Qed.

Lemma timersMatch_new cfg : timersMatch (new cfg, ∅).
Proof. split; intros ? ? ?; cbn; by rewrite lookup_empty. Qed.

Lemma exec_timersMatch_witness :
  timersMatch (exec [OpTrigger "A" 0; OpTrigger "B" 1; OpStop (Some "A")]
                    (new (mkConfig 10 true 100), ∅)).
Proof.
  apply (exec_timersMatch [OpTrigger "A" 0; OpTrigger "B" 1; OpStop (Some "A")]
           (new (mkConfig 10 true 100), ∅)).
  split; intros ? ? ?; cbn; by rewrite lookup_empty.
Defined.


(** ** The cooldown after the last alarm *)

Lemma onAlarmTimeout_others c a tm :
  (∃ c' ca, c' ≠ c ∧ cameraAlarms a !! c' = Some ca ∧ isActive ca = true) →
  _onAlarmTimeout c a tm =
  (emit (alarmStopped (Some c))
     (set_cameraAlarms (alter deactivate c (cameraAlarms a)) a), tm).
Proof.
  intros (c' & ca & Hne & Hl & Hact). unfold _onAlarmTimeout.
  cbn [set_cameraAlarms cameraAlarms].
  assert (anyActive (alter deactivate c (cameraAlarms a)) = true) as ->; [|done].
  apply AlarmFacts.anyActive_spec. exists c', ca. by rewrite lookup_alter_ne.
Qed.

Lemma onAlarmTimeout_last c a tm :
  (∀ c' ca, cameraAlarms a !! c' = Some ca → isActive ca = true → c' = c) →
  _onAlarmTimeout c a tm =
  (emit (alarmStopped (Some c))
     (set_state COOLDOWN (_deactivateHardwareAlarm
        (set_cameraAlarms (alter deactivate c (cameraAlarms a)) a))),
   Timer.start "alarm_cooldown" 5000 Timer.CbCooldown tm).
Proof.
  intros Honly. unfold _onAlarmTimeout. cbn [set_cameraAlarms cameraAlarms].
  destruct (anyActive (alter deactivate c (cameraAlarms a))) eqn:Hany; [|done].
  apply AlarmFacts.anyActive_spec in Hany as (c' & ca & Hl & Hact).
  apply alter_deactivate_active in Hl as [Hne Hl]; [|done].
  destruct Hne. by apply (Honly c' ca).
Qed.

(** X3: the end of an alarm.  When the auto-stop timer of a camera runs
    out while the alarm of another camera is active, only the entry of
    the camera is cleared: mode, hardware and timers are as before.  When
    no other alarm is active, the hardware is deactivated, the mode is
    [COOLDOWN] with the 5000 ms cooldown timer pending, every [trigger]
    is refused meanwhile, and the expiry of that timer re-arms the
    controller, after which a [trigger] of any camera is accepted. *)
Theorem timeout_then_cooldown (c : string) (a : t) (tm : Timer.timers) :
  let a1 := (_onAlarmTimeout c a tm).1 in
  let tm1 := (_onAlarmTimeout c a tm).2 in
  cameraAlarms a1 = alter deactivate c (cameraAlarms a) ∧
  emitted a1 = emitted a ++ [alarmStopped (Some c)] ∧
  ((∃ c' ca, c' ≠ c ∧ cameraAlarms a !! c' = Some ca ∧ isActive ca = true) →
     state a1 = state a ∧ hwCalls a1 = hwCalls a ∧ tm1 = tm) ∧
  ((∀ c' ca, cameraAlarms a !! c' = Some ca → isActive ca = true → c' = c) →
     state a1 = COOLDOWN ∧
     hwCalls a1 = hwCalls a ++ (if hardwareInterface a then [HwDeactivate] else []) ∧
     tm1 !! "alarm_cooldown" = Some (Timer.mkTimer 5000 Timer.CbCooldown) ∧
     (∀ k, k ≠ "alarm_cooldown" → tm1 !! k = tm !! k) ∧
     (∀ c' now, trigger c' now a1 tm1 = (false, a1, tm1)) ∧
     let s2 := fire "alarm_cooldown" a1 tm1 in
     state s2.1 = ARMED ∧ s2.2 !! "alarm_cooldown" = None ∧
     ∀ c' now, (trigger c' now s2.1 s2.2).1.1 = true).
Proof.
  intros a1 tm1. subst a1 tm1. split_and!.
  - apply onAlarmTimeout_cameraAlarms.
  - unfold _onAlarmTimeout. cbn [set_cameraAlarms cameraAlarms].
    destruct (anyActive _); cbn; [done|]. by rewrite deactivateHw_emitted.
  - intros H. by rewrite onAlarmTimeout_others.
  - intros Honly. rewrite onAlarmTimeout_last by done.
    cbn [fst snd emit set_state state hwCalls].
    rewrite deactivateHw_calls. cbn [set_cameraAlarms hardwareInterface hwCalls].
    assert (Hfire : fire "alarm_cooldown"
              (emit (alarmStopped (Some c))
                 (set_state COOLDOWN (_deactivateHardwareAlarm
                    (set_cameraAlarms (alter deactivate c (cameraAlarms a)) a))))
              (Timer.start "alarm_cooldown" 5000 Timer.CbCooldown tm) =
            (set_state ARMED (emit (alarmStopped (Some c))
                 (set_state COOLDOWN (_deactivateHardwareAlarm
                    (set_cameraAlarms (alter deactivate c (cameraAlarms a)) a)))),
             delete "alarm_cooldown"
               (Timer.start "alarm_cooldown" 5000 Timer.CbCooldown tm))).
    { unfold fire, Timer.expire. by rewrite TimerFacts.start_lookup_eq. }
    rewrite Hfire. cbn [fst snd set_state state].
    split_and!; try done.
    + apply TimerFacts.start_lookup_eq.
    + intros k Hk. by apply TimerFacts.start_lookup_ne.
    + apply lookup_delete_eq.
    + intros c' now. rewrite AlarmFacts.trigger_accepts; [done|].
      intros [H|[H|(ca & Hl & Hact)]]; [done|done|].
      cbn [set_state emit cameraAlarms] in Hl.
      rewrite deactivateHw_cameraAlarms in Hl. cbn [set_cameraAlarms cameraAlarms] in Hl.
      apply alter_deactivate_active in Hl as [Hne Hl]; [|done].
      destruct Hne. by apply (Honly c' ca).
Qed.

(** Two cameras sounding, then the first and the second timeout. *)
Lemma timeout_then_cooldown_witness :
  let s := exec [OpTrigger "A" 0; OpTrigger "B" 1] (new (mkConfig 10 true 100), ∅) in
  state (_onAlarmTimeout "A" s.1 s.2).1 = TRIGGERED ∧
  let s' := exec [OpTrigger "A" 0] (new (mkConfig 10 true 100), ∅) in
  state (_onAlarmTimeout "A" s'.1 s'.2).1 = COOLDOWN.
Proof.
  split.
  - pose (s := exec [OpTrigger "A" 0; OpTrigger "B" 1] (new (mkConfig 10 true 100), ∅)).
    destruct (timeout_then_cooldown "A" s.1 s.2) as (_ & _ & H & _).
    destruct H as (H & _); [|exact H].
    exists "B", (mkCameraAlarm true 1). split; [done|]. split; reflexivity.
  - pose (s := exec [OpTrigger "A" 0] (new (mkConfig 10 true 100), ∅)).
    destruct (timeout_then_cooldown "A" s.1 s.2) as (_ & _ & _ & H).
    destruct H as (H & _); [|exact H].
    intros c' ca Hl _. destruct (decide (c' = "A")) as [->|Hne]; [done|].
    vm_compute in Hl. 
    change (<["A" := mkCameraAlarm true 0]> (∅ : gmap string CameraAlarm) !! c' = Some ca) in Hl.
    rewrite lookup_insert_ne in Hl by done. by rewrite lookup_empty in Hl.
Defined.


(** ** Configuration updates and the arm/disarm toggle *)

Lemma disarm_inactive a tm c ca :
  cameraAlarms (disarm a tm).1 !! c = Some ca → isActive ca = false.
Proof.
  rewrite disarm_spec. pose proof (stop_all_spec a tm) as H.
  destruct (stop None a tm) as [a1 tm1]. destruct H as (_ & _ & Hal & _).
  cbn [fst emit set_state cameraAlarms]. rewrite Hal, lookup_fmap.
  destruct (cameraAlarms a !! c); [|done]. by intros [= <-].
Qed.

Lemma disarm_config a tm : config (disarm a tm).1 = config a.
Proof.
  rewrite disarm_spec. pose proof (stop_all_spec a tm) as H.
  destruct (stop None a tm) as [a1 tm1]. by destruct H as (_ & Hcfg & _).
Qed.

(** X4: [updateConfig] returns the stored configuration; a volume is
    clamped to 0..100 (and kept when it is in that range); the fields
    that are absent keep their values; [enabled: false] disarms the
    controller (no entry active, every trigger refused), and
    [enabled: true] arms it without touching the entries or the timers. *)
Theorem updateConfig_effect (u : ConfigUpdate) (a : t) (tm : Timer.timers) :
  let cfg := (updateConfig u a tm).1.1 in
  let a' := (updateConfig u a tm).1.2 in
  let tm' := (updateConfig u a tm).2 in
  cfg = config a' ∧
  durationSeconds cfg = default (durationSeconds (config a)) (upd_durationSeconds u) ∧
  enabled cfg = default (enabled (config a)) (upd_enabled u) ∧
  match upd_volumeLevel u with
  | Some v => 0 ≤ volumeLevel cfg ≤ 100 ∧ (0 ≤ v ≤ 100 → volumeLevel cfg = v)
  | None => volumeLevel cfg = volumeLevel (config a)
  end ∧
  match upd_enabled u with
  | Some false =>
      state a' = DISARMED ∧
      (∀ c ca, cameraAlarms a' !! c = Some ca → isActive ca = false) ∧
      (∀ c now, (trigger c now a' tm').1.1 = false)
  | Some true => state a' = ARMED ∧ cameraAlarms a' = cameraAlarms a ∧ tm' = tm
  | None => state a' = state a ∧ cameraAlarms a' = cameraAlarms a ∧ tm' = tm
  end.
Proof.
  intros cfg a' tm'. subst cfg a' tm'. unfold updateConfig.
  destruct u as [d e v]. cbn [upd_durationSeconds upd_enabled upd_volumeLevel].
  destruct e as [[]|]; cbn [negb].
  - (* enabled: true *)
    destruct d, v; cbn; split_and!; try done; lia.
  - (* enabled: false *)
    match goal with |- context [disarm ?x tm] => set (a1 := x) end.
    pose proof (AlarmFacts.disarm_state a1 tm) as Hst.
    pose proof (disarm_config a1 tm) as Hcfg.
    pose proof (disarm_inactive a1 tm) as Hin.
    destruct (disarm a1 tm) as [a2 tm2]. cbn [fst snd] in *.
    assert (Hrej : ∀ x c now, state x = DISARMED → (trigger c now x tm2).1.1 = false).
    { intros x c now Hx. rewrite AlarmFacts.trigger_rejects; [done|by left]. }
    subst a1. destruct d, v; cbn [fst snd set_config config state cameraAlarms
      durationSeconds enabled volumeLevel default] in *; rewrite ?Hcfg; cbn;
      split_and!; try done; try lia; intros; by apply Hrej.
  - destruct d, v; cbn; split_and!; try done; lia.
Qed.

Lemma toggle_eq a tm :
  toggle a tm =
  if decide (state a = DISARMED) then (ARMED, arm a, tm)
  else (DISARMED, (disarm a tm).1, (disarm a tm).2).
Proof.
  unfold toggle. destruct (decide (state a = DISARMED)); [done|].
  pose proof (AlarmFacts.disarm_state a tm) as Hst.
  destruct (disarm a tm) as [a2 tm2]. cbn [fst snd] in *. by rewrite Hst.
Qed.

(** [toggle()] returns the mode it leaves, which is [ARMED] when the
    controller was disarmed and [DISARMED] in every other case, where no
    entry is left active; a second [toggle()] then arms again. *)
Theorem toggle_flips (a : t) (tm : Timer.timers) :
  let r := toggle a tm in
  r.1.1 = state r.1.2 ∧
  r.1.1 = (if decide (state a = DISARMED) then ARMED else DISARMED) ∧
  (r.1.1 = DISARMED →
     (∀ c ca, cameraAlarms r.1.2 !! c = Some ca → isActive ca = false) ∧
     (toggle r.1.2 r.2).1.1 = ARMED).
Proof.
  intros r. subst r. rewrite (toggle_eq a tm).
  destruct (decide (state a = DISARMED)) as [E|E]; cbn [fst snd].
  - split_and!; try done.
  - split_and!; [by rewrite AlarmFacts.disarm_state|done|]. intros _.
    split; [apply disarm_inactive|].
    rewrite toggle_eq, decide_True; [done|apply AlarmFacts.disarm_state].
Qed.

Lemma toggle_flips_witness :
  (toggle (toggle (exec [OpTrigger "A" 0] (new (mkConfig 10 true 100), ∅)).1 ∅).1.2
          (toggle (exec [OpTrigger "A" 0] (new (mkConfig 10 true 100), ∅)).1 ∅).2).1.1
  = ARMED.
Proof.
  apply (toggle_flips (exec [OpTrigger "A" 0] (new (mkConfig 10 true 100), ∅)).1 ∅).
  reflexivity.
Defined.

(** ** Disarming *)












End AlarmTimerFacts.

(** ** The recording controller: pending events, forced stops, full cycle *)

Module RecordingCycleFacts.
Import RecordingController.
Import RecordingFacts.

Lemma recordingKey_inj c c' : recordingKey c = recordingKey c' → c = c'.
Proof. unfold recordingKey. intros H. by simplify_eq/=. Qed.

Lemma takePending_app c l l' :
  is_Some (takePending c l) → is_Some (takePending c (l ++ l')).
Proof.
  induction l as [|p l IH]; simpl; [by intros [? ?]|].
  destruct (String.eqb (save_cameraId p) c); [by eexists|].
  destruct (takePending c l) as [[q l2]|]; [|by intros [? ?]].
  intros _. destruct IH as [[q' l3] ->]; by eexists.
Qed.

Lemma takePending_snoc c l info :
  is_Some (takePending c (l ++ [mkPendingSave c info])).
Proof.
  induction l as [|p l IH]; simpl.
  - rewrite String.eqb_refl. by eexists.
  - destruct (String.eqb (save_cameraId p) c); [by eexists|].
    destruct IH as [[q l2] ->]. by eexists.
Qed.

Lemma takePending_rest c0 c l p rest :
  takePending c0 l = Some (p, rest) → c ≠ c0 →
  is_Some (takePending c l) → is_Some (takePending c rest).
Proof.
  revert p rest. induction l as [|x l IH]; intros p rest; simpl; [done|].
  destruct (String.eqb (save_cameraId x) c0) eqn:E0.
  - intros [= <- <-] Hne. apply String.eqb_eq in E0.
    assert (String.eqb (save_cameraId x) c = false) as ->.
    { apply String.eqb_neq. congruence. }
    destruct (takePending c l) as [[q l2]|]; [by eexists|by intros [? ?]].
  - destruct (takePending c0 l) as [[q l2]|]; [|done].
    intros [= <- <-] Hne. simpl.
    destruct (String.eqb (save_cameraId x) c); [by eexists|].
    intros H. destruct (takePending c l) as [[q' l3]|] eqn:E; [|by destruct H].
    destruct (IH q l2 eq_refl Hne) as [[q'' l4] ->]; by eexists.
Qed.

Lemma getCameraState_pending c r : pendingSaves (getCameraState c r).2 = pendingSaves r.
Proof. by rewrite getCameraState_eq. Qed.

Lemma startFFmpeg_pending c url out r :
  pendingSaves (_startFFmpegRecording c url out r) = pendingSaves r.
Proof. unfold _startFFmpegRecording. destruct url; [destruct (jsTruthy _)|]; done. Qed.

Lemma startRecording_pending c url now base r tm :
  pendingSaves (startRecording c url now base r tm).1.2 = pendingSaves r.
Proof.
  unfold startRecording. rewrite getCameraState_eq.
  destruct (decide _); [done|]. cbn [fst snd emit pendingSaves].
  by rewrite startFFmpeg_pending.
Qed.

Lemma enterReset_pending c r tm : pendingSaves (enterReset c r tm).1 = pendingSaves r.
Proof. unfold enterReset, _onReset. by rewrite !getCameraState_eq. Qed.

Lemma onResetEnd_pending c r : pendingSaves (onResetEnd c r) = pendingSaves r.
Proof. unfold onResetEnd. by rewrite getCameraState_eq. Qed.

Lemma handleRecordingError_pending c r tm :
  pendingSaves (_handleRecordingError c r tm).1 = pendingSaves r.
Proof. unfold _handleRecordingError, _onReset. by rewrite !getCameraState_eq. Qed.

Lemma forceStop_pending c r tm : pendingSaves (forceStop c r tm).1 = pendingSaves r.
Proof. unfold forceStop. by rewrite getCameraState_eq. Qed.

(** The suspended saves after [_onTimerEnd]. *)
Lemma onTimerEnd_pending c r tm :
  (phase c r ≠ RECORDING → pendingSaves (_onTimerEnd c r tm).1 = pendingSaves r) ∧
  (phase c r = RECORDING →
   ∀ d, startTime (default idleState (cameraStates r !! c)) = Some d →
     pendingSaves (_onTimerEnd c r tm).1 =
     pendingSaves r ++
       [mkPendingSave c
          (StorageManager.mkRecordingInfo c
             (default "" (currentFile (default idleState (cameraStates r !! c))))
             (getTime d) (durationSeconds (config r)))]) ∧
  (phase c r = RECORDING →
   startTime (default idleState (cameraStates r !! c)) = None →
   pendingSaves (_onTimerEnd c r tm).1 = pendingSaves r).
Proof.
  unfold _onTimerEnd. rewrite getCameraState_eq. rewrite state_default.
  destruct (decide (phase c r ≠ RECORDING)) as [Hn|Hrec]; simpl.
  - split_and!; [done|done..].
  - assert (phase c r = RECORDING) as Hr by (by destruct (decide (phase c r = RECORDING))).
    unfold _saveRecording. rewrite getCameraState_eq. simpl.
    rewrite lookup_insert_eq. simpl.
    split_and!; [done| |].
    + intros _ d ->. done.
    + intros _ ->. by rewrite enterReset_pending.
Qed.

Lemma saveComplete_pending c now rand r tm sm r' tm' sm' :
  saveComplete c now rand r tm sm = Some (r', tm', sm') →
  ∃ p, takePending c (pendingSaves r) = Some (p, pendingSaves r').
Proof.
  unfold saveComplete.
  destruct (takePending c (pendingSaves r)) as [[p rest]|]; [|done].
  destruct (StorageManager.addRecording _ _ _ _) as [[e s1|s1]|]; [| |done].
  - rewrite getCameraState_eq. simpl.
    match goal with |- context [enterReset c ?r1 tm] =>
      pose proof (enterReset_pending c r1 tm) as Hp;
      destruct (enterReset c r1 tm) as [r3 tm3] end.
    simpl in *. intros [= <- <- <-]. exists p. by rewrite Hp.
  - match goal with |- context [enterReset c ?r1 tm] =>
      pose proof (enterReset_pending c r1 tm) as Hp;
      destruct (enterReset c r1 tm) as [r3 tm3] end.
    simpl in *. intros [= <- <- <-]. exists p. by rewrite Hp.
Qed.

(** *** No camera is left waiting for nothing *)

Lemma alive_update w r' tm' sm' c0 cs' :
  alive w →
  cameraStates r' = <[c0 := cs']> (cameraStates (rc w)) →
  match state cs' with
  | IDLE => True
  | RECORDING =>
    ∃ t, tm' !! recordingKey c0 = Some t ∧ Timer.callback t = Timer.CbRecordingEnd c0
  | SAVING => is_Some (takePending c0 (pendingSaves r'))
  | RESET => ∃ t, tm' !! resetKey c0 = Some t ∧ Timer.callback t = Timer.CbReset c0
  | LOCKED => False
  end →
  (∀ c k t, c ≠ c0 → tm w !! k = Some t →
     (k = recordingKey c ∧ Timer.callback t = Timer.CbRecordingEnd c) ∨
     (k = resetKey c ∧ Timer.callback t = Timer.CbReset c) →
     tm' !! k = Some t) →
  (∀ c, c ≠ c0 → is_Some (takePending c (pendingSaves (rc w))) →
        is_Some (takePending c (pendingSaves r'))) →
  alive (mkWorld r' tm' sm').
Proof.
  intros Hal Hcs H0 Htm Hp c. cbn [rc tm].
  rewrite (phase_of_insert c c0 cs' (rc w) r' Hcs).
  destruct (decide (c = c0)) as [->|Hne]; [done|].
  specialize (Hal c). destruct (phase c (rc w)); try done.
  - destruct Hal as (t & Ht & Hcb). exists t. split; [|done].
    apply (Htm c); [done|done|by left].
  - by apply Hp.
  - destruct Hal as (t & Ht & Hcb). exists t. split; [|done].
    apply (Htm c); [done|done|by right].
Qed.

Lemma alive_same_phase w c0 k0 t0 :
  alive w → tm w !! k0 = Some t0 →
  (∀ c, Timer.callback t0 ≠ Timer.CbReset c) →
  phase c0 (rc w) ≠ RECORDING →
  match phase c0 (rc w) with
  | IDLE => True
  | RECORDING =>
    ∃ t, delete k0 (tm w) !! recordingKey c0 = Some t ∧
         Timer.callback t = Timer.CbRecordingEnd c0
  | SAVING => is_Some (takePending c0 (pendingSaves (rc w)))
  | RESET => ∃ t, delete k0 (tm w) !! resetKey c0 = Some t ∧
                  Timer.callback t = Timer.CbReset c0
  | LOCKED => False
  end.
Proof.
  intros Hal Hk0 Hcb0 Hnr. specialize (Hal c0).
  destruct (phase c0 (rc w)); try done.
  destruct Hal as (t & Ht & Hcb). exists t. split; [|done].
  rewrite lookup_delete_ne; [done|]. intros ->.
  rewrite Hk0 in Ht. injection Ht as ->. by apply (Hcb0 c0).
Qed.

Lemma key_cases_ne_recordingKey c c0 k (t : Timer.timer) :
  c ≠ c0 →
  (k = recordingKey c ∧ Timer.callback t = Timer.CbRecordingEnd c) ∨
  (k = resetKey c ∧ Timer.callback t = Timer.CbReset c) →
  k ≠ recordingKey c0.
Proof.
  intros Hne [[-> _]|[-> _]].
  - by intros ?%recordingKey_inj.
  - intros E. by apply (recordingKey_ne_resetKey c0 c).
Qed.

Lemma key_cases_ne_resetKey c c0 k (t : Timer.timer) :
  c ≠ c0 →
  (k = recordingKey c ∧ Timer.callback t = Timer.CbRecordingEnd c) ∨
  (k = resetKey c ∧ Timer.callback t = Timer.CbReset c) →
  k ≠ resetKey c0.
Proof.
  intros Hne [[-> _]|[-> _]].
  - apply recordingKey_ne_resetKey.
  - by intros ?%resetKey_inj.
Qed.

(** A timer other than the expired one, which ran [cb0], is still there. *)
Lemma key_cases_delete (tm0 : Timer.timers) c c0 k k0 t t0 :
  c ≠ c0 → tm0 !! k0 = Some t0 →
  (Timer.callback t0 = Timer.CbRecordingEnd c0 ∨ Timer.callback t0 = Timer.CbReset c0 ∨
   (∀ c1, Timer.callback t0 ≠ Timer.CbRecordingEnd c1 ∧
          Timer.callback t0 ≠ Timer.CbReset c1)) →
  tm0 !! k = Some t →
  (k = recordingKey c ∧ Timer.callback t = Timer.CbRecordingEnd c) ∨
  (k = resetKey c ∧ Timer.callback t = Timer.CbReset c) →
  delete k0 tm0 !! k = Some t.
Proof.
  intros Hne Hk0 Hcb0 Hk Hcases. rewrite lookup_delete_ne; [done|].
  intros ->. rewrite Hk0 in Hk. injection Hk as ->.
  destruct Hcb0 as [H|[H|H]], Hcases as [[_ H']|[_ H']]; rewrite H' in *;
    try congruence; by destruct (H c).
Qed.

Lemma step_alive o w w' : alive w → step o w = Some w' → alive w'.
Proof.
  intros Hal Hstep.
  destruct o as [c0 url now|id0|c0 now rand|c0|c0]; simpl in Hstep.
  - (* startRecording *)
    pose proof (startRecording_pending c0 url now (StorageManager.getBasePath (sm w))
                  (rc w) (tm w)) as Hpend.
    destruct (startRecording c0 url now _ (rc w) (tm w)) as [[b r'] tm'] eqn:E.
    injection Hstep as <-. cbn [fst snd] in Hpend.
    destruct (startRecording_states _ _ _ _ _ _ _ _ _ E)
      as [(_ & -> & ->) | (Hidle & (cs' & Hcs & Hst & Hsome) & ->)];
      [by destruct w|].
    apply (alive_update w r' _ (sm w) c0 cs' Hal Hcs).
    + rewrite Hst. eexists. split; [apply TimerFacts.start_lookup_eq|done].
    + intros c k t Hne Hk Hcases. rewrite TimerFacts.start_lookup_ne; [done|].
      apply not_eq_sym. by apply (key_cases_ne_recordingKey c c0 k t).
    + intros c _. by rewrite Hpend.
  - (* expiry of a timer *)
    injection Hstep as <-. unfold fire.
    destruct (Timer.expire id0 (tm w)) as [[cb tm0]|] eqn:E; [|done].
    apply TimerFacts.expire_lookup in E as (t0 & Hl0 & Hcb0 & ->).
    destruct cb as [c0|c0|c0|].
    + (* _onTimerEnd *)
      pose proof (onTimerEnd_pending c0 (rc w) (delete id0 (tm w))) as (Hp1 & Hp2 & Hp3).
      pose proof (onTimerEnd_states c0 (rc w) (delete id0 (tm w))) as Hst.
      destruct (_onTimerEnd c0 (rc w) (delete id0 (tm w))) as [r' tm'] eqn:E.
      cbn [fst snd] in *.
      destruct Hst as [(Hn & Hcs & ->) | (Hrec & [(Hsome & (cs' & Hcs & Hst) & ->) |
                                                  (Hnone & (cs' & Hcs & Hst) & ->)])].
      * apply (alive_update w r' _ (sm w) c0 _ Hal Hcs).
        -- rewrite state_default, (Hp1 Hn).
           apply (alive_same_phase w c0 id0 t0 Hal Hl0); [|done].
           intros c. by rewrite Hcb0.
        -- intros c k t Hne Hk Hcases.
           apply (key_cases_delete (tm w) c c0 k id0 t t0); try done. by left.
        -- intros c _. by rewrite Hp1.
      * destruct Hsome as [d Hd].
        apply (alive_update w r' _ (sm w) c0 cs' Hal Hcs).
        -- rewrite Hst, (Hp2 Hrec d Hd). apply takePending_snoc.
        -- intros c k t Hne Hk Hcases.
           apply (key_cases_delete (tm w) c c0 k id0 t t0); try done. by left.
        -- intros c _. rewrite (Hp2 Hrec d Hd). apply takePending_app.
      * apply (alive_update w r' _ (sm w) c0 cs' Hal Hcs).
        -- rewrite Hst. eexists. split; [apply TimerFacts.start_lookup_eq|done].
        -- intros c k t Hne Hk Hcases. rewrite TimerFacts.start_lookup_ne.
           ++ apply (key_cases_delete (tm w) c c0 k id0 t t0); try done. by left.
           ++ apply not_eq_sym. by apply (key_cases_ne_resetKey c c0 k t).
        -- intros c _. by rewrite (Hp3 Hrec Hnone).
    + (* the reset closure *)
      destruct (onResetEnd_states c0 (rc w)) as (cs' & Hcs & Hst).
      apply (alive_update w _ _ (sm w) c0 cs' Hal Hcs).
      * by rewrite Hst.
      * intros c k t Hne Hk Hcases.
        apply (key_cases_delete (tm w) c c0 k id0 t t0); try done. right. by left.
      * intros c _. by rewrite onResetEnd_pending.
    + intros c. cbn [rc tm]. specialize (Hal c).
      destruct (phase c (rc w)); try done;
        destruct Hal as (t & Ht & Hcb); exists t; (split; [|done]);
        (rewrite lookup_delete_ne; [done|]); intros ->;
        rewrite Hl0 in Ht; injection Ht as ->; congruence.
    + intros c. cbn [rc tm]. specialize (Hal c).
      destruct (phase c (rc w)); try done;
        destruct Hal as (t & Ht & Hcb); exists t; (split; [|done]);
        (rewrite lookup_delete_ne; [done|]); intros ->;
        rewrite Hl0 in Ht; injection Ht as ->; congruence.
  - (* completion of a save *)
    destruct (saveComplete c0 now rand (rc w) (tm w) (sm w)) as [[[r' tm'] sm']|] eqn:E;
      [|done].
    injection Hstep as <-.
    destruct (saveComplete_pending _ _ _ _ _ _ _ _ _ E) as (p & Hp).
    destruct (saveComplete_states _ _ _ _ _ _ _ _ _ E) as (cs' & Hcs & Hst & ->).
    apply (alive_update w r' _ sm' c0 cs' Hal Hcs).
    + rewrite Hst. eexists. split; [apply TimerFacts.start_lookup_eq|done].
    + intros c k t Hne Hk Hcases. rewrite TimerFacts.start_lookup_ne; [done|].
      apply not_eq_sym. by apply (key_cases_ne_resetKey c c0 k t).
    + intros c Hne. by apply (takePending_rest c0 c _ p).
  - (* capture error *)
    pose proof (handleRecordingError_pending c0 (rc w) (tm w)) as Hpend.
    destruct (handleRecordingError_states c0 (rc w) (tm w)) as (cs' & Hcs & Hst & Htm).
    destruct (_handleRecordingError c0 (rc w) (tm w)) as [r' tm'] eqn:E.
    injection Hstep as <-. cbn [fst snd] in *. subst tm'.
    apply (alive_update w r' _ (sm w) c0 cs' Hal Hcs).
    + rewrite Hst. eexists. split; [apply TimerFacts.start_lookup_eq|done].
    + intros c k t Hne Hk Hcases. rewrite TimerFacts.start_lookup_ne.
      * rewrite TimerFacts.stop_lookup_ne; [done|].
        apply not_eq_sym. by apply (key_cases_ne_recordingKey c c0 k t).
      * apply not_eq_sym. by apply (key_cases_ne_resetKey c c0 k t).
    + intros c _. by rewrite Hpend.
  - (* forceStop *)
    pose proof (forceStop_pending c0 (rc w) (tm w)) as Hpend.
    destruct (forceStop_states c0 (rc w) (tm w)) as (cs' & Hcs & Hst & Htm).
    destruct (forceStop c0 (rc w) (tm w)) as [r' tm'] eqn:E.
    injection Hstep as <-. cbn [fst snd] in *. subst tm'.
    apply (alive_update w r' _ (sm w) c0 cs' Hal Hcs).
    + by rewrite Hst.
    + intros c k t Hne Hk Hcases. rewrite !TimerFacts.stop_lookup_ne; [done| |].
      * apply not_eq_sym. by apply (key_cases_ne_recordingKey c c0 k t).
      * apply not_eq_sym. by apply (key_cases_ne_resetKey c c0 k t).
    + intros c _. by rewrite Hpend.
Qed.

Lemma alive_init cfg storage : alive (init cfg storage).
Proof. intros c. by rewrite phase_lookup. Qed.

(** X5: no camera is left waiting for nothing.  In every world the
    operations of the lifecycle (start requests, timer expiries, save
    completions, capture errors, forced stops) reach from a world where
    it holds, a camera in [RECORDING] has its duration timer pending, a
    camera in [SAVING] has a suspended save that will complete, a camera
    in [RESET] has its reset timer pending, and no camera is [LOCKED]. *)
Theorem exec_alive (ops : list Op) (w w' : World) :
  alive w → exec ops w = Some w' → alive w'.
Proof.
  revert w. induction ops as [|o ops IH]; intros w Hal H; simpl in H.
  - by injection H as <-.
  - destruct (step o w) as [w1|] eqn:E; [|done].
    apply (IH w1); [by apply (step_alive o w)|done].
Qed.

Lemma exec_alive_witness :
  let storage := StorageManager.new (StorageManager.mkConfig "/rec" 90 true)
                   (StorageManager.mkFS ∅ None false) in
  let t0 := mkDate 0 2026 0 4 14 32 10 0 in
  ∃ w', exec [OpStart "CAM1" None t0; OpTimer (recordingKey "CAM1")]
             (init (mkConfig 60 3) storage) = Some w' ∧
        phase "CAM1" (rc w') = SAVING ∧ alive w'.
Proof.
  eexists. split; [reflexivity|]. split; [reflexivity|].
  eapply (exec_alive [OpStart "CAM1" None (mkDate 0 2026 0 4 14 32 10 0);
                      OpTimer (recordingKey "CAM1")]
            (init (mkConfig 60 3)
               (StorageManager.new (StorageManager.mkConfig "/rec" 90 true)
                  (StorageManager.mkFS ∅ None false)))).
  - intros c. reflexivity.
  - reflexivity.
Defined.


(** *** Forced stops *)

(** X6: [forceStop(cameraId)] brings the camera back to [IDLE] from any
    phase: its file and start time are cleared and its stream address is
    kept, its capture process is forgotten, neither its duration timer
    nor its reset timer is pending any more; the other cameras, the
    other timers, the suspended saves and the events are untouched; and
    the next start request for the camera is accepted. *)
Theorem forceStop_resets (c : string) (r : t) (tm : Timer.timers) :
  let r' := (forceStop c r tm).1 in
  let tm' := (forceStop c r tm).2 in
  cameraStates r' !! c =
    Some (mkCameraState IDLE None None
            (rtspUrl (default idleState (cameraStates r !! c)))) ∧
  (∀ c', c' ≠ c → cameraStates r' !! c' = cameraStates r !! c') ∧
  activeProcesses r' = delete c (activeProcesses r) ∧
  pendingSaves r' = pendingSaves r ∧
  emitted r' = emitted r ∧
  tm' !! recordingKey c = None ∧
  tm' !! resetKey c = None ∧
  (∀ k, k ≠ recordingKey c → k ≠ resetKey c → tm' !! k = tm !! k) ∧
  (∀ url now base, (startRecording c url now base r' tm').1.1 = true).
Proof.
  intros r' tm'. subst r' tm'. unfold forceStop. rewrite getCameraState_eq.
  cbn [fst snd putCameraState _stopFFmpegRecording set_activeProcesses set_cameraStates
       cameraStates activeProcesses pendingSaves emitted].
  split_and!; try done.
  - by rewrite lookup_insert_eq.
  - intros c' Hne. by rewrite !lookup_insert_ne.
  - rewrite TimerFacts.stop_lookup_ne by apply not_eq_sym, recordingKey_ne_resetKey.
    apply TimerFacts.stop_lookup_eq.
  - apply TimerFacts.stop_lookup_eq.
  - intros k Hk1 Hk2. by rewrite !TimerFacts.stop_lookup_ne.
  - intros url now base.
    match goal with |- context [startRecording c url now base ?r1 ?tm1] =>
      destruct (startRecording_idle c url now base r1 tm1) as (r2 & tm2 & -> & _) end;
      [|done].
    rewrite phase_lookup. cbn. by rewrite lookup_insert_eq.
Qed.

Lemma forceStop_lookup c r tm :
  (∃ cs, cameraStates (forceStop c r tm).1 !! c = Some cs ∧
         state cs = IDLE ∧ currentFile cs = None ∧ startTime cs = None) ∧
  (∀ c', c' ≠ c → cameraStates (forceStop c r tm).1 !! c' = cameraStates r !! c') ∧
  activeProcesses (forceStop c r tm).1 = delete c (activeProcesses r).
Proof.
  unfold forceStop. rewrite getCameraState_eq.
  cbn [fst snd putCameraState _stopFFmpegRecording set_activeProcesses set_cameraStates
       cameraStates activeProcesses].
  split_and!; [|intros c' Hne; by rewrite !lookup_insert_ne|done].
  eexists. split; [apply lookup_insert_eq|done].
Qed.

(** The loop of [stopAll]. *)
Lemma stopAll_loop (order : list string) (r : t) (tm : Timer.timers) c :
  let r' := (foldl (λ s c, forceStop c s.1 s.2) (r, tm) order).1 in
  (c ∈ order →
     (∃ cs, cameraStates r' !! c = Some cs ∧
            state cs = IDLE ∧ currentFile cs = None ∧ startTime cs = None) ∧
     activeProcesses r' !! c = None) ∧
  (c ∉ order → cameraStates r' !! c = cameraStates r !! c).
Proof.
  induction order as [|c0 order IH] using rev_ind; cbn zeta.
  - split; [by intros ?%elem_of_nil|done].
  - rewrite foldl_snoc.
    set (s := foldl (λ s c, forceStop c s.1 s.2) (r, tm) order) in *.
    destruct (forceStop_lookup c0 s.1 s.2) as ((cs0 & Hcs0 & Hclean) & Hoth & Hproc).
    cbn zeta in IH. destruct IH as [IH1 IH2].
    destruct (decide (c = c0)) as [->|Hne].
    + split; [|intros Hn; destruct Hn; apply elem_of_app; right; by left].
      intros _. split; [by exists cs0|]. rewrite Hproc. apply lookup_delete_eq.
    + rewrite (Hoth c Hne), Hproc, lookup_delete_ne by done. split.
      * intros [Hin|Hin%list_elem_of_singleton]%elem_of_app; [by apply IH1|done].
      * intros Hn. apply IH2. intros Hin. apply Hn, elem_of_app. by left.
Qed.

(** X7: [stopAll()], whose loop visits every known camera, leaves every
    camera [IDLE] with no file and no start time, no capture process of
    a visited camera, and an empty timer table; every start request is
    accepted afterwards. *)
Theorem stopAll_stops (order : list string) (r : t) (tm : Timer.timers) :
  (∀ c, is_Some (cameraStates r !! c) → c ∈ order) →
  let r' := (stopAll order r tm).1 in
  (stopAll order r tm).2 = ∅ ∧
  (∀ c, phase c r' = IDLE) ∧
  (∀ c cs, cameraStates r' !! c = Some cs → currentFile cs = None ∧ startTime cs = None) ∧
  (∀ c, c ∈ order → activeProcesses r' !! c = None) ∧
  (∀ c url now base, (startRecording c url now base r' ∅).1.1 = true).
Proof.
  intros Hcover r'. subst r'. unfold stopAll, Timer.stopAll. cbn [fst snd].
  assert (Hidle : ∀ c, phase c (foldl (λ s c, forceStop c s.1 s.2) (r, tm) order).1 = IDLE).
  { intros c. rewrite phase_lookup.
    destruct (stopAll_loop order r tm c) as [H1 H2]. cbn zeta in *.
    destruct (decide (c ∈ order)) as [Hin|Hn].
    - destruct (H1 Hin) as [(cs & -> & Hst & _) _]. done.
    - rewrite (H2 Hn). destruct (cameraStates r !! c) eqn:E; [|done].
      destruct Hn. apply Hcover. by eexists. }
  split_and!; try done.
  - intros c cs Hl. destruct (stopAll_loop order r tm c) as [H1 H2]. cbn zeta in *.
    destruct (decide (c ∈ order)) as [Hin|Hn].
    + destruct (H1 Hin) as [(cs' & Hl' & _ & Hf & Hs) _]. by simplify_eq.
    + rewrite (H2 Hn) in Hl. destruct Hn. apply Hcover. by eexists.
  - intros c Hin. by destruct (proj1 (stopAll_loop order r tm c) Hin).
  - intros c url now base.
    match goal with |- context [startRecording c url now base ?r1 ?tm1] =>
      destruct (startRecording_idle c url now base r1 tm1) as (r2 & tm2 & -> & _) end;
      [apply Hidle|done].
Qed.

Lemma stopAll_stops_witness :
  let t0 := mkDate 0 2026 0 4 14 32 10 0 in
  let s := startRecording "CAM1" None t0 "/rec" (new (mkConfig 60 3)) ∅ in
  (stopAll ["CAM1"] s.1.2 s.2).2 = ∅ ∧
  phase "CAM1" (stopAll ["CAM1"] s.1.2 s.2).1 = IDLE.
Proof.
  pose (s := startRecording "CAM1" None (mkDate 0 2026 0 4 14 32 10 0) "/rec"
               (new (mkConfig 60 3)) ∅).
  destruct (stopAll_stops ["CAM1"] s.1.2 s.2) as (H1 & H2 & _).
  - intros c [cs Hc]. destruct (decide (c = "CAM1")) as [->|Hne]; [by left|].
    vm_compute in Hc.
    change (<["CAM1" := mkCameraState RECORDING (Some "CAM1_2026-01-04_14-32-10.mp4")
                          (Some (mkDate 0 2026 0 4 14 32 10 0)) None]>
              (∅ : gmap string CameraState) !! c = Some cs) in Hc.
    rewrite lookup_insert_ne in Hc by done. by rewrite lookup_empty in Hc.
  - split; [exact H1|apply H2].
Defined.


(** *** One full cycle *)

Lemma takePending_snoc_none c l info :
  takePending c l = None →
  takePending c (l ++ [mkPendingSave c info]) = Some (mkPendingSave c info, l).
Proof.
  induction l as [|p l IH]; simpl.
  - by rewrite String.eqb_refl.
  - destruct (String.eqb (save_cameraId p) c); [done|].
    destruct (takePending c l) as [[q l2]|]; [done|]. intros _. by rewrite IH.
Qed.

Lemma onTimerEnd_present c r tm cs d :
  cameraStates r !! c = Some cs → state cs = RECORDING → startTime cs = Some d →
  _onTimerEnd c r tm =
  (set_pendingSaves
     (pendingSaves r ++
        [mkPendingSave c
           (StorageManager.mkRecordingInfo c (default "" (currentFile cs)) (getTime d)
              (durationSeconds (config r)))])
     (putCameraState c (mkCameraState SAVING (currentFile cs) (startTime cs) (rtspUrl cs))
        (_stopFFmpegRecording c r)), tm).
Proof.
  intros Hl Hst Hd. unfold _onTimerEnd. rewrite (getCameraState_present _ _ _ Hl).
  rewrite decide_False by (intros H; by apply H).
  unfold _saveRecording.
  erewrite getCameraState_present; [|cbn; apply lookup_insert_eq].
  cbn [startTime]. by rewrite Hd.
Qed.

Lemma onTimerEnd_not_recording c r tm cs :
  cameraStates r !! c = Some cs → state cs ≠ RECORDING → _onTimerEnd c r tm = (r, tm).
Proof.
  intros Hl Hst. unfold _onTimerEnd. rewrite (getCameraState_present _ _ _ Hl).
  by rewrite decide_True.
Qed.

Lemma enterReset_present c r tm cs :
  cameraStates r !! c = Some cs →
  enterReset c r tm =
  (putCameraState c (mkCameraState RESET (currentFile cs) (startTime cs) (rtspUrl cs)) r,
   Timer.start (resetKey c) (resetDelayMs r) (Timer.CbReset c) tm).
Proof.
  intros Hl. unfold enterReset, _onReset. rewrite (getCameraState_present _ _ _ Hl).
  erewrite getCameraState_present; [|cbn; apply lookup_insert_eq]. done.
Qed.

Lemma saveComplete_present c now rand r tm sm cs p rest :
  cameraStates r !! c = Some cs →
  takePending c (pendingSaves r) = Some (p, rest) →
  saveComplete c now rand r tm sm =
  match StorageManager.addRecording (save_info p) now rand sm with
  | Some (StorageManager.Ok _ sm') =>
    Some (putCameraState c
            (mkCameraState RESET (currentFile cs) (startTime cs) (rtspUrl cs))
            (emit (recordingComplete c (currentFile cs)) (set_pendingSaves rest r)),
          Timer.start (resetKey c) (resetDelayMs r) (Timer.CbReset c) tm, sm')
  | Some (StorageManager.Throw sm') =>
    Some (putCameraState c
            (mkCameraState RESET (currentFile cs) (startTime cs) (rtspUrl cs))
            (set_pendingSaves rest r),
          Timer.start (resetKey c) (resetDelayMs r) (Timer.CbReset c) tm, sm')
  | None => None
  end.
Proof.
  intros Hl Hp. unfold saveComplete. rewrite Hp.
  destruct (StorageManager.addRecording _ _ _ _) as [[e s1|s1]|]; [| |done].
  - erewrite getCameraState_present; [|exact Hl].
    erewrite enterReset_present; [|exact Hl]. done.
  - erewrite enterReset_present; [|exact Hl]. done.
Qed.

Lemma addRecording_entry rec now rand s e s' :
  StorageManager.addRecording rec now rand s = Some (StorageManager.Ok e s') →
  StorageManager.cameraId e = StorageManager.info_cameraId rec ∧
  StorageManager.filename e = StorageManager.info_filename rec ∧
  StorageManager.timestamp e = StorageManager.info_timestamp rec ∧
  StorageManager.duration e = StorageManager.info_duration rec ∧
  StorageManager.downloaded e = false ∧
  StorageManager.size e =
    default 0 (StorageManager.statSize (StorageManager.fs s)
                 (StorageManager.info_filename rec)).
Proof.
  unfold StorageManager.addRecording.
  destruct (StorageManager._saveIndex _) as [[] s2|s2]; [|done].
  destruct (StorageManager._updateStorageStats s2); [|done].
  intros [= <- <-].
  by destruct (StorageManager.statSize _ _).
Qed.

Lemma startRecording_config c url now base r tm :
  config (startRecording c url now base r tm).1.2 = config r ∧
  resetDelayMs (startRecording c url now base r tm).1.2 = resetDelayMs r.
Proof.
  unfold startRecording. rewrite getCameraState_eq.
  destruct (decide _); [done|]. cbn [fst snd emit config resetDelayMs].
  unfold _startFFmpegRecording.
  destruct (jsOr url _) as [u|]; [destruct (jsTruthy _)|]; done.
Qed.

(** X8: one full cycle.  From [IDLE], with no save of the camera
    suspended and a writable index, a start request, the expiry of the
    duration timer, the completion of the save and the expiry of the
    reset timer take the camera through [RECORDING], [SAVING] and [RESET]
    back to [IDLE]; the events [recordingStarted], [recordingComplete]
    and [recordingReady] are emitted in this order with the file named
    at the start; the index file holds one more entry, for this camera
    and this file, stamped with the start time; and neither timer of the
    camera is left pending. *)
Theorem full_cycle (c : string) (url : option string) (now : Date) (now2 : Z)
    (rand : string) (w : World) :
  phase c (rc w) = IDLE →
  takePending c (pendingSaves (rc w)) = None →
  StorageManager.writeFails (StorageManager.fs (sm w)) = false →
  let f := generateVideoFilename c now in
  ∃ w1 w2 w3 w4 e,
    step (OpStart c url now) w = Some w1 ∧ phase c (rc w1) = RECORDING ∧
    step (OpTimer (recordingKey c)) w1 = Some w2 ∧ phase c (rc w2) = SAVING ∧
    step (OpSaveComplete c now2 rand) w2 = Some w3 ∧ phase c (rc w3) = RESET ∧
    step (OpTimer (resetKey c)) w3 = Some w4 ∧ phase c (rc w4) = IDLE ∧
    emitted (rc w4) =
      emitted (rc w) ++
        [recordingStarted c f; recordingComplete c (Some f); recordingReady c] ∧
    StorageManager.indexFile (StorageManager.fs (sm w4)) =
      Some (StorageManager.recordings (sm w) ++ [e]) ∧
    StorageManager.cameraId e = c ∧
    StorageManager.filename e = f ∧
    StorageManager.timestamp e = getTime now ∧
    StorageManager.duration e = durationSeconds (config (rc w)) ∧
    (∃ cs, cameraStates (rc w4) !! c = Some cs ∧
           currentFile cs = None ∧ startTime cs = None) ∧
    tm w4 !! recordingKey c = None ∧
    tm w4 !! resetKey c = None.
Proof.
  intros Hph Hpend Hwr f.
  (* the start *)
  pose proof (startRecording_pending c url now (StorageManager.getBasePath (sm w))
                (rc w) (tm w)) as Hp1.
  pose proof (startRecording_config c url now (StorageManager.getBasePath (sm w))
                (rc w) (tm w)) as [Hcfg1 Hrd1].
  destruct (startRecording_idle c url now (StorageManager.getBasePath (sm w))
              (rc w) (tm w) Hph) as (r1 & tm1 & E1 & Hph1 & _ & Hcs1 & Htm1 & Hem1).
  rewrite E1 in Hp1, Hcfg1, Hrd1. cbn [fst snd] in Hp1, Hcfg1, Hrd1.
  set (cs1 := mkCameraState RECORDING (Some f) (Some now)
                (jsOr url (rtspUrl (getCameraState c (rc w)).1))) in *.
  (* the end of the duration timer *)
  pose proof (onTimerEnd_present c r1 (delete (recordingKey c) tm1) cs1 now
                Hcs1 eq_refl eq_refl) as E2.
  cbn [currentFile startTime rtspUrl cs1 default] in E2.
  set (info := StorageManager.mkRecordingInfo c f (getTime now)
                 (durationSeconds (config r1))) in *.
  set (r2 := set_pendingSaves (pendingSaves r1 ++ [mkPendingSave c info])
               (putCameraState c
                  (mkCameraState SAVING (Some f) (Some now)
                     (jsOr url (rtspUrl (getCameraState c (rc w)).1)))
                  (_stopFFmpegRecording c r1))) in *.
  (* the completion of the save *)
  destruct (StorageFacts.addRecording_persists info now2 rand (sm w) Hwr)
    as (e & sm' & Eadd & Hidx & _).
  destruct (addRecording_entry _ _ _ _ _ _ Eadd) as (He1 & He2 & He3 & He4 & _).
  assert (Hcs2 : cameraStates r2 !! c =
            Some (mkCameraState SAVING (Some f) (Some now)
                    (jsOr url (rtspUrl (getCameraState c (rc w)).1)))).
  { cbn. apply lookup_insert_eq. }
  assert (Hp2 : takePending c (pendingSaves r2) =
                Some (mkPendingSave c info, pendingSaves (rc w))).
  { cbn. rewrite Hp1. by apply takePending_snoc_none. }
  pose proof (saveComplete_present c now2 rand r2 (delete (recordingKey c) tm1) (sm w)
                _ _ _ Hcs2 Hp2) as E3.
  cbn [save_info] in E3. rewrite Eadd in E3.
  cbn [currentFile startTime rtspUrl] in E3.
  set (r3 := putCameraState c
               (mkCameraState RESET (Some f) (Some now)
                  (jsOr url (rtspUrl (getCameraState c (rc w)).1)))
               (emit (recordingComplete c (Some f))
                  (set_pendingSaves (pendingSaves (rc w)) r2))) in *.
  set (tm3 := Timer.start (resetKey c) (resetDelayMs r2) (Timer.CbReset c)
                (delete (recordingKey c) tm1)) in *.
  (* the end of the reset timer *)
  assert (Hcs3 : cameraStates r3 !! c =
            Some (mkCameraState RESET (Some f) (Some now)
                    (jsOr url (rtspUrl (getCameraState c (rc w)).1)))).
  { cbn. apply lookup_insert_eq. }
  pose proof (onResetEnd_present c r3 _ Hcs3) as E4. cbn [rtspUrl] in E4.
  exists (mkWorld r1 tm1 (sm w)), (mkWorld r2 (delete (recordingKey c) tm1) (sm w)),
    (mkWorld r3 tm3 sm'),
    (mkWorld (onResetEnd c r3) (delete (resetKey c) tm3) sm'), e.
  split_and!.
  - cbn [step]. by rewrite E1.
  - done.
  - cbn [step rc tm sm]. unfold fire, Timer.expire. cbn [rc tm sm].
    rewrite Htm1, TimerFacts.start_lookup_eq. cbn [Timer.callback].
    rewrite <- Htm1. by rewrite E2.
  - cbn [rc]. rewrite phase_lookup, Hcs2. done.
  - cbn [step rc tm sm]. by rewrite E3.
  - cbn [rc]. rewrite phase_lookup, Hcs3. done.
  - cbn [step rc tm sm]. unfold fire, Timer.expire. cbn [rc tm sm].
    unfold tm3. by rewrite TimerFacts.start_lookup_eq.
  - cbn [rc]. rewrite E4, phase_lookup. cbn. by rewrite lookup_insert_eq.
  - cbn [rc]. rewrite E4. cbn. rewrite Hem1. by rewrite <- !app_assoc.
  - done.
  - by rewrite He1.
  - by rewrite He2.
  - by rewrite He3.
  - rewrite He4. cbn. by rewrite Hcfg1.
  - cbn [rc]. rewrite E4. eexists. split; [cbn; apply lookup_insert_eq|done].
  - cbn [tm]. rewrite lookup_delete_ne by apply not_eq_sym, recordingKey_ne_resetKey.
    unfold tm3. rewrite TimerFacts.start_lookup_ne
      by apply not_eq_sym, recordingKey_ne_resetKey.
    apply lookup_delete_eq.
  - cbn [tm]. apply lookup_delete_eq.
Qed.

Lemma full_cycle_witness :
  let w := init (mkConfig 60 3)
             (StorageManager.new (StorageManager.mkConfig "/rec" 90 true)
                (StorageManager.mkFS ∅ None false)) in
  ∃ w4, exec [OpStart "CAM1" None (mkDate 5000 2026 0 4 14 32 10 0);
              OpTimer (recordingKey "CAM1"); OpSaveComplete "CAM1" 70000 "x";
              OpTimer (resetKey "CAM1")] w = Some w4 ∧
        phase "CAM1" (rc w4) = IDLE.
Proof.
  pose (w := init (mkConfig 60 3)
               (StorageManager.new (StorageManager.mkConfig "/rec" 90 true)
                  (StorageManager.mkFS ∅ None false))).
  destruct (full_cycle "CAM1" None (mkDate 5000 2026 0 4 14 32 10 0) 70000 "x" w)
    as (w1 & w2 & w3 & w4 & e & E1 & _ & E2 & _ & E3 & _ & E4 & H4 & _);
    [reflexivity|reflexivity|reflexivity|].
  exists w4. split; [|exact H4].
  cbn [exec]. fold w. rewrite E1. cbn [exec]. rewrite E2. cbn [exec]. rewrite E3.
  cbn [exec]. by rewrite E4.
Defined.

(** *** A failed save, a late timer *)

(** X9: a failure to write the index does not block the camera.  When
    the suspended save of a camera completes while the index file cannot
    be written, no [recordingComplete] event is emitted and the index
    file is as before, the entry stays in the index in memory, and the
    camera still goes to [RESET] with its reset timer pending. *)
Theorem save_failure_still_resets (c : string) (now : Z) (rand : string) (w : World)
    (p : PendingSave) (rest : list PendingSave) :
  takePending c (pendingSaves (rc w)) = Some (p, rest) →
  StorageManager.writeFails (StorageManager.fs (sm w)) = true →
  ∃ w', step (OpSaveComplete c now rand) w = Some w' ∧
    phase c (rc w') = RESET ∧
    tm w' !! resetKey c = Some (Timer.mkTimer (resetDelayMs (rc w)) (Timer.CbReset c)) ∧
    emitted (rc w') = emitted (rc w) ∧
    pendingSaves (rc w') = rest ∧
    StorageManager.fs (sm w') = StorageManager.fs (sm w) ∧
    StorageManager.emitted (sm w') = StorageManager.emitted (sm w) ∧
    ∃ e, StorageManager.recordings (sm w') = StorageManager.recordings (sm w) ++ [e] ∧
         StorageManager.filename e = StorageManager.info_filename (save_info p).
Proof.
  intros Hp Hwr. cbn [step]. unfold saveComplete. rewrite Hp.
  unfold StorageManager.addRecording, StorageManager._saveIndex.
  cbn [StorageManager.set_recordings StorageManager.fs]. rewrite Hwr.
  unfold enterReset, _onReset. rewrite !getCameraState_eq.
  cbn [fst snd]. eexists. split; [reflexivity|]. cbn [rc tm sm].
  split_and!.
  - rewrite phase_lookup. cbn. by rewrite !lookup_insert_eq.
  - by rewrite TimerFacts.start_lookup_eq.
  - done.
  - done.
  - done.
  - done.
  - eexists. split; [reflexivity|]. by destruct (StorageManager.statSize _ _).
Qed.

Lemma save_failure_still_resets_witness :
  let info := StorageManager.mkRecordingInfo "CAM1" "f.mp4" 0 60 in
  let r := set_pendingSaves [mkPendingSave "CAM1" info] (new (mkConfig 60 3)) in
  let w := mkWorld r ∅ (StorageManager.new (StorageManager.mkConfig "/rec" 90 true)
                          (StorageManager.mkFS ∅ None true)) in
  ∃ w', step (OpSaveComplete "CAM1" 7 "x") w = Some w' ∧ phase "CAM1" (rc w') = RESET.
Proof.
  pose (info := StorageManager.mkRecordingInfo "CAM1" "f.mp4" 0 60).
  pose (r := set_pendingSaves [mkPendingSave "CAM1" info] (new (mkConfig 60 3))).
  pose (w := mkWorld r ∅ (StorageManager.new (StorageManager.mkConfig "/rec" 90 true)
                            (StorageManager.mkFS ∅ None true))).
  destruct (save_failure_still_resets "CAM1" 7 "x" w (mkPendingSave "CAM1" info) [])
    as (w' & E & H & _); [reflexivity|reflexivity|].
  exists w'. split; [exact E|exact H].
Defined.


Lemma startRecording_process c url now base r tm :
  phase c r = IDLE →
  is_Some (activeProcesses (startRecording c url now base r tm).1.2 !! c).
Proof.
  intros Hph. unfold startRecording. rewrite getCameraState_eq, state_default.
  rewrite decide_False by (intros H; by apply H).
  cbn [fst snd emit activeProcesses]. unfold _startFFmpegRecording.
  cbn [rtspUrl].
  destruct (jsOr url _) as [u|]; [destruct (jsTruthy _)|];
    cbn; rewrite lookup_insert_eq; by eexists.
Qed.

(** X10: a forced stop does not cancel a suspended save.  When a camera
    with a suspended save is force-stopped and started again before the
    save completes, the completion takes the camera from [RECORDING] to
    [RESET] while its new capture process is registered and its duration
    timer is pending; the [recordingComplete] event names the file of
    the new recording, and the entry written to the index names the file
    of the suspended save. *)
Theorem forceStop_keeps_suspended_save (c : string) (url : option string) (now : Date)
    (now2 : Z) (rand : string) (w : World) (p : PendingSave) (rest : list PendingSave) :
  takePending c (pendingSaves (rc w)) = Some (p, rest) →
  StorageManager.writeFails (StorageManager.fs (sm w)) = false →
  ∃ w1 w2 w3 e,
    step (OpForceStop c) w = Some w1 ∧ phase c (rc w1) = IDLE ∧
    step (OpStart c url now) w1 = Some w2 ∧ phase c (rc w2) = RECORDING ∧
    step (OpSaveComplete c now2 rand) w2 = Some w3 ∧ phase c (rc w3) = RESET ∧
    emitted (rc w3) =
      emitted (rc w) ++ [recordingStarted c (generateVideoFilename c now);
                         recordingComplete c (Some (generateVideoFilename c now))] ∧
    StorageManager.indexFile (StorageManager.fs (sm w3)) =
      Some (StorageManager.recordings (sm w) ++ [e]) ∧
    StorageManager.filename e = StorageManager.info_filename (save_info p) ∧
    is_Some (activeProcesses (rc w3) !! c) ∧
    tm w3 !! recordingKey c =
      Some (Timer.mkTimer (recordingDurationMs (rc w)) (Timer.CbRecordingEnd c)).
Proof.
  intros Hp Hwr.
  (* the forced stop *)
  pose proof (forceStop_pending c (rc w) (tm w)) as Hp1.
  destruct (forceStop_lookup c (rc w) (tm w)) as ((cs0 & Hcs0 & Hst0 & _) & _ & _).
  assert (Hem0 : emitted (forceStop c (rc w) (tm w)).1 = emitted (rc w) ∧
                 recordingDurationMs (forceStop c (rc w) (tm w)).1 =
                   recordingDurationMs (rc w)).
  { unfold forceStop. by rewrite getCameraState_eq. }
  destruct Hem0 as [Hem0 Hdur0].
  destruct (forceStop c (rc w) (tm w)) as [r1 tm1] eqn:E1. cbn [fst snd] in *.
  assert (Hph1 : phase c r1 = IDLE) by (by rewrite phase_lookup, Hcs0).
  (* the new start *)
  pose proof (startRecording_pending c url now (StorageManager.getBasePath (sm w))
                r1 tm1) as Hp2.
  pose proof (startRecording_process c url now (StorageManager.getBasePath (sm w))
                r1 tm1 Hph1) as Hproc.
  destruct (startRecording_idle c url now (StorageManager.getBasePath (sm w))
              r1 tm1 Hph1) as (r2 & tm2 & E2 & Hph2 & _ & Hcs2 & Htm2 & Hem2).
  rewrite E2 in Hp2, Hproc. cbn [fst snd] in Hp2, Hproc.
  (* the completion of the old save *)
  destruct (StorageFacts.addRecording_persists (save_info p) now2 rand (sm w) Hwr)
    as (e & sm' & Eadd & Hidx & _ & Hfile).
  assert (Hp3 : takePending c (pendingSaves r2) = Some (p, rest)) by (by rewrite Hp2, Hp1).
  pose proof (saveComplete_present c now2 rand r2 tm2 (sm w) _ _ _ Hcs2 Hp3) as E3.
  rewrite Eadd in E3. cbn [currentFile startTime rtspUrl] in E3.
  eexists (mkWorld r1 tm1 (sm w)), (mkWorld r2 tm2 (sm w)), (mkWorld _ _ sm'), e.
  split_and!.
  - cbn [step]. by rewrite E1.
  - done.
  - cbn [step rc tm sm]. by rewrite E2.
  - done.
  - cbn [step rc tm sm]. rewrite E3. reflexivity.
  - cbn [rc]. rewrite phase_lookup. cbn. by rewrite lookup_insert_eq.
  - cbn. rewrite Hem2, Hem0. by rewrite <- app_assoc.
  - done.
  - done.
  - cbn. done.
  - cbn [tm]. rewrite TimerFacts.start_lookup_ne
      by apply not_eq_sym, recordingKey_ne_resetKey.
    rewrite Htm2, TimerFacts.start_lookup_eq. by rewrite Hdur0.
Qed.

Lemma forceStop_keeps_suspended_save_witness :
  let info := StorageManager.mkRecordingInfo "CAM1" "old.mp4" 0 60 in
  let r := set_pendingSaves [mkPendingSave "CAM1" info] (new (mkConfig 60 3)) in
  let w := mkWorld r ∅ (StorageManager.new (StorageManager.mkConfig "/rec" 90 true)
                          (StorageManager.mkFS ∅ None false)) in
  ∃ w3, exec [OpForceStop "CAM1"; OpStart "CAM1" None (mkDate 5000 2026 0 4 14 32 10 0);
              OpSaveComplete "CAM1" 7 "x"] w = Some w3 ∧
        phase "CAM1" (rc w3) = RESET.
Proof.
  pose (info := StorageManager.mkRecordingInfo "CAM1" "old.mp4" 0 60).
  pose (r := set_pendingSaves [mkPendingSave "CAM1" info] (new (mkConfig 60 3))).
  pose (w := mkWorld r ∅ (StorageManager.new (StorageManager.mkConfig "/rec" 90 true)
                            (StorageManager.mkFS ∅ None false))).
  destruct (forceStop_keeps_suspended_save "CAM1" None (mkDate 5000 2026 0 4 14 32 10 0)
              7 "x" w (mkPendingSave "CAM1" info) [])
    as (w1 & w2 & w3 & e & E1 & _ & E2 & _ & E3 & H3 & _); [reflexivity|reflexivity|].
  exists w3. split; [|exact H3].
  cbn [exec]. fold info r w. rewrite E1. cbn [exec]. rewrite E2. cbn [exec]. by rewrite E3.
Defined.


(** *** The capture source *)

(** X11: the source of a capture.  After [registerCamera(c, reg)], a start
    request for the idle camera [c] is accepted and captures from the
    address given with the request when there is one (not empty), from
    the registered address otherwise, for the configured duration and
    into the file named at the start under the storage directory; when
    neither address is usable the capture is simulated.  The address
    used is kept in the record of the camera. *)
Theorem start_capture_source (c : string) (reg url : option string) (now : Date)
    (base : string) (r : t) (tm : Timer.timers) :
  phase c r = IDLE →
  let r0 := registerCamera c reg r in
  let res := startRecording c url now base r0 tm in
  res.1.1 = true ∧
  activeProcesses res.1.2 !! c =
    Some (match jsOr url reg with
          | Some u =>
            if negb (String.eqb u "")
            then Ffmpeg u (joinPath base (generateVideoFilename c now))
                          (durationSeconds (config r))
            else Simulated
          | None => Simulated
          end) ∧
  ∃ cs, cameraStates res.1.2 !! c = Some cs ∧ rtspUrl cs = jsOr url reg.
Proof.
  intros Hph r0 res. subst r0 res.
  unfold registerCamera. rewrite getCameraState_eq, state_default, Hph.
  unfold startRecording. rewrite getCameraState_eq.
  cbn [fst snd putCameraState set_cameraStates cameraStates].
  rewrite lookup_insert_eq. simpl.
  unfold _startFFmpegRecording. simpl.
  destruct (jsOr url reg) as [u|] eqn:E; [simpl; destruct (negb (u =? "")%string)|];
    simpl; rewrite !lookup_insert_eq; (split_and!; [done|done|by eexists]).
Qed.

Lemma start_capture_source_witness :
  let res := startRecording "CAM1" None (mkDate 0 2026 0 4 14 32 10 0) "/rec"
               (registerCamera "CAM1" (Some "rtsp://cam1") (new (mkConfig 60 3))) ∅ in
  activeProcesses res.1.2 !! "CAM1" =
    Some (Ffmpeg "rtsp://cam1" "/rec/CAM1_2026-01-04_14-32-10.mp4" 60).
Proof.
  apply (start_capture_source "CAM1" (Some "rtsp://cam1") None
           (mkDate 0 2026 0 4 14 32 10 0) "/rec" (new (mkConfig 60 3)) ∅).
  reflexivity.
Defined.

End RecordingCycleFacts.

(** ** The storage manager: queries, deletion, start-up, refresh *)

Module StorageQueryFacts.
Import StorageManager.
Import StorageFacts.

(** *** [getRecordings] *)

Lemma insertNewest_perm r l : insertNewest r l ≡ₚ r :: l.
Proof.
  induction l as [|x l IH]; simpl; [done|].
  destruct (timestamp x <=? timestamp r); [done|].
  rewrite IH. apply Permutation_swap.
Qed.

Lemma sortNewestFirst_perm l : sortNewestFirst l ≡ₚ l.
Proof.
  induction l as [|x l IH]; simpl; [done|].
  rewrite insertNewest_perm. by rewrite IH.
Qed.

Lemma insertNewest_sorted r l :
  StronglySorted byRecency l → StronglySorted byRecency (insertNewest r l).
Proof.
  induction 1 as [|x l Hs IH Hall]; simpl; [repeat constructor|].
  destruct (timestamp x <=? timestamp r) eqn:E.
  - apply Z.leb_le in E. constructor; [by constructor|].
    constructor; [done|]. eapply Forall_impl; [exact Hall|].
    intros y Hy. unfold byRecency in *. lia.
  - apply Z.leb_gt in E. constructor; [done|].
    rewrite insertNewest_perm. constructor; [unfold byRecency; lia | done].
Qed.

Lemma sortNewestFirst_sorted l : StronglySorted byRecency (sortNewestFirst l).
Proof.
  induction l as [|x l IH]; simpl; [constructor | by apply insertNewest_sorted].
Qed.

(** The sort is stable: entries with the same timestamp keep the order
    of the index. *)
Lemma insertNewest_filter_eq r l ts :
  StronglySorted byRecency l →
  filter (λ x, timestamp x = ts) (insertNewest r l) =
  filter (λ x, timestamp x = ts) (r :: l).
Proof.
  induction 1 as [|x l Hs IH Hall]; simpl; [done|].
  destruct (timestamp x <=? timestamp r) eqn:E; [done|].
  apply Z.leb_gt in E.
  rewrite (filter_cons _ x (insertNewest r l)), IH, !filter_cons.
  destruct (decide (timestamp r = ts)) as [Hr|Hr];
    destruct (decide (timestamp x = ts)) as [Hx|Hx]; try done. lia.
Qed.

Lemma sortNewestFirst_stable l ts :
  filter (λ x, timestamp x = ts) (sortNewestFirst l) = filter (λ x, timestamp x = ts) l.
Proof.
  induction l as [|x l IH]; simpl; [done|].
  rewrite insertNewest_filter_eq by apply sortNewestFirst_sorted.
  rewrite !filter_cons. by rewrite IH.
Qed.

Lemma jsSlice_sublist {A} a b (l : list A) : jsSlice a b l `sublist_of` l.
Proof.
  unfold jsSlice. etrans; [apply sublist_take | apply sublist_drop].
Qed.

Lemma jsSlice_page {A} (k n : Z) (l : list A) :
  0 ≤ k → 0 ≤ n → jsSlice k (k + n) l = take (Z.to_nat n) (drop (Z.to_nat k) l).
Proof.
  intros Hk Hn. unfold jsSlice.
  destruct (k <? 0) eqn:E1; [apply Z.ltb_lt in E1; lia|].
  destruct (k + n <? 0) eqn:E2; [apply Z.ltb_lt in E2; lia|].
  destruct (decide (Z.of_nat (length l) ≤ k)) as [Hlen|Hlen].
  - rewrite !Z.min_r by lia. rewrite Nat2Z.id, drop_all.
    rewrite (drop_ge l (Z.to_nat k)) by lia. by rewrite !take_nil.
  - rewrite (Z.min_l k) by lia.
    destruct (decide (k + n ≤ Z.of_nat (length l))) as [Hfit|Hfit].
    + rewrite Z.min_l by lia. f_equal. lia.
    + rewrite Z.min_r by lia.
      rewrite !take_ge; [done| |]; rewrite length_drop; lia.
Qed.


Lemma StronglySorted_sublist {A} (R : relation A) (l1 l2 : list A) :
  l1 `sublist_of` l2 → StronglySorted R l2 → StronglySorted R l1.
Proof.
  induction 1 as [|x l1 l2 Hsub IH|x l1 l2 Hsub IH]; intros Hs; [done| |].
  - apply StronglySorted_inv in Hs as [Hs Hall]. constructor; [by apply IH|].
    apply Forall_forall. intros y Hy. rewrite Forall_forall in Hall.
    apply Hall. by apply (elem_of_sublist l1 l2).
  - apply StronglySorted_inv in Hs as [Hs _]. by apply IH.
Qed.

Lemma matches_spec (f : Filters) (r : Recording) :
  matches f r = true ↔
  (∀ c, f_cameraId f = Some c → c ≠ "" → cameraId r = c) ∧
  (∀ t0, f_startDate f = Some t0 → t0 ≤ timestamp r) ∧
  (∀ t1, f_endDate f = Some t1 → timestamp r ≤ t1).
Proof.
  unfold matches. rewrite !andb_true_iff.
  assert (Hand : ∀ P P' Q Q' R R' : Prop,
            (P ↔ P') → (Q ↔ Q') → (R ↔ R') → ((P ∧ Q) ∧ R ↔ P' ∧ Q' ∧ R')) by tauto.
  apply Hand.
  - destruct (f_cameraId f) as [c|]; simpl; [|done].
    destruct (String.eqb c "") eqn:E; simpl.
    + apply String.eqb_eq in E. split; [|done]. intros _ c' [= <-]. done.
    + apply String.eqb_neq in E. rewrite bool_decide_eq_true. split.
      * intros [= ->] c' [= <-] _. done.
      * intros H. by rewrite (H c eq_refl E).
  - destruct (f_startDate f) as [t0|]; [|done]. rewrite Z.leb_le. split.
    + by intros H t' [= <-].
    + intros H. by apply H.
  - destruct (f_endDate f) as [t1|]; [|done]. rewrite Z.leb_le. split.
    + by intros H t' [= <-].
    + intros H. by apply H.
Qed.

(** X12: [getRecordings(filters)] returns entries of the index that pass
    the filters (the camera when one is given, the start and the end of
    the period when given, both inclusive), newest first.  Without a
    limit it returns every such entry, as often as the index holds it,
    and entries with equal timestamps keep the order of the index. *)
Theorem getRecordings_sorted_filtered (f : Filters) (s : t) :
  let res := getRecordings f s in
  StronglySorted byRecency res ∧
  (∀ r, r ∈ res →
     r ∈ recordings s ∧
     (∀ c, f_cameraId f = Some c → c ≠ "" → cameraId r = c) ∧
     (∀ t0, f_startDate f = Some t0 → t0 ≤ timestamp r) ∧
     (∀ t1, f_endDate f = Some t1 → timestamp r ≤ t1)) ∧
  (jsTruthyNum (f_limit f) = false →
     res ≡ₚ filter (λ r, matches f r = true) (recordings s) ∧
     ∀ ts, filter (λ x, timestamp x = ts) res =
           filter (λ x, timestamp x = ts)
             (filter (λ r, matches f r = true) (recordings s))).
Proof.
  intros res. subst res. unfold getRecordings.
  set (all := sortNewestFirst (filter (λ r, matches f r = true) (recordings s))).
  assert (Hsorted : StronglySorted byRecency all) by apply sortNewestFirst_sorted.
  assert (Hin : ∀ r, r ∈ all → r ∈ recordings s ∧ matches f r = true).
  { intros r Hr. unfold all in Hr. rewrite sortNewestFirst_perm in Hr.
    by apply list_elem_of_filter in Hr as [? ?]. }
  split_and!.
  - destruct (jsTruthyNum (f_limit f)); [|done].
    eapply StronglySorted_sublist; [apply jsSlice_sublist|done].
  - intros r Hr.
    assert (r ∈ all) as Hr'.
    { destruct (jsTruthyNum (f_limit f)); [|done].
      eapply elem_of_sublist; [exact Hr|apply jsSlice_sublist]. }
    destruct (Hin r Hr') as [H1 H2]. split; [done|]. by apply matches_spec.
  - intros ->. split; [apply sortNewestFirst_perm|].
    intros ts. apply sortNewestFirst_stable.
Qed.

Lemma getRecordings_sorted_filtered_witness :
  let e1 := mkRecording "rec_1" "CAM1" "a.mp4" 100 60 0 false in
  let e2 := mkRecording "rec_2" "CAM2" "b.mp4" 50 60 0 false in
  let e3 := mkRecording "rec_3" "CAM1" "c.mp4" 200 60 0 false in
  let s := mk (mkConfig "/rec" 90 true) [e1; e2; e3] (mkStats 0 0 0 0 HEALTHY)
              (mkFS ∅ None false) [] [] in
  getRecordings (mkFilters (Some "CAM1") None None None None) s ≡ₚ [e1; e3].
Proof.
  pose (e1 := mkRecording "rec_1" "CAM1" "a.mp4" 100 60 0 false).
  pose (e2 := mkRecording "rec_2" "CAM2" "b.mp4" 50 60 0 false).
  pose (e3 := mkRecording "rec_3" "CAM1" "c.mp4" 200 60 0 false).
  pose (s := mk (mkConfig "/rec" 90 true) [e1; e2; e3] (mkStats 0 0 0 0 HEALTHY)
                (mkFS ∅ None false) [] []).
  apply (proj2 (proj2 (getRecordings_sorted_filtered
                         (mkFilters (Some "CAM1") None None None None) s))).
  reflexivity.
Defined.

(** X13: the pages of [getRecordings].  With a limit [n > 0] and an
    offset [k >= 0] the result is the [n] entries that follow the first
    [k] of the unpaginated result, fewer when it ends before; two
    consecutive pages make up the page of their joint size; a limit of
    [0], like an absent limit, returns the whole result. *)
Theorem getRecordings_pages (cam : option string) (sd ed : option Z) (s : t) (k n m : Z) :
  0 ≤ k → 0 < n → 0 < m →
  let all := getRecordings (mkFilters cam sd ed None None) s in
  let page k n := getRecordings (mkFilters cam sd ed (Some n) (Some k)) s in
  page k n = take (Z.to_nat n) (drop (Z.to_nat k) all) ∧
  (Z.of_nat (length (page k n)) ≤ n) ∧
  page k n ++ page (k + n) m = page k (n + m) ∧
  getRecordings (mkFilters cam sd ed (Some n) None) s = take (Z.to_nat n) all ∧
  getRecordings (mkFilters cam sd ed (Some 0) (Some k)) s = all.
Proof.
  intros Hk Hn Hm all page.
  assert (Hpage : ∀ k n, 0 ≤ k → 0 < n →
            page k n = take (Z.to_nat n) (drop (Z.to_nat k) all)).
  { intros k' n' Hk' Hn'. unfold page, getRecordings.
    cbn [f_limit f_offset f_cameraId f_startDate f_endDate jsTruthyNum].
    destruct (n' =? 0) eqn:En; [apply Z.eqb_eq in En; lia|]. cbn [negb].
    assert ((if negb (k' =? 0) then default 0 (Some k') else 0) = k') as ->.
    { destruct (k' =? 0) eqn:Ek; [apply Z.eqb_eq in Ek|]; done. }
    change (default 0 (Some n')) with n'.
    by rewrite jsSlice_page by lia. }
  split_and!.
  - by apply Hpage.
  - rewrite Hpage by done. rewrite length_take. lia.
  - rewrite !Hpage by lia.
    replace (Z.to_nat (k + n)) with (Z.to_nat k + Z.to_nat n)%nat by lia.
    replace (Z.to_nat (n + m)) with (Z.to_nat n + Z.to_nat m)%nat by lia.
    rewrite <- drop_drop. by rewrite take_take_drop.
  - unfold getRecordings.
    cbn [f_limit f_offset f_cameraId f_startDate f_endDate jsTruthyNum].
    destruct (n =? 0) eqn:En; [apply Z.eqb_eq in En; lia|]. cbn [negb].
    change (default 0 (Some n)) with n.
    rewrite (jsSlice_page 0 n) by lia. by rewrite drop_0.
  - done.
Qed.

Lemma getRecordings_pages_witness :
  let e1 := mkRecording "rec_1" "CAM1" "a.mp4" 100 60 0 false in
  let e2 := mkRecording "rec_2" "CAM2" "b.mp4" 50 60 0 false in
  let e3 := mkRecording "rec_3" "CAM1" "c.mp4" 200 60 0 false in
  let s := mk (mkConfig "/rec" 90 true) [e1; e2; e3] (mkStats 0 0 0 0 HEALTHY)
              (mkFS ∅ None false) [] [] in
  getRecordings (mkFilters None None None (Some 1) (Some 1)) s = [e1].
Proof.
  intros e1 e2 e3 s.
  rewrite (proj1 (getRecordings_pages None None None s 1 1 1 ltac:(lia) ltac:(lia) ltac:(lia))).
  reflexivity.
Defined.


(** *** What a refresh may touch *)

Lemma shrinks_refl s : shrinks s s.
Proof. split_and!; [done|done|by intros ? -> [? ?]|done]. Qed.

Lemma filenames_sublist (l1 l2 : list Recording) file :
  l1 `sublist_of` l2 → file ∈ filename <$> l1 → file ∈ filename <$> l2.
Proof.
  intros Hsub Hin. eapply elem_of_sublist; [exact Hin|]. by apply fmap_sublist.
Qed.

Lemma shrinks_trans s1 s2 s3 : shrinks s1 s2 → shrinks s2 s3 → shrinks s1 s3.
Proof.
  intros (A1 & A2 & A3 & A4) (B1 & B2 & B3 & B4). split_and!.
  - by etrans.
  - by etrans.
  - intros file Hnone Hsome.
    destruct (files (fs s2) !! file) as [f|] eqn:E.
    + apply (filenames_sublist (recordings s2)); [done|]. apply B3; [done|by eexists].
    + by apply A3.
  - intros file Hin Hout.
    destruct (decide (file ∈ filename <$> recordings s2)) as [H2|H2].
    + by apply B4.
    + eapply lookup_weaken_None; [|exact B2]. by apply A4.
Qed.

Lemma shrinks_same s s' :
  recordings s' = recordings s → fs s' = fs s → shrinks s s'.
Proof.
  intros Hr Hf. unfold shrinks. rewrite Hr, Hf.
  split_and!; [done|done|by intros ? -> [? ?]|done].
Qed.

Lemma removeFirst_keeps file (l : list Recording) x :
  x ∈ l → filename x ≠ file → x ∈ removeFirst file l.
Proof.
  induction l as [|y l IH]; simpl; [done|].
  intros [->|Hin]%elem_of_cons Hne.
  - assert (String.eqb (filename y) file = false) as ->; [by apply String.eqb_neq|].
    by left.
  - destruct (String.eqb (filename y) file); [done|]. right. by apply IH.
Qed.

(** One removal made by the eviction loop. *)
Lemma deleteRecording_false_shrinks upd file s s1 :
  deleteRecording_with upd file false s = Some (Ok tt s1) →
  (file ∈ filename <$> recordings s ∨ files (fs s) !! file = None) →
  shrinks s s1.
Proof.
  intros E Hinv.
  destruct (deleteRecording_false upd file s)
    as [(s0 & E0 & Hrec & _ & _ & _ & _ & _ & Hfiles) | (E0 & _)];
    rewrite E0 in E; [|done].
  injection E as <-. split_and!; cbn [emit recordings fs].
  - rewrite Hrec. apply removeFirst_sublist.
  - rewrite Hfiles. apply delete_subseteq.
  - intros file' Hnone [f Hsome]. rewrite Hfiles in Hnone.
    destruct (decide (file' = file)) as [->|Hne].
    + destruct Hinv as [Hin|Hn]; [done|congruence].
    + rewrite lookup_delete_ne in Hnone by done. congruence.
  - intros file' Hin Hout. rewrite Hfiles.
    destruct (decide (file' = file)) as [->|Hne]; [apply lookup_delete_eq|].
    destruct Hout. apply list_elem_of_fmap in Hin as (x & -> & Hx).
    apply list_elem_of_fmap. exists x. split; [done|].
    rewrite Hrec. by apply removeFirst_keeps.
Qed.

(** The entries still to visit, after the state moved on. *)
Lemma visit_inv (L : list Recording) s s' :
  Forall (λ e, filename e ∈ filename <$> recordings s ∨
               files (fs s) !! filename e = None) L →
  shrinks s s' →
  Forall (λ e, filename e ∈ filename <$> recordings s' ∨
               files (fs s') !! filename e = None) L.
Proof.
  intros HL (A1 & A2 & A3 & A4). eapply Forall_impl; [exact HL|].
  intros e [Hin|Hnone]; cbn beta.
  - destruct (decide (filename e ∈ filename <$> recordings s')) as [H|H]; [by left|].
    right. by apply A4.
  - right. by eapply lookup_weaken_None.
Qed.

Section LoopShrinks.

Variable upd : t → option t.
Variable target : Q.
Hypothesis upd_shrinks : ∀ s s', upd s = Some s' → shrinks s s'.

Lemma cleanupLoop_shrinks L s cnt s' cnt' :
  cleanupLoop upd target L s cnt = Some (s', cnt') →
  Forall (λ e, filename e ∈ filename <$> recordings s ∨
               files (fs s) !! filename e = None) L →
  shrinks s s'.
Proof.
  revert s cnt. induction L as [|oldest rest IH]; intros s cnt; simpl.
  { intros [= <- <-] _. apply shrinks_refl. }
  destruct (negb (Qle_bool (usagePercent (stats s)) target)).
  2: { intros [= <- <-] _. apply shrinks_refl. }
  intros Hloop HL. apply Forall_cons in HL as [Hhead Hrest].
  destruct (deleteRecording_with upd (filename oldest) false s) as [[[] s1|s1]|] eqn:E;
    [| |done].
  - pose proof (deleteRecording_false_shrinks _ _ _ _ E Hhead) as H1.
    destruct (upd s1) as [s2|] eqn:E2; [|done].
    pose proof (shrinks_trans _ _ _ H1 (upd_shrinks _ _ E2)) as H2.
    apply (shrinks_trans s s2); [done|].
    apply (IH s2 (S cnt)); [done|]. by apply (visit_inv rest s).
  - destruct (deleteRecording_false upd (filename oldest) s)
      as [(s0 & E0 & _) | (E0 & _)]; rewrite E0 in E; [done|].
    injection E as <-. by apply (IH s cnt).
Qed.

End LoopShrinks.

Lemma updateStorageStats_fuel_shrinks n :
  ∀ s s', updateStorageStats_fuel n s = Some s' → shrinks s s'.
Proof.
  induction n as [|n IH]; intros s s'; [done|]. simpl.
  unfold updateStorageStats_with.
  set (st := computeStats (fs s) (recordings s)).
  set (s1 := set_stats st s).
  assert (Hclean : ∀ s2,
            (if autoCleanup (config s1) && Qle_bool (maxUsagePercent (config s1)) (usagePercent st)
             then performCleanup_with (updateStorageStats_fuel n) s1 else Some s1) = Some s2 →
            shrinks s s2).
  { intros s2. destruct (autoCleanup (config s1) && _).
    - unfold performCleanup_with.
      destruct (cleanupLoop _ _ _ s1 0%nat) as [[s3 cnt]|] eqn:E; [|done].
      intros [= <-].
      apply (cleanupLoop_shrinks _ _ IH) in E.
      + destruct E as (A1 & A2 & A3 & A4). by split_and!.
      + apply Forall_forall. intros e He. left.
        rewrite sortByTimestamp_perm in He. apply list_elem_of_fmap. by exists e.
    - intros [= <-]. by apply shrinks_same. }
  destruct (if autoCleanup (config s1) && _ then _ else _) as [s2|]; [|done].
  specialize (Hclean s2 eq_refl). intros [= <-].
  destruct Hclean as (A1 & A2 & A3 & A4).
  destruct (health (stats s2)); by split_and!.
Qed.

(** X14: what a refresh may touch.  [refresh()] returns, with the
    configuration and the index file as they were.  The index it leaves
    is the one before with some entries dropped, in the same order; the
    files left in the directory are as they were; a file that is gone
    was named by an entry of the index before; and a filename that is
    gone from the index has no file left. *)
Theorem refresh_only_shrinks (s : t) :
  ∃ s', refresh s = Some s' ∧
    config s' = config s ∧
    indexFile (fs s') = indexFile (fs s) ∧
    recordings s' `sublist_of` recordings s ∧
    files (fs s') ⊆ files (fs s) ∧
    (∀ file, files (fs s') !! file = None → is_Some (files (fs s) !! file) →
             file ∈ filename <$> recordings s) ∧
    (∀ file, file ∈ filename <$> recordings s → file ∉ filename <$> recordings s' →
             files (fs s') !! file = None).
Proof.
  destruct (updateStorageStats_total s) as (s' & E & Hcfg & Hidx & _).
  exists s'. split; [done|]. split; [done|]. split; [done|].
  by apply (updateStorageStats_fuel_shrinks _ _ _ E).
Qed.

Lemma updateStorageStats_idle (s : t) :
  autoCleanup (config s) = false ∨
  (usagePercent (computeStats (fs s) (recordings s)) < maxUsagePercent (config s))%Q →
  ∃ s', _updateStorageStats s = Some s' ∧
    recordings s' = recordings s ∧ fs s' = fs s ∧ removed s' = removed s ∧
    stats s' = computeStats (fs s) (recordings s).
Proof.
  intros H. unfold _updateStorageStats. simpl.
  unfold updateStorageStats_with.
  assert ((autoCleanup (config (set_stats (computeStats (fs s) (recordings s)) s)) &&
           Qle_bool (maxUsagePercent (config (set_stats (computeStats (fs s) (recordings s)) s)))
                    (usagePercent (computeStats (fs s) (recordings s)))) = false) as ->.
  { cbn [set_stats config]. destruct H as [->|Hlt]; [done|].
    apply andb_false_iff. right.
    destruct (Qle_bool _ _) eqn:E; [|done].
    apply Qle_bool_iff in E. by apply Qlt_not_le in Hlt. }
  eexists. split; [reflexivity|].
  by destruct (health _).
Qed.

(** X15: a refresh below the ceiling removes nothing.  When automatic
    cleanup is off, or the usage computed from the files of the indexed
    recordings is below the configured ceiling, [refresh()] leaves the
    index and the directory as they are and only recomputes the
    statistics. *)
Theorem refresh_below_ceiling (s : t) :
  autoCleanup (config s) = false ∨
  (usagePercent (computeStats (fs s) (recordings s)) < maxUsagePercent (config s))%Q →
  ∃ s', refresh s = Some s' ∧
    recordings s' = recordings s ∧ fs s' = fs s ∧ removed s' = removed s ∧
    stats s' = computeStats (fs s) (recordings s).
Proof. apply updateStorageStats_idle. Qed.

Lemma refresh_below_ceiling_witness :
  let e1 := mkRecording "rec_1" "CAM1" "a.mp4" 100 60 0 false in
  let disk := mkFS {["a.mp4" := mkFile 1024 false]} (Some [e1]) false in
  let s := mk (mkConfig "/rec" 90 true) [e1] (mkStats 0 0 0 0 HEALTHY) disk [] [] in
  ∃ s', refresh s = Some s' ∧ recordings s' = [e1] ∧ fs s' = disk.
Proof.
  intros e1 disk s.
  destruct (refresh_below_ceiling s) as (s' & E & Hr & Hf & _).
  - right. vm_compute. reflexivity.
  - exists s'. split; [exact E|]. split; [exact Hr|exact Hf].
Defined.


(** *** Deleting a recording *)

Lemma removeFirst_distinct file (l : list Recording) :
  distinctFiles l → file ∉ filename <$> removeFirst file l.
Proof.
  unfold distinctFiles. induction l as [|x l IH]; simpl; [by intros _ ?%elem_of_nil|].
  intros [Hx Hl]%NoDup_cons.
  destruct (String.eqb (filename x) file) eqn:E.
  - apply String.eqb_eq in E. by rewrite <- E.
  - apply String.eqb_neq in E. rewrite fmap_cons.
    intros [?|?]%elem_of_cons; [done|]. by apply IH.
Qed.




(** *** Looking a recording up *)

Lemma getRecording_None i s :
  getRecording i s = None ↔ ∀ r, r ∈ recordings s → id r ≠ i ∧ filename r ≠ i.
Proof.
  unfold getRecording. split.
  - intros Hnone r Hr.
    pose proof (find_none _ _ Hnone r (proj1 (list_elem_of_In _ _) Hr)) as H.
    apply orb_false_iff in H as [H1 H2].
    by apply String.eqb_neq in H1, H2.
  - intros Hall. destruct (find _ _) as [r|] eqn:E; [|done].
    apply find_some in E as [Hin Hm].
    destruct (Hall r (proj2 (list_elem_of_In _ _) Hin)) as [H1 H2].
    apply String.eqb_neq in H1, H2. by rewrite H1, H2 in Hm.
Qed.

Lemma deleteRecording_true_sublist file s s' :
  deleteRecording file true s = Some (Ok tt s') →
  recordings s' `sublist_of` removeFirst file (recordings s).
Proof.
  unfold deleteRecording, deleteRecording_with.
  assert (Hgo : ∀ s1, recordings s1 = recordings s →
            match _saveIndex (spliceByFilename file s1) with
            | Ok _ s3 =>
              match _updateStorageStats s3 with
              | Some s4 => Some (Ok tt (emit (recordingDeleted file) s4))
              | None => None
              end
            | Throw s3 => Some (Throw s3)
            end = Some (Ok tt s') →
            recordings s' `sublist_of` removeFirst file (recordings s)).
  { intros s1 Hrec. unfold _saveIndex.
    destruct (writeFails (fs (spliceByFilename file s1))); [done|].
    match goal with |- context [_updateStorageStats ?s3] =>
      destruct (_updateStorageStats s3) as [s4|] eqn:E; [|done];
      pose proof (updateStorageStats_fuel_shrinks _ _ _ E) as (A1 & _) end.
    intros [= <-]. cbn in *. by rewrite spliceByFilename_recordings, Hrec in A1. }
  destruct (unlink file (fs s)) as [[]|d]; [by apply Hgo|done|by apply Hgo].
Qed.

Lemma addRecording_appends rec now rand s e s' :
  addRecording rec now rand s = Some (Ok e s') →
  autoCleanup (config s) = false →
  recordings s' = recordings s ++ [e].
Proof.
  unfold addRecording, _saveIndex. cbn [set_recordings fs].
  destruct (writeFails (fs s)); [done|].
  match goal with |- context [_updateStorageStats ?s2] =>
    intros Hadd Hauto;
    destruct (refresh_without_autoCleanup s2 Hauto) as (s3 & E & Hrec & _) end.
  unfold refresh in E. rewrite E in Hadd. injection Hadd as <- <-.
  cbn [emit recordings]. by rewrite Hrec.
Qed.

Lemma find_snoc {A} (p : A → bool) (l : list A) x :
  find p l = None → p x = true → find p (l ++ [x]) = Some x.
Proof.
  induction l as [|y l IH]; simpl; [by intros _ ->|].
  destruct (p y); [done|]. apply IH.
Qed.

(** X17: a lookup after a change.  After [deleteRecording(file)] has
    returned on an index with distinct filenames none of whose
    identifiers is [file], [getRecording(file)] finds nothing.  After
    [addRecording] has returned with automatic cleanup off, on an index
    where nothing answered to the filename, [getRecording] of that
    filename finds the new entry. *)
Theorem lookup_after_change (s s' : t) :
  (∀ file,
     deleteRecording file true s = Some (Ok tt s') →
     distinctFiles (recordings s) →
     (∀ r, r ∈ recordings s → id r ≠ file) →
     getRecording file s' = None) ∧
  (∀ rec now rand e,
     addRecording rec now rand s = Some (Ok e s') →
     autoCleanup (config s) = false →
     getRecording (info_filename rec) s = None →
     getRecording (info_filename rec) s' = Some e).
Proof.
  split.
  - intros file Hdel Hdist Hid. apply getRecording_None. intros r Hr.
    pose proof (deleteRecording_true_sublist _ _ _ Hdel) as Hsub.
    pose proof (elem_of_sublist _ _ _ Hr Hsub) as Hr1.
    split.
    + apply Hid. eapply elem_of_sublist; [exact Hr1|apply removeFirst_sublist].
    + intros Hf. apply (removeFirst_distinct file (recordings s) Hdist).
      apply list_elem_of_fmap. by exists r.
  - intros rec now rand e Hadd Hauto Hnone.
    unfold getRecording in *. rewrite (addRecording_appends _ _ _ _ _ _ Hadd Hauto).
    apply find_snoc; [done|].
    assert (filename e = info_filename rec) as ->.
    { revert Hadd. unfold addRecording.
      destruct (_saveIndex _) as [[] s2|s2]; [|done].
      destruct (_updateStorageStats s2); [|done].
      intros [= <- <-]. by destruct (statSize _ _). }
    rewrite String.eqb_refl. apply orb_true_r.
Qed.

Lemma lookup_after_change_witness :
  let e1 := mkRecording "rec_1" "CAM1" "a.mp4" 100 60 0 false in
  let s := mk (mkConfig "/rec" 90 true) [e1] (mkStats 0 0 0 0 HEALTHY)
              (mkFS ∅ (Some [e1]) false) [] [] in
  ∃ s', deleteRecording "a.mp4" true s = Some (Ok tt s') ∧
        getRecording "a.mp4" s = Some e1 ∧ getRecording "a.mp4" s' = None.
Proof.
  intros e1 s. eexists. split; [vm_compute; reflexivity|]. split; [reflexivity|].
  eapply (proj1 (lookup_after_change s _) "a.mp4").
  - vm_compute. reflexivity.
  - apply (bool_decide_unpack _). vm_compute. exact I.
  - intros r Hr. apply list_elem_of_singleton in Hr as ->. done.
Defined.


(** *** Start-up *)

Lemma updateStorageStats_empty s :
  recordings s = [] →
  ∃ s', _updateStorageStats s = Some s' ∧
    recordings s' = [] ∧ fs s' = fs s ∧ stats s' = computeStats (fs s) [].
Proof.
  destruct s as [cfg recs st d em rm]. cbn [recordings fs]. intros ->.
  unfold _updateStorageStats. cbn [recordings length updateStorageStats_fuel].
  unfold updateStorageStats_with, performCleanup_with.
  cbn [recordings set_stats config fs stats emitted removed sortByTimestamp foldr
       cleanupLoop].
  match goal with |- context [if ?b then _ else _] => destruct b end;
    cbn [emit stats]; eexists; (split; [reflexivity|]);
    match goal with |- context [match ?h with _ => _ end] => by destruct h end.
Qed.

(** X18: [initialize()] on a new manager.  It throws, leaving the
    manager as it was, when the base directory cannot be created or when
    loading the index fails with an error other than a missing file (an
    unreadable or corrupt index file).  Otherwise, without an index file
    an empty index is written: the call throws when that write fails
    (nothing is written), and else returns with an empty index, no byte
    used and a healthy status.  With an index file that loads, the call
    returns with the statistics refreshed; the index file and (with
    automatic cleanup off) the loaded index and the directory are
    untouched; with cleanup on, the index left is the loaded one with
    entries dropped. *)
Theorem initialize_outcomes (io : Faults) (cfg : Config) (disk : FS) :
  let s0 := new cfg disk in
  (mkdirFails io = true → initialize io s0 = Some (Throw s0)) ∧
  (mkdirFails io = false → readFails io = true →
     initialize io s0 = Some (Throw s0)) ∧
  (mkdirFails io = false → readFails io = false →
     indexFile disk = None → writeFails disk = true →
     ∃ s', initialize io s0 = Some (Throw s') ∧ fs s' = disk ∧ recordings s' = []) ∧
  (mkdirFails io = false → readFails io = false →
     indexFile disk = None → writeFails disk = false →
     ∃ s', initialize io s0 = Some (Ok tt s') ∧
       recordings s' = [] ∧ indexFile (fs s') = Some [] ∧
       files (fs s') = files disk ∧
       usedBytes (stats s') = 0 ∧ health (stats s') = HEALTHY) ∧
  (∀ l, mkdirFails io = false → readFails io = false →
     indexFile disk = Some l →
     ∃ s', initialize io s0 = Some (Ok tt s') ∧
       recordings s' `sublist_of` l ∧
       indexFile (fs s') = Some l ∧
       files (fs s') ⊆ files disk ∧
       (autoCleanup cfg = false → recordings s' = l ∧ fs s' = disk)).
Proof.
  intros s0. subst s0. unfold initialize, _loadIndex, new. cbn [fs].
  split; [|split; [|split; [|split]]].
  - by intros ->.
  - by intros -> ->.
  - intros -> -> -> Hw. unfold _saveIndex. cbn [fs set_recordings]. rewrite Hw.
    by eexists.
  - intros -> -> Hidx Hw. rewrite Hidx. unfold _saveIndex. cbn [fs set_recordings].
    rewrite Hw.
    match goal with |- context [_updateStorageStats ?s1] =>
      destruct (updateStorageStats_empty s1 eq_refl) as (s2 & -> & Hr & Hf & Hst) end.
    exists s2. rewrite Hr, Hf, Hst. by split_and!.
  - intros l -> -> Hl. rewrite Hl.
    set (s1 := set_recordings l (mk cfg [] (mkStats 0 0 0 0 HEALTHY) disk [] [])).
    destruct (updateStorageStats_total s1) as (s2 & E & Hcfg & Hidx & _).
    pose proof (updateStorageStats_fuel_shrinks _ _ _ E) as (A1 & A2 & _).
    rewrite E. exists s2. split; [done|]. split; [exact A1|].
    split; [by rewrite Hidx|].
    split; [exact A2|].
    intros Hauto.
    destruct (updateStorageStats_idle s1 (or_introl Hauto)) as (s3 & E3 & Hr & Hf & _).
    rewrite E in E3. injection E3 as <-. by split.
Qed.

Lemma initialize_outcomes_witness :
  let e1 := mkRecording "rec_1" "CAM1" "a.mp4" 100 60 0 false in
  let ok := mkFaults false false in
  let corrupt := mkFaults false true in
  let s1 := new (mkConfig "/rec" 90 false) (mkFS ∅ (Some [e1]) true) in
  (∃ s', initialize ok (new (mkConfig "/rec" 90 true) (mkFS ∅ None false)) = Some (Ok tt s') ∧
         indexFile (fs s') = Some []) ∧
  (∃ s', initialize ok s1 = Some (Ok tt s') ∧ recordings s' = [e1]) ∧
  initialize corrupt s1 = Some (Throw s1) ∧
  initialize (mkFaults true false) s1 = Some (Throw s1).
Proof.
  intros e1 ok corrupt s1. split; [|split; [|split]].
  - destruct (proj1 (proj2 (proj2 (proj2
        (initialize_outcomes ok (mkConfig "/rec" 90 true) (mkFS ∅ None false))))))
      as (s' & E & _ & Hidx & _); [reflexivity..|].
    exists s'. split; [exact E|exact Hidx].
  - destruct (proj2 (proj2 (proj2 (proj2
        (initialize_outcomes ok (mkConfig "/rec" 90 false) (mkFS ∅ (Some [e1]) true)))))
        [e1])
      as (s' & E & _ & _ & _ & H); [reflexivity..|].
    exists s'. split; [exact E|]. apply H. reflexivity.
  - apply (proj1 (proj2
        (initialize_outcomes corrupt (mkConfig "/rec" 90 false) (mkFS ∅ (Some [e1]) true))));
      reflexivity.
  - apply (proj1
        (initialize_outcomes (mkFaults true false) (mkConfig "/rec" 90 false)
           (mkFS ∅ (Some [e1]) true))).
    reflexivity.
Defined.


(** *** The statistics *)

Lemma usage_le (c u : Z) :
  (inject_Z c <= inject_Z u / inject_Z assumedTotalBytes * 100)%Q ↔
  c * assumedTotalBytes ≤ 100 * u.
Proof.
  unfold Qle, Qdiv, Qmult, Qinv, inject_Z, assumedTotalBytes. simpl. lia.
Qed.

Lemma sumSizes_from (d : FS) (l : list Recording) (a : Z) :
  foldl (λ acc r, acc + default 0 (statSize d (filename r))) a l =
  a + sumSizes d l.
Proof.
  unfold sumSizes. revert a. induction l as [|x l IH]; intros a; simpl; [lia|].
  rewrite IH, (IH (0 + _)). lia.
Qed.

Lemma sumSizes_cons d x l :
  sumSizes d (x :: l) = default 0 (statSize d (filename x)) + sumSizes d l.
Proof. unfold sumSizes at 1. simpl. apply sumSizes_from. Qed.

Lemma sumSizes_perm d l1 l2 : l1 ≡ₚ l2 → sumSizes d l1 = sumSizes d l2.
Proof.
  induction 1 as [|x l1 l2 _ IH|x y l|l1 l2 l3 _ IH1 _ IH2];
    rewrite ?sumSizes_cons; lia.
Qed.

Lemma calculateHealth_bytes (u : Z) :
  let h := _calculateHealth (inject_Z u / inject_Z assumedTotalBytes * 100) in
  (h = CRITICAL ↔ 90 * assumedTotalBytes ≤ 100 * u) ∧
  (h = WARNING ↔ 70 * assumedTotalBytes ≤ 100 * u < 90 * assumedTotalBytes) ∧
  (h = HEALTHY ↔ 100 * u < 70 * assumedTotalBytes) ∧
  h ≠ ERROR.
Proof.
  intros h. subst h.
  pose proof (usage_le 90 u) as H90. pose proof (usage_le 70 u) as H70.
  change (inject_Z 90) with 90%Q in H90. change (inject_Z 70) with 70%Q in H70.
  unfold _calculateHealth.
  destruct (Qle_bool 90 _) eqn:E90; [|destruct (Qle_bool 70 _) eqn:E70].
  - apply Qle_bool_iff, H90 in E90.
    split_and!; [| | |done]; split; intros H;
      first [done | unfold assumedTotalBytes in *; lia].
  - apply Qle_bool_iff, H70 in E70.
    assert (¬ 90 * assumedTotalBytes ≤ 100 * u) as N90.
    { intros H. apply H90, Qle_bool_iff in H. congruence. }
    split_and!; [| | |done]; split; intros H;
      first [done | unfold assumedTotalBytes in *; lia].
  - assert (¬ 90 * assumedTotalBytes ≤ 100 * u) as N90.
    { intros H. apply H90, Qle_bool_iff in H. congruence. }
    assert (¬ 70 * assumedTotalBytes ≤ 100 * u) as N70.
    { intros H. apply H70, Qle_bool_iff in H. congruence. }
    split_and!; [| | |done]; split; intros H;
      first [done | unfold assumedTotalBytes in *; lia].
Qed.

(** X19: the statistics of a refresh.  The used bytes are the sum, over
    the entries of the index, of the size of the file each one names (an
    entry without file counts for nothing, and the order of the index
    does not matter); used and free bytes add up to the assumed capacity
    of 32 GiB; the status is [CRITICAL] from 90 % of the capacity on,
    [WARNING] from 70 % on, [HEALTHY] below, and never [ERROR]. *)
Theorem computeStats_health (d : FS) (l : list Recording) :
  let st := computeStats d l in
  usedBytes st = sumSizes d l ∧
  (∀ x l', sumSizes d (x :: l') =
           match files d !! filename x with Some f => fsize f | None => 0 end
           + sumSizes d l') ∧
  (∀ l', l ≡ₚ l' → computeStats d l' = st) ∧
  usedBytes st + freeBytes st = 32 * 1024 * 1024 * 1024 ∧
  (health st = CRITICAL ↔ 90 * assumedTotalBytes ≤ 100 * usedBytes st) ∧
  (health st = WARNING ↔
     70 * assumedTotalBytes ≤ 100 * usedBytes st < 90 * assumedTotalBytes) ∧
  (health st = HEALTHY ↔ 100 * usedBytes st < 70 * assumedTotalBytes) ∧
  health st ≠ ERROR.
Proof.
  intros st. subst st.
  split; [done|]. split.
  { intros x l'. rewrite sumSizes_cons. unfold statSize.
    by destruct (files d !! filename x). }
  split.
  { intros l' Hp. unfold computeStats. by rewrite (sumSizes_perm d l l' Hp). }
  split.
  { unfold computeStats. cbn [usedBytes freeBytes]. unfold assumedTotalBytes. lia. }
  apply (calculateHealth_bytes (sumSizes d l)).
Qed.

End StorageQueryFacts.

(** ** The motion detector: cameras, event rates, sensitivity *)

Module MotionRateFacts.
Import MotionDetector.
Import MotionFacts.

(** *** The cameras and their state records *)

Lemma consistent_new cfg : consistent (new cfg).
Proof.
  split.
  - intros c. cbn. rewrite !lookup_empty. split; by intros [? ?].
  - intros c st H. cbn in H. by rewrite lookup_empty in H.
Qed.

Lemma consistent_update d c st' st :
  consistent d → motionState d !! c = Some st →
  (isMotionActive st' = false → consecutiveFrames st' = 0%nat) →
  (isMotionActive st' = true → is_Some (motionStartTime st')) →
  consistent (set_motionState (<[c := st']> (motionState d)) d).
Proof.
  intros [H1 H2] Hst Ha Hb. split; cbn.
  - intros c'. rewrite H1. destruct (decide (c' = c)) as [->|Hne].
    + rewrite lookup_insert_eq, Hst. split; by eexists.
    + by rewrite lookup_insert_ne.
  - intros c' st0. destruct (decide (c' = c)) as [->|Hne].
    + rewrite lookup_insert_eq. by intros [= <-].
    + rewrite lookup_insert_ne by done. apply H2.
Qed.

Lemma processMotion_consistent c lvl now d st :
  consistent d → motionState d !! c = Some st →
  ∃ d' evs, _processMotion c lvl now d = Some (d', evs) ∧ consistent d'.
Proof.
  intros Hc Hst. unfold _processMotion. rewrite Hst.
  destruct (processMotionState (config d) lvl now st) as [st' evs] eqn:E.
  eexists _, _. split; [reflexivity|].
  apply (consistent_update d c st' st Hc Hst);
    unfold processMotionState in E;
    destruct (_ && _); injection E as <- <-; cbn; try done.
  intros _. destruct (isMotionActive st) eqn:Ea; [|by eexists].
  by apply (proj2 Hc c st Hst).
Qed.

Lemma processNoMotion_consistent c now d st :
  consistent d → motionState d !! c = Some st →
  ∃ d' evs, _processNoMotion c now d = Some (d', evs) ∧ consistent d'.
Proof.
  intros Hc Hst. unfold _processNoMotion. rewrite Hst.
  destruct (processNoMotionState now st) as [st' evs] eqn:E.
  eexists _, _. split; [reflexivity|].
  destruct (proj2 Hc c st Hst) as [Ha Hb].
  apply (consistent_update d c st' st Hc Hst);
    unfold processNoMotionState in E;
    destruct (isMotionActive st) eqn:Ea; injection E as <- <-; cbn; try done.
  - by rewrite Ea.
  - by rewrite Ea.
Qed.

Lemma step_consistent o d :
  consistent d → ∃ d' evs, step o d = Some (d', evs) ∧ consistent d'.
Proof.
  intros Hc. pose proof Hc as [H1 H2].
  assert (Hframe : ∀ c f now, ∃ d' evs, processFrame c f now d = Some (d', evs) ∧
                                        consistent d').
  { intros c f now. unfold processFrame.
    destruct (cameras d !! c) as [cam|] eqn:Ecam; [|by eexists _, _].
    destruct (negb (cam_enabled cam)); [by eexists _, _|].
    destruct (proj1 (H1 c)) as [st Hst]; [by eexists|].
    destruct (_validateMotion (config d) f).
    - by apply (processMotion_consistent c _ now d st).
    - by apply (processNoMotion_consistent c now d st). }
  destruct o as [c url|c|c b|l|c f now|c lvl now|c lvl now]; cbn [step].
  - eexists _, _. split; [reflexivity|]. unfold attachCamera.
    destruct (cameras d !! c) as [cam|] eqn:Ecam; [done|].
    split; cbn.
    + intros c'. destruct (decide (c' = c)) as [->|Hne].
      * rewrite !lookup_insert_eq. split; by eexists.
      * rewrite !lookup_insert_ne by done. apply H1.
    + intros c' st. destruct (decide (c' = c)) as [->|Hne].
      * rewrite lookup_insert_eq. by intros [= <-].
      * rewrite lookup_insert_ne by done. apply H2.
  - eexists _, _. split; [reflexivity|]. split; cbn.
    + intros c'. destruct (decide (c' = c)) as [->|Hne].
      * rewrite !lookup_delete_eq. split; by intros [? ?].
      * rewrite !lookup_delete_ne by done. apply H1.
    + intros c' st [Hne Hl]%lookup_delete_Some. by apply (H2 c').
  - eexists _, _. split; [reflexivity|]. unfold setEnabled.
    destruct (cameras d !! c) as [cam|] eqn:Ecam; [|done].
    split; cbn; [|done].
    intros c'. rewrite <- H1. destruct (decide (c' = c)) as [->|Hne].
    + rewrite lookup_insert_eq, Ecam. split; by eexists.
    + by rewrite lookup_insert_ne.
  - eexists _, _. split; [reflexivity|]. by split.
  - apply Hframe.
  - unfold onCameraMotionEvent.
    destruct (cameras d !! c) as [cam|] eqn:Ecam; [|by eexists _, _].
    destruct (negb (cam_enabled cam)); [by eexists _, _|].
    destruct (proj1 (H1 c)) as [st Hst]; [by eexists|].
    by apply (processMotion_consistent c _ now d st).
  - apply Hframe.
Qed.

Lemma getStatus_consistent c d : consistent d → is_Some (getStatus c d).
Proof.
  intros [H1 _]. unfold getStatus.
  destruct (cameras d !! c) as [cam|] eqn:Ecam; [|by eexists].
  destruct (proj1 (H1 c)) as [st ->]; by eexists.
Qed.

(** X20: no call on the detector throws.  From a detector whose cameras
    and state records go together (as in a new detector), every
    sequence of calls (attach, detach, enable or disable, set the
    sensitivity, process a frame, a camera event or a simulated motion)
    runs to its end; the cameras and state records still go together:
    every camera has a state record and conversely, a record without an
    open episode has a frame counter of zero; and [getStatus] then
    returns for every camera id. *)
Theorem exec_consistent (ops : list Op) (d : t) :
  consistent d →
  ∃ d' evss, exec ops d = Some (d', evss) ∧ consistent d' ∧
    length evss = length ops ∧
    ∀ c, is_Some (getStatus c d').
Proof.
  revert d. induction ops as [|o ops IH]; intros d Hc; cbn [exec].
  - exists d, []. split_and!; try done. intros c. by apply getStatus_consistent.
  - destruct (step_consistent o d Hc) as (d1 & evs & -> & Hc1).
    destruct (IH d1 Hc1) as (d2 & evss & -> & Hc2 & Hlen & Hst).
    exists d2, (evs :: evss). split_and!; try done. cbn. by rewrite Hlen.
Qed.

Lemma exec_consistent_witness :
  let f := mkFrameData 10 50 false false in
  ∃ d' evss,
    exec [OpAttach "CAM1" None; OpFrame "CAM1" f 1000; OpDetach "CAM1";
          OpFrame "CAM1" f 1100; OpCameraEvent "CAM2" 50 1200]
         (new (mkConfig 15 300 5 true true medium)) = Some (d', evss) ∧
    consistent d'.
Proof.
  intros f.
  destruct (exec_consistent
              [OpAttach "CAM1" None; OpFrame "CAM1" f 1000; OpDetach "CAM1";
               OpFrame "CAM1" f 1100; OpCameraEvent "CAM2" 50 1200]
              (new (mkConfig 15 300 5 true true medium)))
    as (d' & evss & E & Hc & _).
  - split.
    + intros c. cbn. rewrite !lookup_empty. split; by intros [? ?].
    + intros c st H. cbn in H. by rewrite lookup_empty in H.
  - exists d', evss. split; [exact E|exact Hc].
Defined.


(** *** How often motion is confirmed *)

Lemma ended_app evs evs' : ended (evs ++ evs') = ended evs ++ ended evs'.
Proof. unfold ended. apply filter_app. Qed.

Lemma candidates_cons c now f rest :
  candidates c ((now, f) :: rest) =
  if _validateMotion c f then (now, f) :: candidates c rest else candidates c rest.
Proof.
  unfold candidates. rewrite filter_cons. cbn.
  destruct (_validateMotion c f); cbn.
  - by rewrite decide_True.
  - by rewrite decide_False.
Qed.

Lemma feedState_cons_state c now f rest st :
  (feedState c ((now, f) :: rest) st).1 =
    (feedState c rest (frameStep c now f st).1).1.
Proof.
  simpl. destruct (frameStep c now f st) as [st1 e1]. simpl.
  destruct (feedState c rest st1) as [st2 e2]. reflexivity.
Qed.

Lemma events_of_start now dur lvl :
  confirmed [mkMotionEvent MOTION_START now dur lvl] =
    [mkMotionEvent MOTION_START now dur lvl] ∧
  ended [mkMotionEvent MOTION_START now dur lvl] = [].
Proof. split; reflexivity. Qed.

Lemma events_of_end now dur lvl :
  confirmed [mkMotionEvent MOTION_END now dur lvl] = [] ∧
  ended [mkMotionEvent MOTION_END now dur lvl] = [mkMotionEvent MOTION_END now dur lvl].
Proof. split; reflexivity. Qed.

(** The counts after one frame. *)
Lemma frameStep_counts c now f st :
  let r := frameStep c now f st in
  let cand := if _validateMotion c f then 1%nat else 0%nat in
  (3 * length (confirmed r.2) + consecutiveFrames r.1
     ≤ consecutiveFrames st + cand)%nat ∧
  (length (ended r.2) + (if isMotionActive r.1 then 1 else 0)
     ≤ (if isMotionActive st then 1 else 0) + cand)%nat.
Proof.
  unfold frameStep. destruct (_validateMotion c f); cbn zeta.
  - unfold processMotionState.
    destruct (minDurationMs c <=? _) eqn:E1; cbn [andb].
    + destruct (3 <=? S (consecutiveFrames st))%nat eqn:E2.
      * apply Nat.leb_le in E2. cbn [fst snd].
        destruct (events_of_start now
                    (Some (elapsed now (if isMotionActive st then motionStartTime st
                                        else Some now)))
                    (Some (motionLevel f))) as [-> ->].
        cbn. destruct (isMotionActive st); lia.
      * cbn. destruct (isMotionActive st); lia.
    + cbn. destruct (isMotionActive st); lia.
  - unfold processNoMotionState. destruct (isMotionActive st) eqn:Ea; cbn [fst snd].
    + destruct (events_of_end now None None) as [-> ->]. cbn. lia.
    + rewrite Ea. cbn. lia.
Qed.

Lemma feedState_counts c frames st :
  let r := feedState c frames st in
  (3 * length (confirmed r.2) + consecutiveFrames r.1
     ≤ consecutiveFrames st + length (candidates c frames))%nat ∧
  (length (ended r.2) + (if isMotionActive r.1 then 1 else 0)
     ≤ (if isMotionActive st then 1 else 0) + length (candidates c frames))%nat.
Proof.
  revert st. induction frames as [|[now f] rest IH]; intros st; cbn zeta.
  - cbn. lia.
  - rewrite feedState_cons, feedState_cons_state, candidates_cons.
    rewrite confirmed_app, ended_app, !length_app.
    pose proof (frameStep_counts c now f st) as [H1 H2]. cbn zeta in H1, H2.
    destruct (IH (frameStep c now f st).1) as [G1 G2]. cbn zeta in G1, G2.
    destruct (_validateMotion c f); cbn [length]; lia.
Qed.

(** X21: how often motion is confirmed.  Over any sequence of frames fed
    to an attached, enabled camera, three times the number of confirmed
    motion events is at most the frame counter at the start plus the
    number of candidate frames (those that pass the validation), and the
    number of [MOTION_END] events is at most the number of candidate
    frames, plus one when an episode was open at the start. *)
Theorem feed_event_counts (c : string) (frames : list (Z * FrameData)) (d : t)
    (cam : Camera) (st : MotionState) :
  cameras d !! c = Some cam → cam_enabled cam = true →
  motionState d !! c = Some st →
  ∃ d' evs, feed c frames d = Some (d', evs) ∧
    (3 * length (confirmed evs)
       ≤ consecutiveFrames st + length (candidates (config d) frames))%nat ∧
    (length (ended evs)
       ≤ (if isMotionActive st then 1 else 0) + length (candidates (config d) frames))%nat.
Proof.
  intros Hcam Hen Hst. rewrite (feed_feedState c frames d cam st Hcam Hen Hst).
  eexists _, _. split; [reflexivity|].
  pose proof (feedState_counts (config d) frames st) as [H1 H2]. cbn zeta in *.
  split; [lia|]. destruct (isMotionActive (feedState (config d) frames st).1); lia.
Qed.

Lemma feed_event_counts_witness :
  let d := attachCamera "CAM1" None (new (mkConfig 15 300 5 true true medium)) in
  let f := mkFrameData 10 50 false false in
  ∃ d' evs, feed "CAM1" [(1000, f); (1100, f); (1300, f); (1400, f)] d = Some (d', evs) ∧
    (3 * length (confirmed evs) ≤ 0 + 4)%nat.
Proof.
  intros d f.
  destruct (feed_event_counts "CAM1" [(1000, f); (1100, f); (1300, f); (1400, f)] d
              (mkCamera None true) (mkMotionState false None 0 0))
    as (d' & evs & E & H & _); [reflexivity|reflexivity|reflexivity|].
  exists d', evs. split; [exact E|exact H].
Defined.

(** *** How far apart confirmed events are *)

Lemma confirmed_cons_start e evs :
  type e = MOTION_START → confirmed (e :: evs) = e :: confirmed evs.
Proof. intros H. unfold confirmed. rewrite filter_cons. by rewrite decide_True. Qed.

Lemma spaced_weaken gap from from' evs :
  from' ≤ from → spaced gap from evs → spaced gap from' evs.
Proof. destruct evs as [|e evs]; [done|]. cbn. intros H [H1 H2]. split; [lia|done]. Qed.

Lemma feedState_spaced c frames :
  ∀ st from,
    StronglySorted Z.le frames.*1 →
    Forall (λ t, from ≤ t) frames.*1 →
    (isMotionActive st = true → ∃ t0, motionStartTime st = Some t0 ∧ from ≤ t0) →
    spaced (minDurationMs c) from (confirmed (feedState c frames st).2).
Proof.
  induction frames as [|[now f] rest IH]; intros st from Hsorted Hfrom Hact; [done|].
  rewrite feedState_cons, confirmed_app.
  rewrite fmap_cons in Hsorted, Hfrom. cbn [fst] in Hsorted, Hfrom.
  apply StronglySorted_inv in Hsorted as [Hsorted Hnow].
  apply Forall_cons in Hfrom as [Hfrom0 Hfrom].
  unfold frameStep. destruct (_validateMotion c f).
  - unfold processMotionState.
    destruct (minDurationMs c <=? _) eqn:E1; cbn [andb].
    + destruct (3 <=? S (consecutiveFrames st))%nat eqn:E2.
      * (* a confirmed event at [now] *)
        cbn [fst snd]. rewrite confirmed_cons_start by done. cbn [app].
        apply Z.leb_le in E1. split.
        -- cbn [timestamp]. unfold elapsed in E1.
           destruct (isMotionActive st) eqn:Ea.
           ++ destruct (Hact eq_refl) as (t0 & Ht0 & Hle). rewrite Ht0 in E1. cbn in E1. lia.
           ++ cbn in E1. lia.
        -- cbn [timestamp]. apply IH; [done|done|].
           intros _. exists now. split; [done|lia].
      * cbn [fst snd app]. apply IH; [done|done|].
        intros _. destruct (isMotionActive st) eqn:Ea.
        -- by apply Hact.
        -- exists now. split; [done|lia].
    + cbn [fst snd app]. apply IH; [done|done|].
      intros _. destruct (isMotionActive st) eqn:Ea.
      * by apply Hact.
      * exists now. split; [done|lia].
  - unfold processNoMotionState. destruct (isMotionActive st) eqn:Ea; cbn [fst snd].
    + change (confirmed [mkMotionEvent MOTION_END now None None]) with (@nil MotionEvent).
      cbn [app]. apply IH; [done|done|]. cbn. done.
    + cbn [app]. apply IH; [done|done|]. by rewrite Ea.
Qed.

Lemma spaced_lookup gap from evs i e1 e2 :
  spaced gap from evs → evs !! i = Some e1 → evs !! S i = Some e2 →
  timestamp e1 + gap ≤ timestamp e2.
Proof.
  revert from i. induction evs as [|e evs IH]; intros from i; [done|].
  cbn. intros [H1 H2]. destruct i as [|i]; cbn.
  - intros [= <-] He2. destruct evs as [|e' evs]; [done|].
    cbn in He2. injection He2 as <-. by destruct H2.
  - apply (IH _ i H2).
Qed.

(** X22: how far apart confirmed events are.  When the frames fed to an
    attached, enabled camera without open episode carry times that never
    decrease, two consecutive confirmed motion events are at least
    [minDurationMs] apart. *)
Theorem feed_confirmed_spacing (c : string) (frames : list (Z * FrameData)) (d : t)
    (cam : Camera) (st : MotionState) :
  cameras d !! c = Some cam → cam_enabled cam = true →
  motionState d !! c = Some st → isMotionActive st = false →
  StronglySorted Z.le frames.*1 →
  ∃ d' evs, feed c frames d = Some (d', evs) ∧
    ∀ i e1 e2, confirmed evs !! i = Some e1 → confirmed evs !! S i = Some e2 →
               timestamp e1 + minDurationMs (config d) ≤ timestamp e2.
Proof.
  intros Hcam Hen Hst Hidle Hsorted.
  rewrite (feed_feedState c frames d cam st Hcam Hen Hst).
  eexists _, _. split; [reflexivity|]. cbn [snd].
  intros i e1 e2.
  destruct frames as [|[t0 f0] rest] eqn:Ef; [done|]. rewrite <- Ef in *.
  apply (spaced_lookup _ t0).
  apply feedState_spaced; [done| |by rewrite Hidle].
  rewrite Ef in *. rewrite fmap_cons in *. cbn [fst] in *.
  apply StronglySorted_inv in Hsorted as [_ Hall].
  constructor; [lia|done].
Qed.

Lemma feed_confirmed_spacing_witness :
  let d := attachCamera "CAM1" None (new (mkConfig 15 300 5 true true medium)) in
  let f := mkFrameData 10 50 false false in
  ∃ d' evs,
    feed "CAM1" [(1000, f); (1100, f); (1300, f); (1400, f); (1500, f); (1600, f)] d
      = Some (d', evs) ∧
    length (confirmed evs) = 2%nat ∧
    ∀ e1 e2, confirmed evs !! 0%nat = Some e1 → confirmed evs !! 1%nat = Some e2 →
             timestamp e1 + 300 ≤ timestamp e2.
Proof.
  intros d f.
  destruct (feed_confirmed_spacing "CAM1"
              [(1000, f); (1100, f); (1300, f); (1400, f); (1500, f); (1600, f)] d
              (mkCamera None true) (mkMotionState false None 0 0))
    as (d' & evs & E & H); [reflexivity|reflexivity|reflexivity|reflexivity| |].
  - cbn. repeat (constructor; [|repeat constructor; lia]). constructor.
  - exists d', evs. split; [exact E|]. split.
    + vm_compute in E. injection E as _ <-. reflexivity.
    + intros e1 e2. apply (H 0%nat).
Defined.


(** *** Sensitivity *)

Lemma threshold_scale (t lvl a b : Q) :
  (0 <= t)%Q → (a <= b)%Q → (t * b <= lvl)%Q → (t * a <= lvl)%Q.
Proof.
  intros Ht Hab Hb. eapply Qle_trans; [|exact Hb].
  rewrite !(Qmult_comm t). by apply Qmult_le_compat_r.
Qed.

Lemma validate_scale (c1 c2 : Config) (f : FrameData) :
  (0 <= threshold c1)%Q →
  threshold c2 = threshold c1 →
  minPixelChangePercent c2 = minPixelChangePercent c1 →
  ignoreShadows c2 = ignoreShadows c1 →
  ignoreLightingChanges c2 = ignoreLightingChanges c1 →
  (sensitivityMap (sensitivityLevel c2) <= sensitivityMap (sensitivityLevel c1))%Q →
  _validateMotion c1 f = true → _validateMotion c2 f = true.
Proof.
  intros Ht E1 E2 E3 E4 Hs. unfold _validateMotion. rewrite E1, E2, E3, E4.
  destruct (Qle_bool (threshold c1 * sensitivityMap (sensitivityLevel c1)) (motionLevel f))
    eqn:Ha; [|done].
  apply Qle_bool_iff in Ha.
  assert (Qle_bool (threshold c1 * sensitivityMap (sensitivityLevel c2)) (motionLevel f)
          = true) as ->; [|done].
  apply Qle_bool_iff. by apply (threshold_scale _ _ _ (sensitivityMap (sensitivityLevel c1))).
Qed.

(** X23: sensitivity is monotone.  With a threshold that is not
    negative, [setSensitivity] changes nothing but the level, and a
    frame that passes the validation at low sensitivity passes it at
    medium sensitivity, and one that passes it at medium sensitivity
    passes it at high sensitivity. *)
Theorem sensitivity_monotone (d : t) (f : FrameData) :
  (0 <= threshold (config d))%Q →
  (∀ l, cameras (setSensitivity l d) = cameras d ∧
        motionState (setSensitivity l d) = motionState d ∧
        sensitivityLevel (config (setSensitivity l d)) = l) ∧
  (_validateMotion (config (setSensitivity low d)) f = true →
   _validateMotion (config (setSensitivity medium d)) f = true) ∧
  (_validateMotion (config (setSensitivity medium d)) f = true →
   _validateMotion (config (setSensitivity high d)) f = true).
Proof.
  intros Ht. split; [done|]. split.
  - apply validate_scale; done.
  - apply validate_scale; done.
Qed.

Lemma sensitivity_monotone_witness :
  let d := new (mkConfig 15 300 5 true true low) in
  let f := mkFrameData 10 50 false false in
  _validateMotion (config (setSensitivity high d)) f = true.
Proof.
  intros d f.
  destruct (sensitivity_monotone d f) as (_ & H1 & H2).
  - unfold Qle. cbn. lia.
  - apply H2, H1. reflexivity.
Defined.

(** *** Attaching and detaching *)

(** Attaching and detaching.  A second [attachCamera] of an attached
    camera changes nothing (the address and the state of the first one
    stay); [detachCamera] forgets the camera and its state and leaves
    the other cameras alone; the frames of a detached camera are
    dropped: no event, no change; attaching it again gives it an
    enabled camera with a fresh state. *)
Theorem attach_detach (c : string) (url url2 : option string) (d : t) :
  attachCamera c url2 (attachCamera c url d) = attachCamera c url d ∧
  cameras (detachCamera c d) !! c = None ∧
  motionState (detachCamera c d) !! c = None ∧
  (∀ c', c' ≠ c →
     cameras (detachCamera c d) !! c' = cameras d !! c' ∧
     motionState (detachCamera c d) !! c' = motionState d !! c') ∧
  (∀ f now, processFrame c f now (detachCamera c d) = Some (detachCamera c d, [])) ∧
  (∀ lvl now,
     onCameraMotionEvent c lvl now (detachCamera c d) = Some (detachCamera c d, [])) ∧
  cameras (attachCamera c url (detachCamera c d)) !! c = Some (mkCamera url true) ∧
  motionState (attachCamera c url (detachCamera c d)) !! c =
    Some (mkMotionState false None 0 0).
Proof.
  split_and!.
  - unfold attachCamera at 2. destruct (cameras d !! c) as [cam|] eqn:E.
    + unfold attachCamera. by rewrite E.
    + unfold attachCamera. rewrite E. cbn. by rewrite lookup_insert_eq.
  - cbn. apply lookup_delete_eq.
  - cbn. apply lookup_delete_eq.
  - intros c' Hne. cbn. by rewrite !lookup_delete_ne.
  - intros f now. unfold processFrame. cbn. by rewrite lookup_delete_eq.
  - intros lvl now. unfold onCameraMotionEvent. cbn. by rewrite lookup_delete_eq.
  - unfold attachCamera. cbn. rewrite lookup_delete_eq. cbn. apply lookup_insert_eq.
  - unfold attachCamera. cbn. rewrite lookup_delete_eq. cbn. apply lookup_insert_eq.
Qed.

Lemma setEnabled_lookup c b d cam :
  cameras d !! c = Some cam →
  cameras (setEnabled c b d) !! c = Some (mkCamera (cam_rtspUrl cam) b) ∧
  motionState (setEnabled c b d) = motionState d.
Proof.
  intros H. unfold setEnabled. rewrite H. cbn. by rewrite lookup_insert_eq.
Qed.

(** X24: a disabled camera.  While a camera is disabled its frames and
    events are dropped: nothing is emitted and nothing changes, so an
    episode that was open stays open; the frames count again as soon as
    the camera is enabled. *)
Theorem disabled_camera_drops (c : string) (d : t) (cam : Camera) :
  cameras d !! c = Some cam →
  let d0 := setEnabled c false d in
  motionState d0 = motionState d ∧
  (∀ f now, processFrame c f now d0 = Some (d0, [])) ∧
  (∀ lvl now, onCameraMotionEvent c lvl now d0 = Some (d0, [])) ∧
  (∀ lvl now, simulateMotion c lvl now d0 = Some (d0, [])) ∧
  (∀ frames, feed c frames d0 = Some (d0, [])) ∧
  (cam_enabled cam = true → setEnabled c true d0 = d).
Proof.
  intros Hcam d0.
  destruct (setEnabled_lookup c false d cam Hcam) as [Hl Hm]. fold d0 in Hl, Hm.
  assert (Hdrop : ∀ f now, processFrame c f now d0 = Some (d0, [])).
  { intros f now. unfold processFrame. by rewrite Hl. }
  split_and!; try done.
  - intros lvl now. unfold onCameraMotionEvent. by rewrite Hl.
  - intros lvl now. apply Hdrop.
  - intros frames. induction frames as [|[now f] rest IH]; [done|].
    cbn [feed]. by rewrite Hdrop, IH.
  - intros Hen. subst d0. unfold setEnabled. rewrite Hcam. cbn.
    rewrite lookup_insert_eq. cbn. rewrite insert_insert_eq.
    destruct d as [cfg cams ms], cam as [u e].
    cbn in *. subst e. f_equal. by apply insert_id.
Qed.

Lemma disabled_camera_drops_witness :
  let d := attachCamera "CAM1" None (new (mkConfig 15 300 5 true true medium)) in
  let f := mkFrameData 10 50 false false in
  feed "CAM1" [(1000, f); (1100, f); (1300, f)] (setEnabled "CAM1" false d)
    = Some (setEnabled "CAM1" false d, []).
Proof.
  intros d f.
  apply (disabled_camera_drops "CAM1" d (mkCamera None true)).
  reflexivity.
Defined.

End MotionRateFacts.

(** ** The security manager: lockout, sessions, PIN *)

Module SecurityFacts.
Import SecurityManager.

(** *** The lockout *)

(** The three cases of [authenticateAdmin]. *)
Lemma authenticateAdmin_locked pin ip now s :
  lockedOut ip now s = true → authenticateAdmin pin ip now s = (false, s).
Proof.
  unfold lockedOut, authenticateAdmin.
  destruct (loginAttempts s !! ip) as [a|]; [|done].
  intros [-> ->]%andb_true_iff. done.
Qed.

Lemma authenticateAdmin_right ip now s :
  lockedOut ip now s = false →
  authenticateAdmin (adminPin (config s)) ip now s =
    (true, set_loginAttempts (delete ip (loginAttempts s)) s).
Proof.
  unfold lockedOut, authenticateAdmin.
  destruct (loginAttempts s !! ip) as [a|] eqn:E.
  - destruct (maxLoginAttempts (config s) <=? count a); cbn [andb].
    + intros ->. cbn [config set_loginAttempts loginAttempts]. rewrite String.eqb_refl.
      by rewrite delete_delete_eq.
    + intros _. by rewrite String.eqb_refl.
  - intros _. by rewrite String.eqb_refl.
Qed.

Lemma authenticateAdmin_wrong pin ip now s :
  lockedOut ip now s = false → pin ≠ adminPin (config s) →
  authenticateAdmin pin ip now s =
    (false,
     set_loginAttempts
       (<[ip := mkAttempts
                  (match loginAttempts s !! ip with
                   | Some a => if maxLoginAttempts (config s) <=? count a then 1
                               else count a + 1
                   | None => 1
                   end) now]> (loginAttempts s)) s).
Proof.
  intros Hl Hpin. apply String.eqb_neq in Hpin.
  unfold lockedOut in Hl. unfold authenticateAdmin.
  destruct (loginAttempts s !! ip) as [a|] eqn:E.
  - destruct (maxLoginAttempts (config s) <=? count a); cbn [andb] in Hl.
    + rewrite Hl. cbn [config set_loginAttempts loginAttempts]. rewrite Hpin.
      rewrite lookup_delete_eq. by rewrite insert_delete_eq.
    + cbn [config]. by rewrite Hpin.
  - by rewrite Hpin.
Qed.

Lemma authenticateAdmin_frame pin ip now s :
  config (authenticateAdmin pin ip now s).2 = config s ∧
  sessions (authenticateAdmin pin ip now s).2 = sessions s ∧
  pairedDevices (authenticateAdmin pin ip now s).2 = pairedDevices s ∧
  (∀ ip', ip' ≠ ip →
     loginAttempts (authenticateAdmin pin ip now s).2 !! ip' = loginAttempts s !! ip').
Proof.
  destruct (lockedOut ip now s) eqn:Hl.
  - by rewrite authenticateAdmin_locked.
  - destruct (decide (pin = adminPin (config s))) as [->|Hne].
    + rewrite authenticateAdmin_right by done. cbn. split_and!; try done.
      intros ip' Hne. by rewrite lookup_delete_ne.
    + rewrite authenticateAdmin_wrong by done. cbn. split_and!; try done.
      intros ip' Hne'. by rewrite lookup_insert_ne.
Qed.

Lemma attempts_wrong_unlocked ip pin now rest s :
  lockedOut ip now s = false → pin ≠ adminPin (config s) →
  attempts ip ((pin, now) :: rest) s =
    (false :: (attempts ip rest (authenticateAdmin pin ip now s).2).1,
     (attempts ip rest (authenticateAdmin pin ip now s).2).2).
Proof.
  intros Hl Hpin. cbn [attempts]. rewrite authenticateAdmin_wrong by done.
  cbn [snd]. by destruct (attempts ip rest _).
Qed.

(** After [n] failures in a row on an address whose record shows fewer
    than the limit. *)
Lemma failures_count ip (tries : list (string * Z)) :
  ∀ s c0,
    (match loginAttempts s !! ip with Some a => count a | None => 0 end) = c0 →
    0 ≤ c0 →
    c0 + Z.of_nat (length tries) ≤ maxLoginAttempts (config s) →
    tries ≠ [] →
    Forall (λ pt, pt.1 ≠ adminPin (config s)) tries →
    let r := attempts ip tries s in
    r.1 = replicate (length tries) false ∧
    config r.2 = config s ∧ sessions r.2 = sessions s ∧
    loginAttempts r.2 !! ip =
      Some (mkAttempts (c0 + Z.of_nat (length tries)) (default 0 (last tries.*2))).
Proof.
  induction tries as [|[pin now] rest IH]; intros s c0 Hc0 Hpos Hmax Hne Hall; [done|].
  apply Forall_cons in Hall as [Hpin Hall]. cbn [fst] in Hpin.
  assert (Hl : lockedOut ip now s = false).
  { unfold lockedOut. destruct (loginAttempts s !! ip) as [a|]; [|done].
    assert ((maxLoginAttempts (config s) <=? count a) = false) as ->; [|done].
    apply Z.leb_gt. cbn [length] in Hmax. lia. }
  assert (Hlt : ∀ a, loginAttempts s !! ip = Some a →
                     (maxLoginAttempts (config s) <=? count a) = false).
  { intros a Ha. rewrite Ha in Hc0. apply Z.leb_gt. cbn [length] in Hmax. lia. }
  cbn zeta. rewrite attempts_wrong_unlocked by done.
  rewrite authenticateAdmin_wrong by done. cbn [fst snd].
  set (s1 := set_loginAttempts _ s).
  assert (Hrec : loginAttempts s1 !! ip = Some (mkAttempts (c0 + 1) now)).
  { unfold s1. cbn. rewrite lookup_insert_eq. f_equal. f_equal.
    destruct (loginAttempts s !! ip) as [a|] eqn:Ea.
    - rewrite (Hlt a eq_refl). lia.
    - lia. }
  destruct rest as [|pt rest'].
  - cbn. split_and!; done.
  - destruct (IH s1 (c0 + 1)) as (H1 & H2 & H3 & H4).
    + by rewrite Hrec.
    + lia.
    + cbn [length] in *. cbn [config s1 set_loginAttempts]. lia.
    + done.
    + done.
    + cbn zeta in *. split_and!.
      * cbn [length replicate]. by rewrite H1.
      * by rewrite H2.
      * by rewrite H3.
      * rewrite H4. f_equal. f_equal.
        all: try (cbn [length]; lia).
        all: try done.
Qed.

(** X25: the lockout.  From a record without failures for an address,
    as many failed logins in a row as the limit allows (five) are all
    answered [false] and leave the address locked: until the lockout
    duration has passed since the last of them, every login from that
    address is refused, the admin PIN included, and nothing changes;
    from then on the admin PIN is accepted and clears the record.
    Sessions and configuration are untouched throughout. *)
Theorem lockout_after_failures (s : t) (ip : string) (tries : list (string * Z)) :
  loginAttempts s !! ip = None →
  Z.of_nat (length tries) = maxLoginAttempts (config s) →
  tries ≠ [] →
  Forall (λ pt, pt.1 ≠ adminPin (config s)) tries →
  let r := attempts ip tries s in
  let tlast := default 0 (last tries.*2) in
  r.1 = replicate (length tries) false ∧
  config r.2 = config s ∧ sessions r.2 = sessions s ∧
  (∀ pin now, now < tlast + lockoutDuration (config s) →
     authenticateAdmin pin ip now r.2 = (false, r.2)) ∧
  (∀ now, tlast + lockoutDuration (config s) ≤ now →
     authenticateAdmin (adminPin (config s)) ip now r.2 =
       (true, set_loginAttempts (delete ip (loginAttempts r.2)) r.2)).
Proof.
  intros Hnone Hlen Hne Hall r tlast.
  destruct (failures_count ip tries s 0) as (H1 & H2 & H3 & H4);
    [by rewrite Hnone|lia|lia|done|done|].
  fold r in H1, H2, H3, H4. fold tlast in H4. rewrite Z.add_0_l in H4.
  split_and!; try done.
  - intros pin now Hnow. apply authenticateAdmin_locked.
    unfold lockedOut. rewrite H4, H2. cbn [count lastAttempt].
    apply andb_true_iff. split; [apply Z.leb_le; lia|by apply Z.ltb_lt].
  - intros now Hnow. rewrite <- H2. apply authenticateAdmin_right.
    unfold lockedOut. rewrite H4, H2. cbn [count lastAttempt].
    apply andb_false_iff. right. apply Z.ltb_ge. lia.
Qed.

Lemma lockout_after_failures_witness :
  let s := new "4321" 0 true in
  let tries := [("0000", 10); ("1111", 20); ("2222", 30); ("3333", 40); ("1234", 50)] in
  authenticateAdmin "4321" "10.0.0.7" 300049 (attempts "10.0.0.7" tries s).2
    = (false, (attempts "10.0.0.7" tries s).2) ∧
  (authenticateAdmin "4321" "10.0.0.7" 300050 (attempts "10.0.0.7" tries s).2).1 = true.
Proof.
  intros s tries.
  destruct (lockout_after_failures s "10.0.0.7" tries) as (_ & _ & _ & H1 & H2).
  - reflexivity.
  - reflexivity.
  - done.
  - repeat constructor; by intros [=].
  - split.
    + apply H1. cbn. lia.
    + change "4321"%string with (adminPin (config s)). rewrite H2; [done|]. cbn. lia.
Defined.


(** *** The rate of guesses *)

Lemma last_default_cons (tau now : Z) (l : list Z) :
  default tau (last (now :: l)) = default now (last l).
Proof.
  destruct l as [|x l]; [done|]. rewrite last_cons_cons.
  destruct (last (x :: l)) eqn:E; [done|]. by apply last_None in E.
Qed.

Lemma last_default_ge (tau : Z) (l : list Z) :
  Forall (λ t, tau ≤ t) l → tau ≤ default tau (last l).
Proof.
  intros Hall. destruct (last l) as [x|] eqn:E; cbn; [|lia].
  rewrite Forall_forall in Hall. apply (Hall x). by apply last_Some_elem_of.
Qed.

Lemma guess_rate_from ip (m L : Z) (pin0 : string) (tries : list (string * Z)) :
  1 ≤ m → 0 ≤ L →
  ∀ s a (k : nat),
    maxLoginAttempts (config s) = m → lockoutDuration (config s) = L →
    adminPin (config s) = pin0 →
    loginAttempts s !! ip = Some a → 1 ≤ count a ≤ m →
    StronglySorted Z.le tries.*2 →
    Forall (λ t, lastAttempt a ≤ t) tries.*2 →
    Forall (λ pt, pt.1 ≠ pin0) tries →
    m * Z.of_nat k + 1 ≤ count a + Z.of_nat (compared ip tries s) →
    Z.of_nat k * L ≤ default (lastAttempt a) (last tries.*2) - lastAttempt a.
Proof.
  intros Hm HL.
  induction tries as [|[pin now] rest IH];
    intros s a k Em EL Epin Ha Hcount Hsorted Hfrom Hwrong Hk.
  - cbn in *. destruct k as [|k]; [lia|]. nia.
  - rewrite fmap_cons in Hsorted, Hfrom. cbn [snd] in Hsorted, Hfrom.
    apply StronglySorted_inv in Hsorted as [Hsorted Hnow].
    apply Forall_cons in Hfrom as [Hnow0 Hfrom].
    apply Forall_cons in Hwrong as [Hpin Hwrong]. cbn [fst] in Hpin.
    rewrite fmap_cons. cbn [snd]. rewrite last_default_cons.
    pose proof (last_default_ge now rest.*2 Hnow) as Hend.
    cbn [compared] in Hk.
    destruct (lockedOut ip now s) eqn:Hl.
    + (* refused by the lockout *)
      rewrite authenticateAdmin_locked in Hk by done. cbn [snd] in Hk.
      specialize (IH s a k Em EL Epin Ha Hcount Hsorted Hfrom Hwrong).
      rewrite Nat.add_0_l in Hk. specialize (IH Hk).
      destruct (last rest.*2) as [x|] eqn:E; cbn in *; [done|lia].
    + (* compared with the PIN, and wrong *)
      rewrite <- Epin in Hpin.
      rewrite (authenticateAdmin_wrong pin ip now s Hl Hpin) in Hk. cbn [snd] in Hk.
      rewrite Ha in Hk.
      set (c' := if maxLoginAttempts (config s) <=? count a then 1 else count a + 1) in *.
      set (s1 := set_loginAttempts _ s) in *.
      assert (Hrec : loginAttempts s1 !! ip = Some (mkAttempts c' now)).
      { unfold s1. cbn. by rewrite lookup_insert_eq. }
      unfold lockedOut in Hl. rewrite Ha, Em, EL in Hl.
      destruct (m <=? count a) eqn:Emax; cbn [andb] in Hl.
      * (* the lockout has run out: the count starts again *)
        apply Z.ltb_ge in Hl. apply Z.leb_le in Emax.
        assert (c' = 1) as Hc' by (unfold c'; rewrite Em; by apply Z.leb_le in Emax as ->).
        destruct k as [|k]; [lia|].
        specialize (IH s1 (mkAttempts c' now) k Em EL Epin Hrec).
        cbn [count lastAttempt] in IH. rewrite Hc' in IH.
        specialize (IH ltac:(lia) Hsorted Hnow Hwrong).
        assert (m * Z.of_nat k + 1 ≤ 1 + Z.of_nat (compared ip rest s1)) as Hk' by nia.
        specialize (IH Hk'). nia.
      * (* one more failure on record *)
        apply Z.leb_gt in Emax.
        assert (c' = count a + 1) as Hc'.
        { unfold c'. rewrite Em. by apply Z.leb_gt in Emax as ->. }
        specialize (IH s1 (mkAttempts c' now) k Em EL Epin Hrec).
        cbn [count lastAttempt] in IH. rewrite Hc' in IH.
        specialize (IH ltac:(lia) Hsorted Hnow Hwrong ltac:(lia)). lia.
Qed.

(** X26: the rate of guesses.  In a run of failed logins from one
    address, starting without failures on record and with times that
    never decrease, the guesses that are compared with the admin PIN
    (those not refused by the lockout) come at most [maxLoginAttempts]
    per lockout: [maxLoginAttempts * k + 1] of them take at least [k]
    times the lockout duration from the first to the last attempt. *)
Theorem guess_rate (s : t) (ip : string) (tries : list (string * Z)) (k : nat) :
  1 ≤ maxLoginAttempts (config s) → 0 ≤ lockoutDuration (config s) →
  loginAttempts s !! ip = None →
  StronglySorted Z.le tries.*2 →
  Forall (λ pt, pt.1 ≠ adminPin (config s)) tries →
  maxLoginAttempts (config s) * Z.of_nat k + 1 ≤ Z.of_nat (compared ip tries s) →
  Z.of_nat k * lockoutDuration (config s)
    ≤ default 0 (last tries.*2) - default 0 (head tries.*2).
Proof.
  intros Hm HL Hnone Hsorted Hwrong Hk.
  destruct tries as [|[pin now] rest]; [cbn in Hk; nia|].
  rewrite fmap_cons in *. cbn [snd head default] in *.
  apply StronglySorted_inv in Hsorted as [Hsorted Hnow].
  apply Forall_cons in Hwrong as [Hpin Hwrong]. cbn [fst] in Hpin.
  rewrite last_default_cons.
  cbn [compared] in Hk.
  assert (Hl : lockedOut ip now s = false) by (unfold lockedOut; by rewrite Hnone).
  rewrite Hl in Hk. rewrite (authenticateAdmin_wrong pin ip now s Hl Hpin) in Hk.
  cbn [snd] in Hk. rewrite Hnone in Hk.
  set (s1 := set_loginAttempts _ s) in *.
  apply (guess_rate_from ip (maxLoginAttempts (config s)) (lockoutDuration (config s))
           (adminPin (config s)) rest Hm HL s1 (mkAttempts 1 now) k); try done.
  all: try (unfold s1; cbn; by rewrite lookup_insert_eq).
  all: cbn; lia.
Qed.

Lemma guess_rate_witness :
  let s := new "4321" 0 true in
  let tries := [("0000", 10); ("1111", 20); ("2222", 30); ("3333", 40); ("1234", 50);
                ("5555", 60); ("6666", 300050)] in
  compared "10.0.0.7" tries s = 6%nat ∧
  1 * 300000 ≤ 300050 - 10.
Proof.
  intros s tries. split; [reflexivity|].
  apply (guess_rate s "10.0.0.7" tries 1).
  - cbn. lia.
  - cbn. lia.
  - reflexivity.
  - cbn. repeat (constructor; [|repeat constructor; lia]). constructor.
  - repeat constructor; by intros [=].
  - vm_compute. by intros [=].
Defined.


(** *** Sessions *)

Lemma hasPermission_missing sid perm now s :
  sessions s !! sid = None → hasPermission sid perm now s = (false, s).
Proof. intros H. unfold hasPermission, validateSession. by rewrite H. Qed.

(** X27: what a session may do.  A session created for a paired device
    has the [read] permission only, and an admin session has [read],
    [write], [delete] and [admin]; this holds up to 24 hours after its
    creation, the last instant included; later the session is denied
    everything and is forgotten; a revoked session is denied everything
    at once.  Creating a session leaves the other sessions alone. *)
Theorem session_permissions (s : t) (tok : option string) (isAdmin : bool)
    (sid perm : string) (now now' : Z) :
  let s1 := (createSession tok isAdmin sid now s).2 in
  (now' ≤ now + 24 * 60 * 60 * 1000 →
     (hasPermission sid perm now' s1).1 =
       if isAdmin then bool_decide (perm ∈ ["read"; "write"; "delete"; "admin"])
       else bool_decide (perm = "read")) ∧
  (now + 24 * 60 * 60 * 1000 < now' →
     (hasPermission sid perm now' s1).1 = false ∧
     sessions (hasPermission sid perm now' s1).2 !! sid = None) ∧
  (∀ sid', sid' ≠ sid → sessions s1 !! sid' = sessions s !! sid') ∧
  hasPermission sid perm now' (revokeSession sid s1) = (false, revokeSession sid s1).
Proof.
  intros s1. subst s1. unfold createSession. cbn [snd].
  split_and!.
  - intros Hle. unfold hasPermission, validateSession. cbn [sessions set_sessions].
    rewrite lookup_insert_eq. cbn [s_expiresAt].
    assert ((now + day <? now') = false) as ->.
    { apply Z.ltb_ge. unfold day. lia. }
    cbn [fst s_permissions]. unfold permissionsOf. destruct isAdmin; [done|].
    apply bool_decide_ext. by rewrite list_elem_of_singleton.
  - intros Hlt. unfold hasPermission, validateSession. cbn [sessions set_sessions].
    rewrite lookup_insert_eq. cbn [s_expiresAt].
    assert ((now + day <? now') = true) as ->.
    { apply Z.ltb_lt. unfold day. lia. }
    cbn. split; [done|]. apply lookup_delete_eq.
  - intros sid' Hne. cbn. by rewrite lookup_insert_ne.
  - apply hasPermission_missing. cbn. apply lookup_delete_eq.
Qed.

Lemma session_permissions_witness :
  let s1 := (createSession (Some "tok") false "sid1" 1000 (new "4321" 0 true)).2 in
  (hasPermission "sid1" "read" 2000 s1).1 = true ∧
  (hasPermission "sid1" "delete" 2000 s1).1 = false ∧
  (hasPermission "sid1" "read" 86401001 s1).1 = false.
Proof.
  intros s1. subst s1. split_and!.
  - rewrite (proj1 (session_permissions (new "4321" 0 true) (Some "tok") false
                      "sid1" "read" 1000 2000)); [done|lia].
  - rewrite (proj1 (session_permissions (new "4321" 0 true) (Some "tok") false
                      "sid1" "delete" 1000 2000)); [done|lia].
  - apply (proj1 (proj2 (session_permissions (new "4321" 0 true) (Some "tok") false
                           "sid1" "read" 1000 86401001))). lia.
Defined.

(** *** The admin PIN *)

(** X28: changing the admin PIN.  [updateAdminPin] succeeds exactly when
    the current PIN is the right one and the new PIN has 4 to 8
    characters; otherwise nothing changes.  On success every session is
    revoked (whatever is asked of any session is denied), the paired
    devices and the record of failed logins are kept, the new PIN is
    accepted from any address that is not locked out, and the old one,
    when different, is accepted no more. *)
Theorem updateAdminPin_effect (cur pin' : string) (s : t) :
  let r := updateAdminPin cur pin' s in
  (r.1 = true ↔ cur = adminPin (config s) ∧ (4 ≤ String.length pin' ≤ 8)%nat) ∧
  (r.1 = false → r.2 = s) ∧
  (r.1 = true →
     adminPin (config r.2) = pin' ∧
     sessions r.2 = ∅ ∧
     (∀ sid perm now, hasPermission sid perm now r.2 = (false, r.2)) ∧
     pairedDevices r.2 = pairedDevices s ∧
     loginAttempts r.2 = loginAttempts s ∧
     (∀ ip now, lockedOut ip now r.2 = false →
                (authenticateAdmin pin' ip now r.2).1 = true) ∧
     (cur ≠ pin' → ∀ ip now, (authenticateAdmin cur ip now r.2).1 = false)).
Proof.
  intros r. subst r. unfold updateAdminPin.
  destruct (String.eqb cur (adminPin (config s))) eqn:Ecur; cbn [negb].
  - apply String.eqb_eq in Ecur.
    destruct ((String.length pin' <? 4)%nat || (8 <? String.length pin')%nat) eqn:Elen.
    + cbn [fst snd]. split_and!; [|done|done].
      split; [done|]. intros [_ Hlen].
      apply orb_true_iff in Elen as [H%Nat.ltb_lt|H%Nat.ltb_lt]; lia.
    + apply orb_false_iff in Elen as [H1%Nat.ltb_ge H2%Nat.ltb_ge].
      cbn [fst snd]. split_and!; [|done|].
      { split; [intros _; split; [done|lia]|done]. }
      intros _. split; [done|]. split; [done|].
      split; [intros sid perm now; by apply hasPermission_missing|].
      split; [done|]. split; [done|]. split.
      * intros ip now Hl.
        set (s' := revokeAllSessions _) in *.
        change pin' with (adminPin (config s')) at 1.
        by rewrite authenticateAdmin_right.
      * intros Hne ip now.
        set (s' := revokeAllSessions _) in *.
        destruct (lockedOut ip now s') eqn:Hl.
        -- by rewrite authenticateAdmin_locked.
        -- by rewrite authenticateAdmin_wrong.
  - apply String.eqb_neq in Ecur. cbn [fst snd]. split_and!; [|done|done].
    split; [done|]. by intros [? _].
Qed.

Lemma updateAdminPin_effect_witness :
  let s := (createSession None true "sid1" 1000 (new "4321" 0 true)).2 in
  (updateAdminPin "4321" "123" s).1 = false ∧
  (updateAdminPin "4321" "97531" s).1 = true ∧
  hasPermission "sid1" "admin" 2000 (updateAdminPin "4321" "97531" s).2
    = (false, (updateAdminPin "4321" "97531" s).2).
Proof.
  intros s. split_and!.
  - reflexivity.
  - apply (proj1 (updateAdminPin_effect "4321" "97531" s)). split; [done|cbn; lia].
  - apply (proj2 (proj2 (updateAdminPin_effect "4321" "97531" s))). reflexivity.
Defined.

(** *** Paired devices *)

(** X29: the life of a pairing.  A pairing token is not honoured before
    it is validated; validated at or before its expiry (the configured
    number of seconds after its creation) it is honoured until just
    before the expiry; a validation after the expiry fails and forgets
    the token.  [revokeDevice] forgets the token, which is honoured no
    more, and removes exactly the sessions opened with it. *)
Theorem pairing_life (s : t) (dev token : string) (now now1 now2 : Z) :
  let s1 := (generatePairingToken dev token now s).2 in
  let expiry := now + pairingTokenExpiry (config s) * 1000 in
  (generatePairingToken dev token now s).1 = (token, expiry) ∧
  isDevicePaired token now1 s1 = false ∧
  (now1 ≤ expiry →
     (validatePairingToken token now1 s1).1 = true ∧
     isDevicePaired token now2 (validatePairingToken token now1 s1).2
       = bool_decide (now2 < expiry)) ∧
  (expiry < now1 →
     (validatePairingToken token now1 s1).1 = false ∧
     pairedDevices (validatePairingToken token now1 s1).2 !! token = None) ∧
  (∀ s0 : t,
     pairedDevices (revokeDevice token s0) !! token = None ∧
     isDevicePaired token now2 (revokeDevice token s0) = false ∧
     (∀ sid x, sessions (revokeDevice token s0) !! sid = Some x ↔
               sessions s0 !! sid = Some x ∧ s_pairingToken x ≠ Some token) ∧
     (∀ tok', tok' ≠ token →
        pairedDevices (revokeDevice token s0) !! tok' = pairedDevices s0 !! tok')).
Proof.
  intros s1 expiry. subst s1 expiry. unfold generatePairingToken. cbn [fst snd].
  split_and!.
  - done.
  - unfold isDevicePaired. cbn. by rewrite lookup_insert_eq.
  - intros Hle. unfold validatePairingToken. cbn [pairedDevices set_pairedDevices].
    rewrite lookup_insert_eq. cbn [p_expiresAt].
    assert ((now + pairingTokenExpiry (config s) * 1000 <? now1) = false) as ->
      by (apply Z.ltb_ge; lia).
    cbn [fst snd]. split; [done|].
    unfold isDevicePaired. cbn. rewrite lookup_insert_eq. cbn.
    destruct (now2 <? now + pairingTokenExpiry (config s) * 1000) eqn:E.
    + apply Z.ltb_lt in E. by rewrite bool_decide_eq_true_2.
    + apply Z.ltb_ge in E. rewrite bool_decide_eq_false_2; [done|lia].
  - intros Hlt. unfold validatePairingToken. cbn [pairedDevices set_pairedDevices].
    rewrite lookup_insert_eq. cbn [p_expiresAt].
    assert ((now + pairingTokenExpiry (config s) * 1000 <? now1) = true) as ->
      by (apply Z.ltb_lt; lia).
    cbn. split; [done|]. apply lookup_delete_eq.
  - intros s0. unfold revokeDevice, isDevicePaired. cbn. split_and!.
    + apply lookup_delete_eq.
    + by rewrite lookup_delete_eq.
    + intros sid x. rewrite map_lookup_filter_Some. done.
    + intros tok' Hne. by rewrite lookup_delete_ne.
Qed.

Lemma pairing_life_witness :
  let s1 := (generatePairingToken "phone" "tok" 1000 (new "4321" 0 true)).2 in
  (validatePairingToken "tok" 2000 s1).1 = true ∧
  (validatePairingToken "tok" 3601001 s1).1 = false.
Proof.
  intros s1. split.
  - apply (proj1 (proj2 (proj2 (pairing_life (new "4321" 0 true) "phone" "tok"
                                  1000 2000 0)))). cbn. lia.
  - apply (proj1 (proj2 (proj2 (proj2 (pairing_life (new "4321" 0 true) "phone" "tok"
                                         1000 3601001 0))))). cbn. lia.
Defined.

End SecurityFacts.

(** ** File names *)

Module FilenameFacts.

Lemma list_ascii_app (a b : string) :
  String.list_ascii_of_string (a +:+ b) =
  String.list_ascii_of_string a ++ String.list_ascii_of_string b.
Proof.
  induction a as [|x a IH]; [done|].
  change (String x a +:+ b) with (String x (a +:+ b)).
  cbn [String.list_ascii_of_string]. by rewrite IH.
Qed.

Lemma padOk_all v : 0 ≤ v ≤ 99 → padOk v = true.
Proof.
  intros Hv.
  assert (H : forallb padOk (seqZ 0 100) = true) by (vm_compute; reflexivity).
  rewrite forallb_forall in H. apply H. apply list_elem_of_In, elem_of_seqZ. lia.
Qed.

Lemma yearOk_all y : 1000 ≤ y ≤ 9999 → yearOk y = true.
Proof.
  intros Hy.
  assert (H : forallb yearOk (seqZ 1000 9000) = true) by (vm_compute; reflexivity).
  rewrite forallb_forall in H. apply H. apply list_elem_of_In, elem_of_seqZ. lia.
Qed.


Lemma padOk_inv v :
  0 ≤ v ≤ 99 →
  ∃ a b, String.list_ascii_of_string (pad v) = [a; b] ∧
         isDigit a = true ∧ isDigit b = true ∧ numberOf [a; b] = v.
Proof.
  intros Hv. pose proof (padOk_all v Hv) as H. unfold padOk in H.
  destruct (String.list_ascii_of_string (pad v)) as [|a [|b [|? ?]]]; try done.
  apply andb_true_iff in H as [[Ha Hb]%andb_true_iff Hn%Z.eqb_eq].
  by exists a, b.
Qed.

Lemma yearOk_inv y :
  1000 ≤ y ≤ 9999 →
  ∃ a b c d, String.list_ascii_of_string (pretty y) = [a; b; c; d] ∧
    isDigit a = true ∧ isDigit b = true ∧ isDigit c = true ∧ isDigit d = true ∧
    numberOf [a; b; c; d] = y.
Proof.
  intros Hy. pose proof (yearOk_all y Hy) as H. unfold yearOk in H.
  destruct (String.list_ascii_of_string (pretty y)) as [|a [|b [|c [|d [|? ?]]]]]; try done.
  apply andb_true_iff in H as [H Hn%Z.eqb_eq].
  apply andb_true_iff in H as [H Hd]. apply andb_true_iff in H as [H Hc].
  apply andb_true_iff in H as [Ha Hb].
  by exists a, b, c, d.
Qed.

(** X30: a generated file name parses back.  For a camera id that is
    not empty and holds no line break, and a date whose year has four
    digits (1000 to 9999), [parseVideoFilename] applied to the name that
    [generateVideoFilename] builds returns the camera id, the year,
    month, day, hour, minute and second of the date, and the name
    itself. *)
Theorem parse_generate (c : string) (d : Date) :
  c ≠ "" →
  existsb isLineTerminator (String.list_ascii_of_string c) = false →
  1000 ≤ getFullYear d ≤ 9999 → 0 ≤ getMonth d ≤ 11 → 1 ≤ getDate d ≤ 31 →
  0 ≤ getHours d ≤ 23 → 0 ≤ getMinutes d ≤ 59 → 0 ≤ getSeconds d ≤ 59 →
  parseVideoFilename (generateVideoFilename c d) =
    Some (mkParsedName c
            (mkDateParts (getFullYear d) (getMonth d) (getDate d)
               (getHours d) (getMinutes d) (getSeconds d))
            (generateVideoFilename c d)).
Proof.
  intros Hc Hlt Hy Hmo Hd Hh Hmi Hs.
  destruct (yearOk_inv (getFullYear d) Hy)
    as (y1 & y2 & y3 & y4 & EY & Dy1 & Dy2 & Dy3 & Dy4 & NY).
  destruct (padOk_inv (getMonth d + 1)) as (m1 & m2 & EM & Dm1 & Dm2 & NM); [lia|].
  destruct (padOk_inv (getDate d)) as (d1 & d2 & ED & Dd1 & Dd2 & ND); [lia|].
  destruct (padOk_inv (getHours d)) as (h1 & h2 & EH & Dh1 & Dh2 & NH); [lia|].
  destruct (padOk_inv (getMinutes d)) as (i1 & i2 & EI & Di1 & Di2 & NI); [lia|].
  destruct (padOk_inv (getSeconds d)) as (s1 & s2 & ES & Ds1 & Ds2 & NS); [lia|].
  assert (Hlist : String.list_ascii_of_string (generateVideoFilename c d) =
            String.list_ascii_of_string c ++
            String.list_ascii_of_string "_" ++ [y1; y2; y3; y4] ++
            String.list_ascii_of_string "-" ++ [m1; m2] ++
            String.list_ascii_of_string "-" ++ [d1; d2] ++
            String.list_ascii_of_string "_" ++ [h1; h2] ++
            String.list_ascii_of_string "-" ++ [i1; i2] ++
            String.list_ascii_of_string "-" ++ [s1; s2] ++
            String.list_ascii_of_string ".mp4").
  { unfold generateVideoFilename. rewrite !list_ascii_app.
    rewrite EY, EM, ED, EH, EI, ES. by rewrite <- !app_assoc. }
  unfold parseVideoFilename. rewrite Hlist. cbn [String.list_ascii_of_string app].
  set (lc := String.list_ascii_of_string c) in *.
  rewrite length_app. cbn [length].
  replace (length lc + 24 - 24)%nat with (length lc) by lia.
  rewrite take_app_length, drop_app_length.
  assert (Hlen : (1 <=? length lc)%nat = true).
  { apply Nat.leb_le. destruct c; [done|]. cbn. lia. }
  rewrite Hlen, Hlt. cbn [forallb negb andb].
  rewrite Dy1, Dy2, Dy3, Dy4, Dm1, Dm2, Dd1, Dd2, Dh1, Dh2, Di1, Di2, Ds1, Ds2.
  cbn [andb]. rewrite bool_decide_eq_true_2 by done.
  rewrite NY, NM, ND, NH, NI, NS. unfold lc.
  rewrite String.string_of_list_ascii_of_string.
  do 3 f_equal. lia.
Qed.

Lemma parse_generate_witness :
  parseVideoFilename "CAM01_2026-01-04_14-32-10.mp4" =
    Some (mkParsedName "CAM01" (mkDateParts 2026 0 4 14 32 10)
            "CAM01_2026-01-04_14-32-10.mp4").
Proof.
  apply (parse_generate "CAM01" (mkDate 1767537130100 2026 0 4 14 32 10 100)).
  - done.
  - reflexivity.
  - cbn. lia.
  - cbn. lia.
  - cbn. lia.
  - cbn. lia.
  - cbn. lia.
  - cbn. lia.
Defined.

End FilenameFacts.
